(** * The deployment scripts, embedded

    Two Python scripts are modelled here:
    - [deployment_on_aws_server.py] (module [Deploy]): connect over SSH,
      copy the local [build] tree to a staging directory, swap staging into
      the live directory, restart services;
    - [deployment_pipeline_from_using_python_script.py] (module [Pipeline]):
      clone or pull three repositories, build, merge, commit and push.

    Both scripts are sequences of calls into the outside world wrapped in
    [try]/[except].  A stage is a computation in a state-and-exception
    monad over a world that holds what the outside world will answer
    (scripted, universally quantified in the theorems), a trace of every call
    attempted, the log, and, for the first script, the remote file system
    on which the dispatched shell commands run. *)

From Stdlib Require Import Strings.Ascii Strings.String Strings.Byte ZArith Lia.
From stdpp Require Import gmap strings list fin_maps.

Set Warnings "-register-all".

(** ** Python strings and [posixpath] *)

Module Py.

(** [s.startswith(p)] *)
Definition startswith (s p : string) : bool := String.prefix p s.

(** [s.endswith(c)] for a one-character [c] *)
Fixpoint endswith_char (s : string) (c : ascii) : bool :=
  match s with
  | EmptyString => false
  | String x EmptyString => Ascii.eqb x c
  | String _ r => endswith_char r c
  end.

(** [s.split(sep)] for a one-character separator class: the pieces between
    separators, empty pieces included; never the empty list. *)
Fixpoint split_by (sep : ascii → bool) (s : string) : list string :=
  match s with
  | EmptyString => [EmptyString]
  | String c r =>
      if sep c then EmptyString :: split_by sep r
      else match split_by sep r with
           | x :: xs => String c x :: xs
           | [] => [String c EmptyString]
           end
  end.

Definition is_slash (c : ascii) : bool := Ascii.eqb c "/".

(** [[x for x in p.split('/') if x]] *)
Definition components (p : string) : list string :=
  filter (λ x, x ≠ "") (split_by is_slash p).

(** [sep.join(l)] *)
Definition str_join (sep : string) (l : list string) : string :=
  String.concat sep l.

(** [posixpath.join(a, b)] *)
Definition path_join (a b : string) : string :=
  if startswith b "/" then b
  else if String.eqb a "" || endswith_char a "/" then a +:+ b
  else a +:+ "/" +:+ b.

(** [posixpath.join] spread over a list, as [relpath] calls it *)
Definition path_join_all (l : list string) : string :=
  match l with
  | [] => ""
  | a :: r => fold_left path_join r a
  end.

(** [s.rstrip('/')] *)
Definition rstrip_slash (s : string) : string :=
  String.rev
    ((fix strip (r : string) : string :=
        match r with
        | String c r' => if is_slash c then strip r' else r
        | EmptyString => EmptyString
        end) (String.rev s)).

(** [posixpath.dirname(p)]: everything up to and including the last slash,
    with trailing slashes removed unless the head is slashes only. *)
Definition dirname (p : string) : string :=
  let head :=
    match rev (split_by is_slash p) with
    | _ :: before => String.concat "/" (rev before) +:+
                     (match before with [] => "" | _ => "/" end)
    | [] => ""
    end in
  if forallb (String.eqb "") (split_by is_slash head) then head
  else rstrip_slash head.

(** The component stack of [posixpath.normpath], top of the stack first.
    [abs] says that the path started with a slash. *)
Fixpoint norm_stack (abs : bool) (st : list string) (cs : list string)
  : list string :=
  match cs with
  | [] => st
  | c :: cs' =>
      if String.eqb c "" || String.eqb c "." then norm_stack abs st cs'
      else if String.eqb c ".." then
        match st with
        | [] => norm_stack abs (if abs then [] else [".."]) cs'
        | top :: st' =>
            if String.eqb top ".." then norm_stack abs (c :: st) cs'
            else norm_stack abs st' cs'
        end
      else norm_stack abs (c :: st) cs'
  end.

(** The non-empty components of [posixpath.abspath(p)] when the current
    directory is [cwd]: [normpath(join(cwd, p))], split on slashes. *)
Definition abs_components (cwd p : string) : list string :=
  let full := if startswith p "/" then p else path_join cwd p in
  rev (norm_stack (startswith full "/") [] (split_by is_slash full)).

(** [len(os.path.commonprefix([a, b]))] on two component lists *)
Fixpoint common_len (a b : list string) : nat :=
  match a, b with
  | x :: a', y :: b' => if String.eqb x y then S (common_len a' b') else 0
  | _, _ => 0
  end.

(** [posixpath.relpath(path, start)] with the current directory [cwd];
    [None] is the [ValueError] raised on an empty [path]. *)
Definition relpath (cwd path start : string) : option string :=
  if String.eqb path "" then None
  else
    let start_list := abs_components cwd start in
    let path_list := abs_components cwd path in
    let i := common_len start_list path_list in
    let rel_list := replicate (length start_list - i) ".." ++ drop i path_list in
    Some (match rel_list with [] => "." | _ => path_join_all rel_list end).

(** *** Vocabulary for the statements about strings *)

(** No character of [s] is a separator. *)
Definition free_of (sep : ascii → bool) (s : string) : Prop :=
  Forall (λ c, sep c = false) (list_ascii_of_string s).

(** A component that [normpath] keeps as it is. *)
Definition plain (c : string) : Prop := c ≠ "" ∧ c ≠ "." ∧ c ≠ "..".

(** A non-empty string without slashes. *)
Definition name_like (n : string) : Prop := n ≠ "" ∧ free_of is_slash n.

End Py.

(** ** The remote host: a file tree and the shell commands run on it

    The scripts never look at what a remote command did, so the host is
    part of the world, not of the program.  It is modelled far enough to
    say what [mv], [rm -rf] and [mkdir -p] do to a tree of files, for
    command lines made of plain words (no quoting, globbing or expansion
    characters) and a tree without symbolic links, in which the user may
    write everywhere.  What the host's shell does with any other command
    line is left open: see [sh_known] and [sh_run]. *)

Module Remote.

Inductive node :=
  | File (data : list byte)
  | Dir (entries : gmap string node).

Definition is_dir (n : node) : bool :=
  match n with Dir _ => true | File _ => false end.

(** The node found at a path, given as components from the root. *)
Fixpoint fs_lookup (p : list string) (t : node) : option node :=
  match p with
  | [] => Some t
  | n :: q =>
      match t with
      | Dir es => match es !! n with Some c => fs_lookup q c | None => None end
      | File _ => None
      end
  end.

(** Bind ([Some c]) or unbind ([None]) the last component of [p] in its
    parent directory, which has to exist. *)
Fixpoint fs_set (p : list string) (v : option node) (t : node) : option node :=
  match p, t with
  | [], _ => None
  | _, File _ => None
  | [n], Dir es =>
      Some (Dir (match v with Some c => <[n:=c]> es | None => delete n es end))
  | n :: q, Dir es =>
      match es !! n with
      | Some c =>
          match fs_set q v c with
          | Some c' => Some (Dir (<[n:=c']> es))
          | None => None
          end
      | None => None
      end
  end.

(** [mkdir -p p]: make every missing directory along [p]; fails on a
    component that is a regular file. *)
Fixpoint fs_mkdir_p (p : list string) (t : node) : option node :=
  match t with
  | File _ => None
  | Dir es =>
      match p with
      | [] => Some t
      | n :: q =>
          match fs_mkdir_p q (default (Dir ∅) (es !! n)) with
          | Some c' => Some (Dir (<[n:=c']> es))
          | None => None
          end
      end
  end.

(** [rm -rf p]: remove the subtree if there is one; a missing path is not an
    error, the root is refused. *)
Definition fs_rm_rf (p : list string) (t : node) : option node :=
  match p with
  | [] => None
  | _ => match fs_lookup p t with
         | Some _ => fs_set p None t
         | None => Some t
         end
  end.

(** Whether [rename(2)] refuses to put [src] over what is at the target. *)
Definition rename_clash (src : node) (target : option node) : bool :=
  match target, src with
  | None, _ => false
  | Some (File _), File _ => false
  | Some (Dir es), Dir _ => negb (Nat.eqb (size es) 0)
  | Some (File _), Dir _ => true
  | Some (Dir _), File _ => true
  end.

(** [mv src dst] with one source: into [dst] when [dst] is a directory,
    onto [dst] otherwise. *)
Definition fs_mv (src dst : list string) (t : node) : option node :=
  match fs_lookup src t, last src with
  | Some n, Some base =>
      let target :=
        match fs_lookup dst t with
        | Some (Dir _) => dst ++ [base]
        | _ => dst
        end in
      if bool_decide (src `prefix_of` target) then None
      else if rename_clash n (fs_lookup target t) then None
      else t1 ← fs_set src None t; fs_set target (Some n) t1
  | _, _ => None
  end.

(** What SFTP does for [put]: create or truncate the regular file at [p]
    and write [data]; the parent directory has to exist and [p] must not
    be a directory. *)
Definition fs_write (p : list string) (data : list byte) (t : node)
  : option node :=
  match fs_lookup p t with
  | Some (Dir _) => None
  | _ => fs_set p (Some (File data)) t
  end.

(** Components of a path name as the host resolves it, [home] being the
    directory a relative name starts from. *)
Definition resolve (home : list string) (p : string) : list string :=
  let abs := Py.startswith p "/" in
  rev (Py.norm_stack true (if abs then [] else rev home)
         (Py.split_by Py.is_slash p)).

(** Shell word splitting on blanks: space and tab.  A newline is no
    blank, it ends a command. *)
Definition is_blank (c : ascii) : bool :=
  Ascii.eqb c " " || Ascii.eqb c "009".

Definition sh_words (cmd : string) : list string :=
  filter (λ x, x ≠ "") (Py.split_by is_blank cmd).

(** Characters the shell gives a meaning to, the double quote and the
    newline among them; a word without them and without blanks stands for
    itself. *)
Definition is_shell_special (c : ascii) : bool :=
  bool_decide (c ∈ list_ascii_of_string "|&;<>()$`\'*?[]#~=%!{}" ++
                   [ascii_of_nat 34; ascii_of_nat 10]).

Definition sh_plain (w : string) : bool :=
  negb (String.eqb w "") && negb (Py.startswith w "-") &&
  forallb (λ c, negb (is_blank c) && negb (is_shell_special c))
    (list_ascii_of_string w).

(** Run an operation once per operand; the exit status is 1 as soon as
    one operand failed, and the failing operand changes nothing. *)
Definition for_operands (op : list string → node → option node)
    (args : list (list string)) (t : node) : Z * node :=
  fold_left
    (λ '(st, t) a, match op a t with Some t' => (st, t') | None => (1%Z, t) end)
    args (0%Z, t).

(** The commands the scripts send.  The result is the exit status and the
    tree afterwards; a command that fails leaves the tree as it was.
    Restarting a service does nothing to the tree; what [systemctl]
    answers is not modelled, no statement depends on it. *)
Definition sh_exec (home : list string) (cmd : string) (t : node) : Z * node :=
  let path := resolve home in
  match sh_words cmd with
  | "mv" :: args =>
      match rev args with
      | dst :: [src] =>
          match fs_mv (path src) (path dst) t with
          | Some t' => (0%Z, t')
          | None => (1%Z, t)
          end
      | dst :: ((_ :: _ :: _) as srcs) =>
          match fs_lookup (path dst) t with
          | Some (Dir _) =>
              for_operands (λ s, fs_mv s (path dst)) (path <$> rev srcs) t
          | _ => (1%Z, t)
          end
      | _ => (1%Z, t)
      end
  | "rm" :: "-rf" :: args => for_operands fs_rm_rf (path <$> args) t
  | "mkdir" :: "-p" :: args =>
      match args with
      | [] => (1%Z, t)
      | _ => for_operands fs_mkdir_p (path <$> args) t
      end
  | ["sudo"; "systemctl"; "restart"; _] => (0%Z, t)
  | _ => (127%Z, t)
  end.

(** The command lines the model speaks for: [mv], [rm -rf] and
    [mkdir -p] with operands that are plain words, and the restart of a
    service.  On any other command line (a word that the shell would
    expand, split or take for an operator, an option in the place of an
    operand, another program) [sh_exec] is not to be trusted. *)
Definition sh_known (cmd : string) : bool :=
  match sh_words cmd with
  | "mv" :: args | "rm" :: "-rf" :: args | "mkdir" :: "-p" :: args =>
      forallb sh_plain args
  | ["sudo"; "systemctl"; "restart"; unit] => sh_plain unit
  | _ => false
  end.

(** What running a command line does on the host: what [sh_exec] says
    for the command lines the model speaks for, and for the others what
    [beyond] says, about which nothing is assumed. *)
Definition sh_run (beyond : string → node → Z * node)
    (home : list string) (cmd : string) (t : node) : Z * node :=
  if sh_known cmd then sh_exec home cmd t else beyond cmd t.

(** *** Vocabulary for the statements about the host *)

(** The last piece of a path name, and the directory that the pieces
    before it lead to. *)
Definition leaf (p : string) : string :=
  default "" (last (Py.split_by Py.is_slash p)).

Definition parent_of (home : list string) (p : string) : list string :=
  rev (Py.norm_stack true (if Py.startswith p "/" then [] else rev home)
         (removelast (Py.split_by Py.is_slash p))).

(** A path name that the shell passes on as one word and whose last
    piece names an entry of its parent directory. *)
Definition path_ok (p : string) : bool :=
  sh_plain p &&
  negb (String.eqb (leaf p) "") && negb (String.eqb (leaf p) ".") &&
  negb (String.eqb (leaf p) "..").

(** Binding ([Some c]) or unbinding ([None]) a name in a directory. *)
Definition bound (a : string) (v : option node) (es : gmap string node)
  : gmap string node :=
  match v with Some c => <[a := c]> es | None => delete a es end.

(** The tree with the node at [p] replaced by [c]. *)
Fixpoint fs_subst (p : list string) (c : node) (t : node) : node :=
  match p with
  | [] => c
  | n :: q =>
      match t with
      | Dir es =>
          match es !! n with
          | Some x => Dir (<[n := fs_subst q c x]> es)
          | None => t
          end
      | File _ => t
      end
  end.

(** The tree [t'] is [t], or differs from it at most in the entries
    [names] of the directory at [p]. *)
Definition changed_within (p : list string) (names : list string)
    (t t' : node) : Prop :=
  t' = t ∨
  ∃ es es', fs_lookup p t = Some (Dir es) ∧
            t' = fs_subst p (Dir es') t ∧
            ∀ k, k ∉ names → es' !! k = es !! k.

End Remote.

(** ** The local build tree and [os.walk] *)

Module Local.

(** A directory lists its entries in the order [os.scandir] returns them. *)
Inductive node :=
  | File (data : list byte)
  | Dir (entries : list (string * node)).

Definition is_dir (n : node) : bool :=
  match n with Dir _ => true | File _ => false end.

Definition names_where (keep : node → bool) (es : list (string * node))
  : list string :=
  (filter (λ e, keep e.2 = true) es).*1.

(** [os.walk(top)], top-down, errors ignored: one triple
    [(root, dirs, files)] per directory, a directory before its
    subdirectories; nothing at all when [top] is not a directory. *)
Fixpoint os_walk (top : string) (t : node)
  : list (string * list string * list string) :=
  match t with
  | File _ => []
  | Dir es =>
      (top, names_where is_dir es, names_where (λ n, negb (is_dir n)) es) ::
      (fix subdirs (l : list (string * node)) :=
         match l with
         | [] => []
         | (name, c) :: l' => os_walk (Py.path_join top name) c ++ subdirs l'
         end) es
  end.

Fixpoint lookup (p : list string) (t : node) : option node :=
  match p with
  | [] => Some t
  | n :: q =>
      match t with
      | Dir es =>
          match list_find (λ e, e.1 = n) es with
          | Some (_, (_, c)) => lookup q c
          | None => None
          end
      | File _ => None
      end
  end.

(** The tree at a path name relative to the current directory, whose
    tree is [t]. *)
Definition at_path (p : string) (t : node) : option node :=
  lookup (rev (Py.norm_stack false [] (Py.split_by Py.is_slash p))) t.

(** Opening a local file for reading. *)
Definition read_file (p : string) (t : node) : option (list byte) :=
  match at_path p t with
  | Some (File data) => Some data
  | _ => None
  end.

(** *** Vocabulary for the statements about the build tree *)

(** The regular files of a tree in the order [os.walk] meets them: the
    files of a directory first, then those of its subdirectories. Each
    comes with the names of the directories that lead to it, its own
    name and its content. *)
Fixpoint files_of (t : node) : list (list string * string * list byte) :=
  match t with
  | File _ => []
  | Dir es =>
      (fix direct (l : list (string * node)) :=
         match l with
         | [] => []
         | (f, File data) :: l' => ([], f, data) :: direct l'
         | (_, Dir _) :: l' => direct l'
         end) es ++
      (fix below (l : list (string * node)) :=
         match l with
         | [] => []
         | (d, c) :: l' =>
             ((λ x, (d :: x.1.1, x.1.2, x.2)) <$> files_of c) ++ below l'
         end) es
  end.

(** The files directly in a directory and those below it, as [files_of]
    lists them. *)
Definition direct (es : list (string * node))
  : list (list string * string * list byte) :=
  omap (λ e, match e.2 with File data => Some ([], e.1, data) | Dir _ => None end) es.

Definition below (es : list (string * node))
  : list (list string * string * list byte) :=
  e ← es; (λ x, (e.1 :: x.1.1, x.1.2, x.2)) <$> files_of e.2.

(** The path of a listed file below the root of the tree. *)
Definition rel_path (x : list string * string * list byte) : list string :=
  x.1.1 ++ [x.1.2].

(** The [(root, file)] pairs the two nested loops over a walk go
    through. *)
Definition walk_items (walk : list (string * list string * list string))
  : list (string * string) :=
  x ← walk; (λ file, (x.1.1, file)) <$> x.2.

(** A name a directory entry can have. *)
Definition entry_name (n : string) : Prop :=
  Py.plain n ∧ Py.free_of Py.is_slash n.

(** Every directory of the tree lists each name once, and the names are
    entry names. *)
Fixpoint well_formed (t : node) : Prop :=
  match t with
  | File _ => True
  | Dir es =>
      NoDup es.*1 ∧
      (fix each (l : list (string * node)) : Prop :=
         match l with
         | [] => True
         | (n, c) :: l' => entry_name n ∧ well_formed c ∧ each l'
         end) es
  end.

End Local.

(** ** Exceptions, results and the stage monad *)

(** A raised Python exception: its class name and [str(e)].  Every
    exception modelled is an instance of [Exception]. *)
Inductive exn := Exn (cls : string) (msg : string).

Definition exn_str (e : exn) : string := match e with Exn _ m => m end.

Inductive result (A : Type) :=
  | Ok (a : A)
  | Raise (e : exn).
Arguments Ok {A} a.
Arguments Raise {A} e.

(** A computation over a world [W]: it ends normally with a value or
    with a raised exception, and in both cases leaves a world behind. *)
Definition M (W A : Type) : Type := W → result A * W.

Definition ret {W A} (a : A) : M W A := λ w, (Ok a, w).

Definition bind {W A B} (m : M W A) (k : A → M W B) : M W B :=
  λ w, match m w with
       | (Ok a, w') => k a w'
       | (Raise e, w') => (Raise e, w')
       end.

Definition raise {W A} (e : exn) : M W A := λ w, (Raise e, w).

(** [try: body except Exception as e: handler(e)] *)
Definition try_except {W A} (body : M W A) (handler : exn → M W A) : M W A :=
  λ w, match body w with
       | (Ok a, w') => (Ok a, w')
       | (Raise e, w') => handler e w'
       end.

(** [try: body finally: cleanup]: [cleanup] always runs; if it raises, its
    exception is the one that propagates. *)
Definition try_finally {W A} (body : M W A) (cleanup : M W unit) : M W A :=
  λ w, match body w with
       | (r, w') =>
           match cleanup w' with
           | (Ok _, w'') => (r, w'')
           | (Raise e, w'') => (Raise e, w'')
           end
       end.

Definition get {W} : M W W := λ w, (Ok w, w).
Definition modify {W} (f : W → W) : M W unit := λ w, (Ok tt, f w).

(** [for x in l: body(x)] *)
Fixpoint for_each {W A} (l : list A) (body : A → M W unit) : M W unit :=
  match l with
  | [] => ret tt
  | x :: l' => bind (body x) (λ _, for_each l' body)
  end.

Declare Scope stage_scope.
Delimit Scope stage_scope with stage.
Notation "x <- m ;; k" := (bind m (λ x, k))
  (at level 100, m at next level, k at level 200, right associativity)
  : stage_scope.
Notation "m ;; k" := (bind m (λ _, k))
  (at level 100, k at level 200, right associativity) : stage_scope.

Inductive level := INFO | ERROR.

(** A computation is [framed] by a relation [R] on worlds when the world
    it leaves is [R]-related to the one it started in, however it ends. *)
Definition framed {W A} (R : relation W) (m : M W A) : Prop :=
  ∀ w, R w (m w).2.

Local Open Scope stage_scope.

(** ** [deployment_on_aws_server.py]

    What the model takes for granted about the outside world:
    - a call into paramiko either raises or goes through; which of the
      two is scripted in the world and left open in the statements;
    - [exec_command] returns as soon as the command is handed to the
      host, and the script never waits for a command or reads its exit
      status.  The host runs the commands it was handed when it pleases
      and in the order it pleases: a command is [pending] until the host
      runs it, which it does in one piece, and [finished] afterwards.
      When the host runs what is the parameter [pace], left open in the
      statements; a host that runs every command during the call that
      hands it over is [prompt], and a statement that needs such a host
      says so;
    - an [exec_command] that raises may have handed its command to the
      host all the same, the connection having failed after the request
      was sent; whether it has is part of [pace] too, and a statement
      that needs such commands to be lost says so ([all_or_nothing]);
    - [connect], [open_sftp] and [put] change nothing on the host when
      the transport makes them raise; no statement rests on what a [put]
      cut short leaves at its path;
    - [sftp.put] works on the host's tree as it is at that moment, and
      raises when the host cannot create the file;
    - [sftp.close] and [ssh.close] do not raise, and logging does not
      either. *)

Module Deploy.

(** The state of the one SSH session of a run. *)
Inductive session := NotConnected | Open | Closed.

(** The object [connect_to_server] returns; it is truthy, like any
    [paramiko.SSHClient]. *)
Inductive SSHClient := Client.

(** The object [ssh.open_sftp()] returns. *)
Inductive SFTPClient := Sftp.

(** Calls that leave the process. *)
Inductive call :=
  | Connect
  | OpenSftp
  | ExecCommand (cmd : string)
  | SftpPut (localpath remotepath : string)
  | SftpClose
  | SshClose.

(** How a call ended.  An [exec_command] that returned has handed its
    command to the host, no more. *)
Inductive outcome :=
  | Returned
  | Raised (e : exn).

Record world := World {
  (** what the transport does to the calls still to come, in order:
      [None] lets a call through, [Some e] makes it raise [e]; calls
      beyond the end of the list go through *)
  env : list (option exn);
  session_state : session;
  (** the root of the host's file tree *)
  remote : Remote.node;
  (** the commands handed to the host that it has not run yet, oldest
      first *)
  pending : list string;
  (** the commands the host has run, each with its exit status, in the
      order it ran them *)
  finished : list (string * Z);
  (** every call attempted, oldest first *)
  trace : list (call * outcome);
  log : list (level * string);
  (** the local name [ssh] of [main]: [None] while it is unbound *)
  ssh_var : option SSHClient;
}.

Definition set_env (x : list (option exn)) (w : world) : world :=
  World x (session_state w) (remote w) (pending w) (finished w) (trace w)
    (log w) (ssh_var w).
Definition set_session (x : session) (w : world) : world :=
  World (env w) x (remote w) (pending w) (finished w) (trace w) (log w)
    (ssh_var w).
Definition set_remote (x : Remote.node) (w : world) : world :=
  World (env w) (session_state w) x (pending w) (finished w) (trace w)
    (log w) (ssh_var w).
Definition add_pending (cmd : string) (w : world) : world :=
  World (env w) (session_state w) (remote w) (pending w ++ [cmd])
    (finished w) (trace w) (log w) (ssh_var w).
Definition add_trace (c : call) (o : outcome) (w : world) : world :=
  World (env w) (session_state w) (remote w) (pending w) (finished w)
    (trace w ++ [(c, o)]) (log w) (ssh_var w).
Definition add_log (l : level) (msg : string) (w : world) : world :=
  World (env w) (session_state w) (remote w) (pending w) (finished w)
    (trace w) (log w ++ [(l, msg)]) (ssh_var w).
Definition set_ssh_var (x : option SSHClient) (w : world) : world :=
  World (env w) (session_state w) (remote w) (pending w) (finished w)
    (trace w) (log w) x.

(** What the host does when: [runs n] are the pending commands it runs
    while call number [n] of the run is under way, each named by its
    place in the queue at that moment; [reaches n] tells whether the
    command of call number [n], should that call raise, has reached the
    host all the same. *)
Record tempo := Tempo {
  runs : nat → list nat;
  reaches : nat → bool;
}.

(** The world a run starts in: the host has nothing to run yet. *)
Definition boot (faults : list (option exn)) (host : Remote.node) : world :=
  World faults NotConnected host [] [] [] [] None.

Definition logger_info (msg : string) : M world unit := modify (add_log INFO msg).
Definition logger_error (msg : string) : M world unit := modify (add_log ERROR msg).

(** The transport's verdict on the next call. *)
Definition next_fault : M world (option exn) :=
  λ w, match env w with
       | [] => (Ok None, w)
       | f :: rest => (Ok f, set_env rest w)
       end.

(** A call that either raises what the transport says or does [effect]. *)
Definition external (c : call) (effect : M world outcome) : M world unit :=
  f <- next_fault ;;
  match f with
  | Some e => modify (add_trace c (Raised e)) ;; raise e
  | None =>
      try_except (o <- effect ;; modify (add_trace c o))
        (λ e, modify (add_trace c (Raised e)) ;; raise e)
  end.

(** *** Vocabulary for the statements about this script *)

(** The transport lets the next [n] calls through. *)
Definition calm (n : nat) (w : world) : Prop :=
  Forall (λ f, f = None) (take n (env w)).

(** The world after the transport refused a call with [e]. *)
Definition refused (c : call) (e : exn) (w : world) : world :=
  add_trace c (Raised e) (set_env (tail (env w)) w).

(** The worlds in which the swap and the rollback make their first
    call. *)
Definition swap_started (w : world) : world :=
  add_log INFO "Switching to the new version..." w.

Definition rollback_started (e : exn) (w : world) : world :=
  add_log INFO "Attempting rollback..."
    (add_log ERROR ("Failed to switch to the new version: " +:+ exn_str e) w).

(** The world in which [main] goes on once [ssh.connect] has returned. *)
Definition connected (w : world) : world :=
  set_ssh_var (Some Client)
    (add_log INFO "Connected to the server successfully."
       (add_trace Connect Returned
          (set_session Open
             (set_env (tail (env w))
                (add_log INFO "Connecting to the server..."
                   (add_log INFO "🚀 Starting auto-deployment script..."
                      (set_ssh_var None w))))))).

(** Related worlds have the same session state and the same binding of the
    local name [ssh], and the later trace extends the earlier one by calls
    other than [ssh.close]. *)
Definition keeps (w w' : world) : Prop :=
  session_state w' = session_state w ∧ ssh_var w' = ssh_var w ∧
  ∃ evs, trace w' = trace w ++ evs ∧ Forall (λ ev, ev.1 ≠ SshClose) evs.

(** The transport lets every call still to come through. *)
Definition quiet (w : world) : Prop := Forall (λ f, f = None) (env w).

(** The later trace extends the earlier one by calls that satisfy [P]. *)
Definition adds (P : call → Prop) (w w' : world) : Prop :=
  ∃ evs, trace w' = trace w ++ evs ∧ Forall (λ ev, P ev.1) evs.

(** The calls the transfer stage makes before it closes the SFTP
    channel, and the calls of the restart stage. *)
Definition transfer_call (c : call) : Prop :=
  match c with
  | OpenSftp | SftpPut _ _ => True
  | ExecCommand cmd => Py.startswith cmd "mkdir -p " = true
  | _ => False
  end.

Definition restart_call (c : call) : Prop :=
  c ∈ ExecCommand <$>
      ["sudo systemctl restart nginx"; "sudo systemctl restart gunicorn"].

(** The two worlds have the same regular files, with the same content,
    at every path that does not go through [p]. *)
Definition same_files_outside (p : list string) (w w' : world) : Prop :=
  ∀ q d, ¬ p `prefix_of` q →
    Remote.fs_lookup q (remote w') = Some (Remote.File d) ↔
    Remote.fs_lookup q (remote w) = Some (Remote.File d).

Section Script.

(** [os.getenv("DEPLOY_PATH")] as the f-strings render it: the text
    [None] when the variable is not set. *)
Variable DEPLOY_PATH : string.
(** The directory relative names start from on the host. *)
Variable home : list string.
(** The pace of the host; a call is numbered by the calls traced
    before it. *)
Variable pace : tempo.
(** What the host's shell does with a command line the model does not
    speak for. *)
Variable beyond : string → Remote.node → Z * Remote.node.
(** [os.getcwd()] and the tree of that directory on the local machine. *)
Variable cwd : string.
Variable local_fs : Local.node.

Definition LOCAL_BUILD_PATH : string := "build".

(** The host runs the pending command at place [k], if there is one. *)
Definition run_pending (k : nat) (w : world) : world :=
  match pending w !! k with
  | None => w
  | Some cmd =>
      let r := Remote.sh_run beyond home cmd (remote w) in
      World (env w) (session_state w) r.2 (delete k (pending w))
        (finished w ++ [(cmd, r.1)]) (trace w) (log w) (ssh_var w)
  end.

(** What the host does while a call is under way. *)
Definition host_runs (w : world) : world :=
  fold_left (λ w k, run_pending k w) (runs pace (length (trace w))) w.

(** [ssh.connect(SERVER_IP, username=..., password=...)] *)
Definition ssh_connect : M world unit :=
  external Connect (modify (set_session Open) ;; ret Returned).

(** The command is handed to the host, which goes on with its work. *)
Definition hand_over (cmd : string) : M world unit :=
  modify (add_pending cmd) ;; modify host_runs.

(** [ssh.exec_command(cmd)]: the command is handed to the host and the
    call returns; the channel objects returned are dropped by every
    caller.  When the call raises, the command may have been handed
    over before. *)
Definition exec_command (ssh : SSHClient) (cmd : string) : M world unit :=
  f <- next_fault ;;
  match f with
  | Some e =>
      w <- get ;;
      (if reaches pace (length (trace w)) then hand_over cmd else ret tt) ;;
      modify (add_trace (ExecCommand cmd) (Raised e)) ;;
      raise e
  | None =>
      hand_over cmd ;;
      modify (add_trace (ExecCommand cmd) Returned)
  end.

(** The world after a command was handed to the host. *)
Definition dispatched (cmd : string) (w : world) : world :=
  add_trace (ExecCommand cmd) Returned
    (host_runs (add_pending cmd (set_env (tail (env w)) w))).

(** The world after the call that was to hand over a command raised
    [e]. *)
Definition failed (cmd : string) (e : exn) (w : world) : world :=
  let w0 := set_env (tail (env w)) w in
  add_trace (ExecCommand cmd) (Raised e)
    (if reaches pace (length (trace w)) then host_runs (add_pending cmd w0)
     else w0).

(** The host has nothing left to run and, from here on, runs every
    command during the call that hands it over. *)
Definition prompt (w : world) : Prop :=
  pending w = [] ∧ ∀ n, length (trace w) ≤ n → runs pace n = [0].

(** From here on, the command of a call that raises has not reached
    the host. *)
Definition all_or_nothing (w : world) : Prop :=
  ∀ n, length (trace w) ≤ n → reaches pace n = false.

(** A command line that, whenever the host runs it, creates, changes
    and removes no regular file. *)
Definition keeps_files (cmd : string) : Prop :=
  ∀ t q d,
    Remote.fs_lookup q (Remote.sh_run beyond home cmd t).2 = Some (Remote.File d) ↔
    Remote.fs_lookup q t = Some (Remote.File d).

(** The host got from the tree [t] to the tree [t'] by running the
    commands [news] one after the other, each ending with the exit status
    noted beside it. *)
Fixpoint replayed (t : Remote.node) (news : list (string * Z))
    (t' : Remote.node) : Prop :=
  match news with
  | [] => t' = t
  | (cmd, st) :: rest =>
      let r := Remote.sh_run beyond home cmd t in
      st = r.1 ∧ replayed r.2 rest t'
  end.

(** Between the two worlds the host's tree changed by nothing but the
    host running commands, and [finished] has noted them. *)
Definition ran (w w' : world) : Prop :=
  ∃ news, finished w' = finished w ++ news ∧
          replayed (remote w) news (remote w').

(** [ssh.open_sftp()] *)
Definition open_sftp (ssh : SSHClient) : M world SFTPClient :=
  external OpenSftp (ret Returned) ;; ret Sftp.

(** What [sftp.put] raises when the host refuses to create the file at
    [p]: the SFTP server answers [No such file] when a directory on the
    way is missing or is a regular file, which paramiko turns into
    [IOError(errno.ENOENT, ...)], and [Failure] when [p] is a
    directory. *)
Definition put_refused (p : list string) (t : Remote.node) : exn :=
  match Remote.fs_lookup p t with
  | Some (Remote.Dir _) => Exn "OSError" "Failure"
  | _ => Exn "FileNotFoundError" "[Errno 2] No such file"
  end.

(** [sftp.put(localpath, remotepath)] *)
Definition sftp_put (sftp : SFTPClient) (localpath remotepath : string)
  : M world unit :=
  external (SftpPut localpath remotepath)
    (match Local.read_file localpath local_fs with
     | None => raise (Exn "FileNotFoundError" localpath)
     | Some data =>
         modify host_runs ;;
         w <- get ;;
         let p := Remote.resolve home remotepath in
         match Remote.fs_write p data (remote w) with
         | None => raise (put_refused p (remote w))
         | Some t => modify (set_remote t) ;; ret Returned
         end
     end).

(** [sftp.close()] and [ssh.close()] do not raise. *)
Definition sftp_close (sftp : SFTPClient) : M world unit :=
  modify (add_trace SftpClose Returned).

Definition ssh_close (ssh : SSHClient) : M world unit :=
  modify (set_session Closed) ;; modify (add_trace SshClose Returned).

Definition connect_to_server : M world SSHClient :=
  try_except
    (logger_info "Connecting to the server..." ;;
     ssh_connect ;;
     logger_info "Connected to the server successfully." ;;
     ret Client)
    (λ e,
       logger_error ("Failed to connect to the server: " +:+ exn_str e) ;;
       raise e).

Definition temp_dir : string := DEPLOY_PATH +:+ "_temp".
Definition backup_dir : string := DEPLOY_PATH +:+ "_backup".

(** [os.walk(LOCAL_BUILD_PATH)] on the local tree *)
Definition walk_build : list (string * list string * list string) :=
  match Local.at_path LOCAL_BUILD_PATH local_fs with
  | Some t => Local.os_walk LOCAL_BUILD_PATH t
  | None => []
  end.

(** The body of the inner loop of [transfer_files], for one file. *)
Definition transfer_one (ssh : SSHClient) (sftp : SFTPClient)
    (root file : string) : M world unit :=
  let local_path := Py.path_join root file in
  match Py.relpath cwd local_path LOCAL_BUILD_PATH with
  | None => raise (Exn "ValueError" "no path specified")
  | Some rel =>
      let remote_path := Py.path_join temp_dir rel in
      let remote_dir := Py.dirname remote_path in
      exec_command ssh ("mkdir -p " +:+ remote_dir) ;;
      sftp_put sftp local_path remote_path ;;
      logger_info ("Transferred " +:+ local_path +:+ " to " +:+ remote_path)
  end.

Definition transfer_files (ssh : SSHClient) : M world unit :=
  try_except
    (logger_info "Transferring files to the server..." ;;
     sftp <- open_sftp ssh ;;
     exec_command ssh ("mkdir -p " +:+ temp_dir) ;;
     for_each walk_build (λ '(root, dirs, files),
       for_each files (transfer_one ssh sftp root)) ;;
     sftp_close sftp ;;
     logger_info "File transfer completed.")
    (λ e,
       logger_error ("Failed to transfer files: " +:+ exn_str e) ;;
       raise e).

(** What the walk of the build directory lists, and whether that tree
    is well formed. *)
Definition build_files : list (list string * string * list byte) :=
  match Local.at_path LOCAL_BUILD_PATH local_fs with
  | Some t => Local.files_of t
  | None => []
  end.

Definition build_well_formed : Prop :=
  match Local.at_path LOCAL_BUILD_PATH local_fs with
  | Some t => Local.well_formed t
  | None => True
  end.

(** The local path name of a listed file and the remote path name it is
    copied to. *)
Definition local_path_of (x : list string * string * list byte) : string :=
  String.concat "/" (LOCAL_BUILD_PATH :: Local.rel_path x).

Definition remote_path_of (x : list string * string * list byte) : string :=
  temp_dir +:+ "/" +:+ String.concat "/" (Local.rel_path x).

(** The loop body for a listed file. *)
Definition put_file (ssh : SSHClient) (sftp : SFTPClient)
    (x : list string * string * list byte) : M world unit :=
  exec_command ssh ("mkdir -p " +:+ Py.dirname (remote_path_of x)) ;;
  sftp_put sftp (local_path_of x) (remote_path_of x) ;;
  logger_info ("Transferred " +:+ local_path_of x +:+ " to " +:+ remote_path_of x).

(** The two calls made for one file, as a successful transfer traces
    them. *)
Definition file_events (x : list string * string * list byte)
  : list (call * outcome) :=
  [(ExecCommand ("mkdir -p " +:+ Py.dirname (remote_path_of x)), Returned);
   (SftpPut (local_path_of x) (remote_path_of x), Returned)].

(** The three commands of the swap, and the one of the rollback. *)
Definition backup_cmd : string := "mv " +:+ DEPLOY_PATH +:+ " " +:+ backup_dir.
Definition promote_cmd : string := "mv " +:+ temp_dir +:+ " " +:+ DEPLOY_PATH.
Definition cleanup_cmd : string := "rm -rf " +:+ backup_dir.
Definition rollback_cmd : string := "mv " +:+ backup_dir +:+ " " +:+ DEPLOY_PATH.

(** The [try] block of [switch_to_new_version].  The two assignments to
    [temp_dir] and [backup_dir] that open it cannot raise, so the
    handler always finds [backup_dir] bound. *)
Definition switch_body (ssh : SSHClient) : M world unit :=
  logger_info "Switching to the new version..." ;;
  exec_command ssh backup_cmd ;;
  exec_command ssh promote_cmd ;;
  exec_command ssh cleanup_cmd ;;
  logger_info "Switched to the new version successfully.".

Definition switch_handler (ssh : SSHClient) (e : exn) : M world unit :=
  logger_error ("Failed to switch to the new version: " +:+ exn_str e) ;;
  logger_info "Attempting rollback..." ;;
  exec_command ssh rollback_cmd ;;
  logger_info "Rollback completed." ;;
  raise e.

Definition switch_to_new_version (ssh : SSHClient) : M world unit :=
  try_except (switch_body ssh) (switch_handler ssh).

Definition restart_server_services (ssh : SSHClient) : M world unit :=
  try_except
    (logger_info "Restarting server services..." ;;
     exec_command ssh "sudo systemctl restart nginx" ;;
     exec_command ssh "sudo systemctl restart gunicorn" ;;
     logger_info "Server services restarted successfully.")
    (λ e,
       logger_error ("Failed to restart server services: " +:+ exn_str e) ;;
       raise e).

(** The [try] block of [main], after [ssh] was assigned. *)
Definition stages (ssh : SSHClient) : M world unit :=
  transfer_files ssh ;;
  switch_to_new_version ssh ;;
  restart_server_services ssh ;;
  logger_info "✅ Deployment completed successfully.".

(** The [try] block of [main]. *)
Definition main_body : M world unit :=
  logger_info "🚀 Starting auto-deployment script..." ;;
  ssh <- connect_to_server ;;
  modify (set_ssh_var (Some ssh)) ;;
  stages ssh.

(** The [finally] block of [main]: reading the name [ssh] raises
    [UnboundLocalError] when nothing was assigned to it. *)
Definition main_finally : M world unit :=
  w <- get ;;
  match ssh_var w with
  | None =>
      raise (Exn "UnboundLocalError"
               "cannot access local variable 'ssh' where it is not associated with a value")
  | Some ssh =>
      ssh_close ssh ;;
      logger_info "SSH connection closed."
  end.

(** Calling [main] makes a frame in which [ssh] is not bound yet. *)
Definition main : M world unit :=
  modify (set_ssh_var None) ;;
  try_finally
    (try_except main_body
       (λ e, logger_error ("❌ Deployment failed: " +:+ exn_str e)))
    main_finally.

(** The calls of the swap stage, rollback included. *)
Definition swap_call (c : call) : Prop :=
  c ∈ ExecCommand <$> [backup_cmd; promote_cmd; cleanup_cmd; rollback_cmd].

(** What a tree on the host may hold while the build is copied into it:
    regular files at the paths of listed files, directories on the way to
    listed files. *)
Definition mirrors (S : Remote.node) : Prop :=
  (∀ q d, Remote.fs_lookup q S = Some (Remote.File d) →
          ∃ x, x ∈ build_files ∧ q = Local.rel_path x) ∧
  (∀ q es, Remote.fs_lookup q S = Some (Remote.Dir es) →
           q = [] ∨ ∃ x, x ∈ build_files ∧ q `prefix_of` x.1.1).

End Script.

End Deploy.

(** ** [deployment_pipeline_from_using_python_script.py] *)

Module Pipeline.

(** One [Path] yielded by [Path('.').iterdir()]: its [name] and what
    [is_dir()] answers for it. *)
Record dir_entry := DirEntry { name : string; is_dir : bool }.

(** A [git.Repo] object, known by the directory it was opened on. *)
Inductive Repo := RepoAt (path : string).

(** Calls into the file system, [subprocess] and GitPython. *)
Inductive call :=
  | Iterdir
  | SubprocessRun (command : string) (cwd : option string)
  | RepoOpen (path : string)
  | RepoRemote (repo : Repo) (name : string)
  | GitCheckout (repo : Repo) (branch : string)
  | OriginPull (repo : Repo)
  | OriginPush (repo : Repo)
  | CloneFrom (url to_path : string)
  | GitAddAll (repo : Repo)
  | IndexCommit (repo : Repo) (message : string)
  | PathExists (path : string)
  | PathIsdir (path : string)
  | Rmtree (path : string)
  | OsRemove (path : string)
  | Copytree (src dst : string).

(** What the outside world answers to a call. *)
Inductive reply :=
  | Done
  | Raises (e : exn)
  | Listing (entries : list dir_entry)
  | Answer (b : bool)
  | Completed (returncode : Z) (stdout stderr : string).

Record world := World {
  (** the answers to the calls still to come, in order; calls beyond the
      end of the list are answered [Done] *)
  env : list reply;
  (** every call made, oldest first *)
  trace : list call;
  log : list (level * string);
}.

Definition boot (answers : list reply) : world := World answers [] [].

Definition logger_info (msg : string) : M world unit :=
  λ w, (Ok tt, World (env w) (trace w) (log w ++ [(INFO, msg)])).
Definition logger_error (msg : string) : M world unit :=
  λ w, (Ok tt, World (env w) (trace w) (log w ++ [(ERROR, msg)])).

(** Make a call: it is traced, and it returns the world's answer unless
    that answer is an exception. *)
Definition external (c : call) : M world reply :=
  λ w,
    let '(r, rest) := match env w with [] => (Done, []) | r :: rest => (r, rest) end in
    let w' := World rest (trace w ++ [c]) (log w) in
    match r with
    | Raises e => (Raise e, w')
    | _ => (Ok r, w')
    end.

(** [c.upper()] on ASCII letters *)
Definition upper_char (c : ascii) : ascii :=
  let n := nat_of_ascii c in
  if (97 <=? n)%nat && (n <=? 122)%nat then ascii_of_nat (n - 32) else c.

Definition upper (s : string) : string :=
  string_of_list_ascii (upper_char <$> list_ascii_of_string s).

Definition nl : string := String "010" "".

(** [[d for d in current_dir.iterdir()
      if d.is_dir() and d.name.startswith(repo_name)]] *)
Definition matching_dirs (entries : list dir_entry) (repo_name : string)
  : list dir_entry :=
  filter (λ d, is_dir d && Py.startswith (name d) repo_name = true) entries.

(** [bool(l)] for a list *)
Definition list_truth {A} (l : list A) : bool :=
  match l with [] => false | _ => true end.

(** The world right after call [c] was made. *)
Definition called (c : call) (w : world) : world :=
  World (tail (env w)) (trace w ++ [c]) (log w).

(** What the world answers to the [i]-th call to come. *)
Definition answer_at (answers : list reply) (i : nat) : reply :=
  default Done (answers !! i).

(** The exception a call ends with, given the world's answer: the one
    the answer carries, or the one [run_command] raises on a return code
    other than 0. *)
Definition failure (c : call) (r : reply) : option exn :=
  match r, c with
  | Raises e, _ => Some e
  | Completed returncode _ _, SubprocessRun command _ =>
      if Z.eqb returncode 0 then None
      else Some (Exn "Exception" ("Command failed: " +:+ command))
  | _, _ => None
  end.

(** None of [calls], answered by [answers] in order, fails. *)
Definition clean (answers : list reply) (calls : list call) : Prop :=
  ∀ i c, calls !! i = Some c → failure c (answer_at answers i) = None.

(** A run that made [calls] against [answers] and ended as [res]: no call
    failed when it ended normally; when it raised [e], the last call
    failed with [e] and no call before it failed. *)
Definition stops_at_failure {A} (answers : list reply) (calls : list call)
    (res : result A) : Prop :=
  match res with
  | Ok _ => clean answers calls
  | Raise e =>
      ∃ before c, calls = before ++ [c] ∧ clean answers before ∧
                  failure c (answer_at answers (length before)) = Some e
  end.

(** A computation that consumes one answer per call and stops at the
    first call that fails. *)
Definition orderly {A} (m : M world A) : Prop :=
  ∀ w, ∃ calls,
    trace (m w).2 = trace w ++ calls ∧
    env (m w).2 = drop (length calls) (env w) ∧
    stops_at_failure (env w) calls (m w).1.

Section Script.

(** Environment variables as the f-strings render them, and
    [os.getcwd()]. *)
Variables username app_password release_version : string.
Variable cwd : string.

Definition jupiter_main_repo_url : string :=
  "https://" +:+ username +:+ ":" +:+ app_password +:+
  "@bitbucket.org/sicunet1/jupiter-main-web.git".
Definition backend_repo_url : string :=
  "https://" +:+ username +:+ ":" +:+ app_password +:+
  "@bitbucket.org/sicunet1/jupiter-backend.git".
Definition frontend_repo_url : string :=
  "https://" +:+ username +:+ ":" +:+ app_password +:+
  "@bitbucket.org/sicunet1/jupiter-frontend.git".

Definition log_step (step_name : string) : M world unit :=
  logger_info (nl +:+ "=== " +:+ upper step_name +:+ " [START] ===").

Definition log_completion (step_name : string) : M world unit :=
  logger_info ("=== " +:+ upper step_name +:+ " [COMPLETED] ===" +:+ nl).

Definition run_command (command : string) (dir : option string) : M world unit :=
  logger_info ("[PROCESSING] Running command: " +:+ command) ;;
  result <- external (SubprocessRun command dir) ;;
  let '(returncode, stdout, stderr) :=
    match result with
    | Completed rc out err => (rc, out, err)
    | _ => (0%Z, "", "")
    end in
  if negb (Z.eqb returncode 0) then
    logger_error ("[ERROR] Command failed: " +:+ command +:+ nl +:+ stderr) ;;
    raise (Exn "Exception" ("Command failed: " +:+ command))
  else
    logger_info ("[SUCCESS] Command output:" +:+ nl +:+ stdout).

Definition check_code_already_exists (repo_name : string) : M world bool :=
  r <- external Iterdir ;;
  let entries := match r with Listing l => l | _ => [] end in
  ret (list_truth (matching_dirs entries repo_name)).

(** The branch of a [clone_or_pull_*] function that pulls. *)
Definition pull_branch (dir branch : string) : M world unit :=
  let repo_dir := Py.path_join cwd dir in
  external (RepoOpen repo_dir) ;;
  let repo := RepoAt repo_dir in
  external (RepoRemote repo "origin") ;;
  external (GitCheckout repo branch) ;;
  external (OriginPull repo) ;;
  ret tt.

Definition clone_or_pull_frontend_repo : M world unit :=
  log_step "Cloning or pulling frontend repository" ;;
  exists_ <- check_code_already_exists "frontend" ;;
  (if exists_ : bool then
     logger_info "Frontend repo already exists. Pulling latest changes..." ;;
     pull_branch "frontend" "main"
   else
     logger_info "Cloning frontend repository..." ;;
     external (CloneFrom frontend_repo_url "frontend") ;; ret tt) ;;
  log_completion "Cloning or pulling frontend repository".

Definition build_frontend : M world unit :=
  log_step "Building frontend" ;;
  let frontend_path := Py.path_join cwd "frontend" in
  exists_ <- check_code_already_exists "jupiter" ;;
  (if negb exists_ then run_command "npm i --force" (Some frontend_path)
   else ret tt) ;;
  run_command "npm run build" (Some frontend_path) ;;
  log_completion "Building frontend".

Definition clone_or_pull_backend_repo : M world unit :=
  log_step "Cloning or pulling backend repository" ;;
  exists_ <- check_code_already_exists "backend" ;;
  (if exists_ : bool then
     logger_info "Backend repo already exists. Pulling latest changes..." ;;
     pull_branch "backend" "master"
   else
     logger_info "Cloning backend repository..." ;;
     external (CloneFrom backend_repo_url "backend") ;; ret tt) ;;
  log_completion "Cloning or pulling backend repository".

Definition clone_or_pull_jupiter_main_repo : M world unit :=
  log_step "Cloning or pulling jupiter main repository" ;;
  exists_ <- check_code_already_exists "main_repo" ;;
  (if exists_ : bool then
     logger_info "Jupiter main repo already exists. Pulling latest changes..." ;;
     pull_branch "main_repo" "master"
   else
     logger_info "Cloning jupiter main repository..." ;;
     external (CloneFrom jupiter_main_repo_url "main_repo") ;; ret tt) ;;
  log_completion "Cloning or pulling jupiter main repository".

Definition reply_bool (r : reply) : bool :=
  match r with Answer b => b | _ => false end.

Definition update_static_and_files : M world unit :=
  log_step "Updating static and backend files in main repository" ;;
  let static_path := Py.path_join cwd "jupiter" in
  let backend_path := Py.path_join cwd "backend" in
  let main_repo_path := Py.path_join cwd "main_repo" in
  let main_static_path := Py.path_join main_repo_path "static" in
  let main_apps_path := Py.path_join main_repo_path "apps" in
  let main_jupiter_path := Py.path_join main_repo_path "jupiter" in
  let main_templates_path := Py.path_join main_repo_path "templates" in
  for_each [main_static_path; main_apps_path; main_jupiter_path; main_templates_path]
    (λ path,
       there <- external (PathExists path) ;;
       if reply_bool there then
         logger_info ("Removing old files from " +:+ path) ;;
         isdir <- external (PathIsdir path) ;;
         (if reply_bool isdir then external (Rmtree path)
          else external (OsRemove path)) ;;
         ret tt
       else ret tt) ;;
  external (Copytree (Py.path_join static_path "static") main_static_path) ;;
  external (Copytree (Py.path_join backend_path "apps") main_apps_path) ;;
  external (Copytree (Py.path_join backend_path "jupiter") main_jupiter_path) ;;
  external (Copytree (Py.path_join backend_path "templates") main_templates_path) ;;
  log_completion "Updating static and backend files in main repository".

Definition commit_and_push_changes : M world unit :=
  log_step "Committing and pushing changes" ;;
  let repo_dir := Py.path_join cwd "main_repo" in
  external (RepoOpen repo_dir) ;;
  let repo := RepoAt repo_dir in
  external (RepoRemote repo "origin") ;;
  external (OriginPull repo) ;;
  external (GitAddAll repo) ;;
  external (IndexCommit repo ("Release version " +:+ release_version)) ;;
  external (OriginPush repo) ;;
  log_completion "Committing and pushing changes".

(** The [try] block of [main]. *)
Definition main_body : M world unit :=
  logger_info (nl +:+ "🚀 Starting auto deployment script...") ;;
  clone_or_pull_frontend_repo ;;
  build_frontend ;;
  clone_or_pull_backend_repo ;;
  clone_or_pull_jupiter_main_repo ;;
  update_static_and_files ;;
  commit_and_push_changes ;;
  logger_info "✅ All tasks completed successfully.".

Definition main : M world unit :=
  try_except main_body
    (λ e, logger_error ("❌ An error occurred: " +:+ exn_str e) ;; raise e).

End Script.

End Pipeline.

(** ** Worlds used as examples *)

Module Scenario.
Import Deploy.

Definition index_html : list byte := list_byte_of_string "<html></html>".
Definition old_page : list byte := list_byte_of_string "<html>old</html>".

(** An empty live directory [/srv/app] next to a staging directory that
    holds exactly [index.html]. *)
Definition host_staged : Remote.node :=
  Remote.Dir {[ "srv" := Remote.Dir
    {[ "app" := Remote.Dir ∅;
       "app_temp" := Remote.Dir {[ "index.html" := Remote.File index_html ]} ]} ]}.

(** A live directory with a page in it, and staging. *)
Definition host_live : Remote.node :=
  Remote.Dir {[ "srv" := Remote.Dir
    {[ "app" := Remote.Dir {[ "index.html" := Remote.File old_page ]};
       "app_temp" := Remote.Dir {[ "index.html" := Remote.File index_html ]} ]} ]}.

(** A first deployment: staging only, neither live nor backup. *)
Definition host_first : Remote.node :=
  Remote.Dir {[ "srv" := Remote.Dir
    {[ "app_temp" := Remote.Dir {[ "index.html" := Remote.File index_html ]} ]} ]}.

(** A host with a live directory and no staging directory yet. *)
Definition host_plain : Remote.node :=
  Remote.Dir {[ "srv" := Remote.Dir
    {[ "app" := Remote.Dir {[ "index.html" := Remote.File old_page ]} ]} ]}.

Definition app_js : list byte := list_byte_of_string "console.log(1)".
Definition site_css : list byte := list_byte_of_string "body{}".
Definition robots : list byte := list_byte_of_string "User-agent: *".

(** The current directory of the local machine: a [build] tree with
    nested directories and four files, next to a file that is not part of
    the build. *)
Definition local_site : Local.node :=
  Local.Dir
    [("README.md", Local.File []);
     ("build",
      Local.Dir
        [("index.html", Local.File index_html);
         ("static",
          Local.Dir
            [("js", Local.Dir [("app.js", Local.File app_js)]);
             ("site.css", Local.File site_css)]);
         ("robots.txt", Local.File robots)])].

(** A build tree with a blank in a directory name. *)
Definition local_blank : Local.node :=
  Local.Dir
    [("build",
      Local.Dir
        [("index.html", Local.File index_html);
         ("my dir", Local.Dir [("a.txt", Local.File robots)])])].

(** A connected world with the given transport script and host; the
    host has nothing to run yet. *)
Definition online (faults : list (option exn)) (host : Remote.node) : world :=
  World faults Open host [] [] [] [] (Some Client).

(** A host that runs every command during the call that hands it over,
    one that runs nothing while the script is running, and one that waits
    until the third call and then runs the second command of its queue
    before the first; for all three, the command of a call that raises is
    lost.  On the last host such a command has reached the host, which
    runs it like any other. *)
Definition at_once : tempo := Tempo (λ _, [0]) (λ _, false).
Definition idle : tempo := Tempo (λ _, []) (λ _, false).
Definition second_first : tempo :=
  Tempo (λ n, match n with 2 => [1; 0; 0] | _ => [] end) (λ _, false).
Definition all_through : tempo := Tempo (λ _, [0]) (λ _, true).

(** A shell that knows no other command. *)
Definition no_other : string → Remote.node → Z * Remote.node :=
  λ _ t, (127%Z, t).

Definition channel_closed : exn := Exn "SSHException" "Channel closed.".
Definition not_active : exn := Exn "SSHException" "SSH session not active".

Definition stale_page : list byte := list_byte_of_string "<html>stale</html>".

(** A live directory next to a backup directory left by an earlier
    run. *)
Definition host_stale : Remote.node :=
  Remote.Dir {[ "srv" := Remote.Dir
    {[ "app" := Remote.Dir {[ "index.html" := Remote.File old_page ]};
       "app_backup" := Remote.Dir {[ "old.html" := Remote.File stale_page ]} ]} ]}.

(** Live and staging next to a backup directory in which an earlier
    run has left what was live then. *)
Definition host_blocked : Remote.node :=
  Remote.Dir {[ "srv" := Remote.Dir
    {[ "app" := Remote.Dir {[ "index.html" := Remote.File old_page ]};
       "app_temp" := Remote.Dir {[ "index.html" := Remote.File index_html ]};
       "app_backup" := Remote.Dir
         {[ "app" := Remote.Dir {[ "old.html" := Remote.File stale_page ]} ]} ]} ]}.

(** A live directory next to a staging directory in which an earlier
    run has left a file. *)
Definition host_leftover : Remote.node :=
  Remote.Dir {[ "srv" := Remote.Dir
    {[ "app" := Remote.Dir {[ "index.html" := Remote.File old_page ]};
       "app_temp" := Remote.Dir {[ "old.html" := Remote.File stale_page ]} ]} ]}.

(** A build tree with a directory whose name the shell takes for a
    list of three commands, and a host whose staging directory holds a
    directory of that very name. *)
Definition local_list : Local.node :=
  Local.Dir
    [("build",
      Local.Dir
        [("f1", Local.File robots);
         ("b;cd app_temp;rm f1", Local.Dir [("g", Local.File app_js)])])].

Definition host_list : Remote.node :=
  Remote.Dir {[ "srv" := Remote.Dir
    {[ "app" := Remote.Dir {[ "index.html" := Remote.File old_page ]};
       "app_temp" := Remote.Dir {[ "b;cd app_temp;rm f1" := Remote.Dir ∅ ]} ]} ]}.

(** What a shell does with a list of commands separated by [;]: it
    runs them one after the other, [cd] changing the directory the next
    ones start from and [rm] removing a regular file; the exit status is
    that of the last command. *)
Fixpoint sh_list (dir : list string) (cmds : list string) (st : Z)
    (t : Remote.node) : Z * Remote.node :=
  match cmds with
  | [] => (st, t)
  | c :: rest =>
      match Remote.sh_words c with
      | ["cd"; d] =>
          match Remote.fs_lookup (Remote.resolve dir d) t with
          | Some (Remote.Dir _) => sh_list (Remote.resolve dir d) rest 0 t
          | _ => sh_list dir rest 1 t
          end
      | ["rm"; f] =>
          match Remote.fs_lookup (Remote.resolve dir f) t with
          | Some (Remote.File _) =>
              match Remote.fs_set (Remote.resolve dir f) None t with
              | Some t' => sh_list dir rest 0 t'
              | None => sh_list dir rest 1 t
              end
          | _ => sh_list dir rest 1 t
          end
      | _ => let r := Remote.sh_exec dir c t in sh_list dir rest r.1 r.2
      end
  end.

Definition with_lists (home : list string)
  : string → Remote.node → Z * Remote.node :=
  λ cmd t, sh_list home (Py.split_by (λ c, Ascii.eqb c ";") cmd) 0 t.

(** A current directory without a [build] directory. *)
Definition local_unbuilt : Local.node :=
  Local.Dir
    [("README.md", Local.File []);
     ("src", Local.Dir [("main.js", Local.File app_js)])].

End Scenario.

(** * Properties *)

(** ** Running stages *)

Section Frames.
Context {W : Type} (R : relation W) `{!PreOrder R}.

Lemma framed_ret {A} (a : A) : framed R (ret a).
Proof. intros w. reflexivity. Qed.

Lemma framed_raise {A} (e : exn) : framed R (@raise W A e).
Proof. intros w. reflexivity. Qed.

Lemma framed_get : framed R (@get W).
Proof. intros w. reflexivity. Qed.

Lemma framed_modify (f : W → W) : (∀ w, R w (f w)) → framed R (modify f).
Proof. intros Hf w. apply Hf. Qed.

Lemma framed_bind {A B} (m : M W A) (k : A → M W B) :
  framed R m → (∀ a, framed R (k a)) → framed R (bind m k).
Proof.
  intros Hm Hk w. unfold bind. specialize (Hm w).
  destruct (m w) as [[a|e] w1]; simpl in *; [|done].
  etransitivity; [exact Hm | apply Hk].
Qed.

Lemma framed_try_except {A} (m : M W A) (h : exn → M W A) :
  framed R m → (∀ e, framed R (h e)) → framed R (try_except m h).
Proof.
  intros Hm Hh w. unfold try_except. specialize (Hm w).
  destruct (m w) as [[a|e] w1]; simpl in *; [done|].
  etransitivity; [exact Hm | apply Hh].
Qed.

Lemma framed_try_finally {A} (m : M W A) (c : M W unit) :
  framed R m → framed R c → framed R (try_finally m c).
Proof.
  intros Hm Hc w. unfold try_finally. specialize (Hm w).
  destruct (m w) as [r w1]. specialize (Hc w1).
  destruct (c w1) as [[[]|e] w2]; simpl in *; etransitivity; eauto.
Qed.

Lemma framed_for_each {A} (l : list A) (body : A → M W unit) :
  (∀ x, framed R (body x)) → framed R (for_each l body).
Proof.
  intros Hb. induction l as [|x l IH]; simpl.
  - apply framed_ret.
  - apply framed_bind; [apply Hb | intros _; exact IH].
Qed.

End Frames.

(** A [try]/[except] whose handler re-raises never turns an exception
    into a normal return. *)
Lemma try_except_ok_inv {W A} (m : M W A) (h : exn → M W A) w a w' :
  (∀ e w1, ∃ e' w2, h e w1 = (Raise e', w2)) →
  try_except m h w = (Ok a, w') → m w = (Ok a, w').
Proof.
  intros Hh. unfold try_except. destruct (m w) as [[b|e] w1]; [done|].
  destruct (Hh e w1) as (e' & w2 & ->). done.
Qed.

Lemma bind_run {W A B} (m : M W A) (k : A → M W B) w :
  bind m k w =
  match m w with
  | (Ok a, w') => k a w'
  | (Raise e, w') => (Raise e, w')
  end.
Proof. reflexivity. Qed.

Lemma bind_raise_inv {W A B} (m : M W A) (k : A → M W B) w e w' :
  bind m k w = (Raise e, w') →
  m w = (Raise e, w') ∨ ∃ a w1, m w = (Ok a, w1) ∧ k a w1 = (Raise e, w').
Proof.
  unfold bind. destruct (m w) as [[a|e1] w1]; intros H; [right; eauto|].
  injection H as -> ->. by left.
Qed.

Lemma try_except_raise_inv {W A} (m : M W A) (h : exn → M W A) w e w' :
  try_except m h w = (Raise e, w') →
  ∃ e1 w1, m w = (Raise e1, w1) ∧ h e1 w1 = (Raise e, w').
Proof. unfold try_except. destruct (m w) as [[a|e1] w1]; [done|eauto]. Qed.

(** A loop is framed as soon as its body is framed on the elements of the
    list. *)
Lemma framed_for_each_in {W A} (R : relation W) `{!PreOrder R}
    (l : list A) (body : A → M W unit) :
  (∀ x, x ∈ l → framed R (body x)) → framed R (for_each l body).
Proof.
  intros Hb. induction l as [|x l IH]; simpl; [apply framed_ret, _|].
  apply framed_bind; [apply _|apply Hb; by left|intros _].
  apply IH. intros y Hy. apply Hb. by right.
Qed.

(** ** Strings and path names *)

Module PyFacts.
Import Py.

Lemma free_of_empty sep : free_of sep "".
Proof. constructor. Qed.

Lemma free_of_cons sep c s :
  free_of sep (String c s) ↔ sep c = false ∧ free_of sep s.
Proof. unfold free_of. simpl. by rewrite Forall_cons. Qed.

Lemma append_cons c a b : String c a +:+ b = String c (a +:+ b).
Proof. reflexivity. Qed.

Lemma append_nil_l b : "" +:+ b = b.
Proof. reflexivity. Qed.

Lemma free_of_app sep a b :
  free_of sep (a +:+ b) ↔ free_of sep a ∧ free_of sep b.
Proof.
  induction a as [|c a IH].
  - simpl. split; [intros H; split; [constructor|done] | by intros [_ H]].
  - rewrite append_cons, !free_of_cons, IH. tauto.
Qed.

Lemma split_by_nonempty sep s : split_by sep s ≠ [].
Proof.
  induction s as [|c s IH]; simpl; [done|].
  destruct (sep c); [done|]. by destruct (split_by sep s).
Qed.

Lemma split_by_free sep s : free_of sep s → split_by sep s = [s].
Proof.
  induction s as [|c s IH]; [done|].
  rewrite free_of_cons. intros [Hc Hs]. simpl. by rewrite Hc, IH.
Qed.

(** Splitting around a separator: the pieces of the left part, then the
    pieces of the right part. *)
Lemma split_by_sep sep a c b :
  sep c = true →
  split_by sep (a +:+ String c b) = split_by sep a ++ split_by sep b.
Proof.
  intros Hc. induction a as [|x a IH]; simpl.
  - by rewrite Hc.
  - destruct (sep x); simpl; [by rewrite IH|].
    rewrite IH. pose proof (split_by_nonempty sep a).
    by destruct (split_by sep a).
Qed.

(** Text without separators appended to a string only grows its last
    piece. *)
Lemma split_by_suffix sep s sfx :
  free_of sep sfx →
  ∃ pieces final,
    split_by sep s = pieces ++ [final] ∧
    split_by sep (s +:+ sfx) = pieces ++ [final +:+ sfx].
Proof.
  intros Hf. induction s as [|x s (pieces & final & Hs & Hss)]; simpl.
  - exists [], "". by rewrite split_by_free.
  - rewrite Hs, Hss. destruct (sep x).
    + by exists ("" :: pieces), final.
    + destruct pieces as [|p pieces]; simpl.
      * by exists [], (String x final).
      * by exists (String x p :: pieces), final.
Qed.

Lemma pieces_free sep s : Forall (free_of sep) (split_by sep s).
Proof.
  induction s as [|x s IH]; simpl.
  - repeat constructor.
  - destruct (sep x) eqn:Hx.
    + constructor; [constructor|done].
    + pose proof (split_by_nonempty sep s).
      destruct (split_by sep s) as [|p ps]; [done|].
      apply Forall_cons in IH as [Hp Hps].
      constructor; [|done]. by apply free_of_cons.
Qed.

Lemma norm_stack_app abs st a b :
  norm_stack abs st (a ++ b) = norm_stack abs (norm_stack abs st a) b.
Proof.
  revert st. induction a as [|c a IH]; intros st; simpl; [done|].
  destruct (String.eqb c "" || String.eqb c "."); [apply IH|].
  destruct (String.eqb c ".."); [|apply IH].
  destruct st as [|top st]; [apply IH|].
  destruct (String.eqb top ".."); apply IH.
Qed.

Lemma norm_stack_plain abs st cs :
  Forall plain cs → norm_stack abs st cs = rev cs ++ st.
Proof.
  revert st. induction cs as [|c cs IH]; intros st Hcs; [done|].
  apply Forall_cons in Hcs as [(H1 & H2 & H3) Hcs]. simpl.
  apply String.eqb_neq in H1, H2, H3. rewrite H1, H2, H3. simpl.
  rewrite IH by done. by rewrite <- app_assoc.
Qed.

Lemma append_nil_r s : s +:+ "" = s.
Proof. induction s; rewrite ?append_cons; [done|congruence]. Qed.

Lemma append_assoc a b c : (a +:+ b) +:+ c = a +:+ b +:+ c.
Proof. induction a; rewrite ?append_cons; [done|congruence]. Qed.

Lemma append_length a b : String.length (a +:+ b) = String.length a + String.length b.
Proof. induction a; rewrite ?append_cons; simpl; [done|congruence]. Qed.

Lemma append_inv_head a b c : a +:+ b = a +:+ c → b = c.
Proof. induction a; rewrite ?append_cons; [done|]. intros [= H]. auto. Qed.

Lemma startswith_char c s d :
  startswith (String c s) (String d "") = Ascii.eqb c d.
Proof.
  unfold startswith.
  change (String.prefix (String d "") (String c s))
    with (if ascii_dec d c then String.prefix "" s else false).
  destruct (ascii_dec d c) as [<-|Hc].
  - rewrite Ascii.eqb_refl. by destruct s.
  - symmetry. apply Ascii.eqb_neq. congruence.
Qed.

Lemma startswith_slash_cons c s : startswith (String c s) "/" = is_slash c.
Proof. apply startswith_char. Qed.

Lemma startswith_app_slash s sfx :
  s ≠ "" → startswith (s +:+ sfx) "/" = startswith s "/".
Proof.
  destruct s as [|c s]; [done|]. intros _. by rewrite append_cons, !startswith_slash_cons.
Qed.

(** *** Joining and splitting path names *)

Lemma endswith_char_app a b c :
  b ≠ "" → endswith_char (a +:+ b) c = endswith_char b c.
Proof.
  intros Hb. induction a as [|x a IH]; [done|].
  rewrite append_cons. simpl. rewrite IH.
  destruct (a +:+ b) eqn:Hab; [|done].
  destruct a; [|done]. by destruct b.
Qed.

Lemma endswith_char_free sep s c :
  free_of sep s → sep c = true → endswith_char s c = false.
Proof.
  intros Hs Hc. induction s as [|x s IH]; [done|].
  apply free_of_cons in Hs as [Hx Hs]. simpl. rewrite IH by done.
  destruct s; [|done]. apply Ascii.eqb_neq. congruence.
Qed.

Lemma concat_snoc sep l b :
  l ≠ [] → String.concat sep (l ++ [b]) = String.concat sep l +:+ sep +:+ b.
Proof.
  induction l as [|x l IH]; [done|]. intros _.
  destruct l as [|y l].
  - done.
  - change (String.concat sep ((x :: y :: l) ++ [b]))
      with (x +:+ sep +:+ String.concat sep ((y :: l) ++ [b])).
    rewrite IH by done.
    change (String.concat sep (x :: y :: l))
      with (x +:+ sep +:+ String.concat sep (y :: l)).
    by rewrite !append_assoc.
Qed.

Lemma concat_nonempty l :
  l ≠ [] → Forall name_like l → String.concat "/" l ≠ "".
Proof.
  destruct l as [|x l]; [done|]. intros _ [[Hx _] _]%Forall_cons.
  destruct x as [|c x]; [done|]. by destruct l.
Qed.

Lemma concat_no_trailing_slash l :
  l ≠ [] → Forall name_like l → endswith_char (String.concat "/" l) "/" = false.
Proof.
  induction l as [|x l _] using rev_ind; [done|]. intros _ Hl.
  apply Forall_app in Hl as [_ [[Hx Hfx] _]%Forall_cons].
  destruct l as [|y l].
  - simpl. by apply (endswith_char_free is_slash).
  - rewrite concat_snoc by done.
    change ("/" +:+ x) with (String "/" x).
    rewrite endswith_char_app by done. simpl.
    destruct x; [done|]. by apply (endswith_char_free is_slash).
Qed.

Lemma name_like_no_slash_start n : name_like n → startswith n "/" = false.
Proof.
  intros [Hn Hf]. destruct n as [|c n]; [done|].
  apply free_of_cons in Hf as [Hc _]. by rewrite startswith_slash_cons.
Qed.

Lemma path_join_relative a b :
  a ≠ "" → endswith_char a "/" = false → startswith b "/" = false →
  path_join a b = a +:+ "/" +:+ b.
Proof.
  intros Ha Hs Hb. unfold path_join. rewrite Hb, Hs.
  apply String.eqb_neq in Ha. by rewrite Ha.
Qed.

Lemma path_join_concat l b :
  l ≠ [] → Forall name_like l → name_like b →
  path_join (String.concat "/" l) b = String.concat "/" (l ++ [b]).
Proof.
  intros Hl Hn Hb. rewrite concat_snoc by done.
  apply path_join_relative;
    [by apply concat_nonempty|by apply concat_no_trailing_slash|
     by apply name_like_no_slash_start].
Qed.

Lemma path_join_all_concat l :
  Forall name_like l → path_join_all l = String.concat "/" l.
Proof.
  induction l as [|b l IH] using rev_ind; [done|]. intros Hl.
  apply Forall_app in Hl as [Hl [Hb _]%Forall_cons].
  destruct l as [|x l]; [done|].
  rewrite <- path_join_concat by done. rewrite <- IH by done.
  simpl. by rewrite fold_left_app.
Qed.

Lemma split_concat l :
  l ≠ [] → Forall (free_of is_slash) l →
  split_by is_slash (String.concat "/" l) = l.
Proof.
  induction l as [|x l IH]; [done|]. intros _ [Hx Hl]%Forall_cons.
  destruct l as [|y l].
  - simpl. by apply split_by_free.
  - change (String.concat "/" (x :: y :: l))
      with (x +:+ String "/" (String.concat "/" (y :: l))).
    rewrite split_by_sep by done. rewrite IH by done.
    by rewrite split_by_free.
Qed.

Lemma common_len_app a b : common_len a (a ++ b) = length a.
Proof.
  induction a as [|x a IH]; simpl; [by destruct b|].
  by rewrite String.eqb_refl, IH.
Qed.

Lemma entry_name_like n : Local.entry_name n → name_like n.
Proof. intros [[Hn _] Hf]. by split. Qed.

Lemma entry_names_like l : Forall Local.entry_name l → Forall name_like l.
Proof. intros H. eapply Forall_impl; [exact H|apply entry_name_like]. Qed.

Lemma entry_names_plain l : Forall Local.entry_name l → Forall plain l.
Proof. intros H. eapply Forall_impl; [exact H|]. by intros n [Hn _]. Qed.

Lemma entry_names_free l : Forall Local.entry_name l → Forall (free_of is_slash) l.
Proof. intros H. eapply Forall_impl; [exact H|]. by intros n [_ Hn]. Qed.

Lemma endswith_char_inv s c :
  endswith_char s c = true → ∃ s', s = s' +:+ String c "".
Proof.
  induction s as [|x s IH]; [done|]. simpl. destruct s as [|y s].
  - intros ->%Ascii.eqb_eq. by exists "".
  - intros (s' & ->)%IH. by exists (String x s').
Qed.

(** A relative path made of plain components is appended to the
    components of the current directory by [abspath]. *)
Lemma abs_components_plain cwd :
  ∃ base, ∀ l,
    l ≠ [] → Forall Local.entry_name l →
    abs_components cwd (String.concat "/" l) = base ++ l.
Proof.
  assert (∀ l, l ≠ [] → Forall Local.entry_name l →
               startswith (String.concat "/" l) "/" = false) as Hrel.
  { intros [|x l] Hl Hxl; [done|]. apply Forall_cons in Hxl as [Hx _].
    apply entry_name_like in Hx as Hx'. destruct Hx' as [Hne Hf].
    destruct x as [|c x]; [done|]. apply free_of_cons in Hf as [Hc _].
    destruct l as [|y l].
    - change (String.concat "/" [String c x]) with (String c x).
      by rewrite startswith_slash_cons.
    - change (String.concat "/" (String c x :: y :: l))
        with (String c x +:+ "/" +:+ String.concat "/" (y :: l)).
      by rewrite append_cons, startswith_slash_cons. }
  assert (∀ front flag l, l ≠ [] → Forall Local.entry_name l →
    rev (norm_stack flag [] (split_by is_slash (front +:+ String "/" (String.concat "/" l))))
    = rev (norm_stack flag [] (split_by is_slash front)) ++ l) as Hnorm.
  { intros front flag l Hl Hn.
    rewrite split_by_sep, split_concat, norm_stack_app by (done || by apply entry_names_free).
    rewrite norm_stack_plain by (by apply entry_names_plain).
    by rewrite rev_app_distr, rev_involutive. }
  unfold abs_components, path_join.
  destruct (String.eqb cwd "") eqn:Hcwd; simpl.
  { apply String.eqb_eq in Hcwd as ->. exists []. intros l Hl Hn.
    rewrite !Hrel by done. rewrite append_nil_l, Hrel by done.
    rewrite split_concat, norm_stack_plain
      by (done || by apply entry_names_free || by apply entry_names_plain).
    by rewrite app_nil_r, rev_involutive. }
  apply String.eqb_neq in Hcwd.
  destruct (endswith_char cwd "/") eqn:Hend.
  - apply endswith_char_inv in Hend as [front ->].
    exists (rev (norm_stack (startswith (front +:+ "/") "/") []
                   (split_by is_slash front))).
    intros l Hl Hn. rewrite Hrel by done.
    rewrite startswith_app_slash by done.
    rewrite append_assoc. by apply Hnorm.
  - exists (rev (norm_stack (startswith cwd "/") [] (split_by is_slash cwd))).
    intros l Hl Hn. rewrite Hrel by done.
    rewrite startswith_app_slash by done.
    by apply Hnorm.
Qed.

(** [relpath] of a path below [start] is what was added to [start]. *)
Lemma relpath_below cwd l rel :
  l ≠ [] → rel ≠ [] →
  Forall Local.entry_name l → Forall Local.entry_name rel →
  relpath cwd (String.concat "/" (l ++ rel)) (String.concat "/" l)
  = Some (String.concat "/" rel).
Proof.
  intros Hl Hrel Hnl Hnrel. unfold relpath.
  assert (String.eqb (String.concat "/" (l ++ rel)) "" = false) as ->.
  { apply String.eqb_neq, concat_nonempty; [by destruct l|].
    apply entry_names_like, Forall_app. done. }
  destruct (abs_components_plain cwd) as [base Hbase].
  rewrite !Hbase by (try apply Forall_app; done || by destruct l).
  rewrite (app_assoc base l rel), common_len_app, Nat.sub_diag. simpl.
  rewrite drop_app_length.
  destruct rel as [|r rel]; [done|]. f_equal.
  by apply path_join_all_concat, entry_names_like.
Qed.

(** The host resolves a path with plain components added to [a] to the
    components of [a] followed by the added ones. *)
Lemma resolve_below home a rel :
  a ≠ "" → rel ≠ [] → Forall Local.entry_name rel →
  Remote.resolve home (a +:+ "/" +:+ String.concat "/" rel)
  = Remote.resolve home a ++ rel.
Proof.
  intros Ha Hrel Hn. unfold Remote.resolve.
  rewrite startswith_app_slash by done.
  change (a +:+ "/" +:+ String.concat "/" rel)
    with (a +:+ String "/" (String.concat "/" rel)).
  rewrite split_by_sep, split_concat, norm_stack_app by (done || by apply entry_names_free).
  rewrite norm_stack_plain by (by apply entry_names_plain).
  by rewrite rev_app_distr, rev_involutive.
Qed.

Lemma at_path_concat l t :
  l ≠ [] → Forall Local.entry_name l →
  Local.at_path (String.concat "/" l) t = Local.lookup l t.
Proof.
  intros Hl Hn. unfold Local.at_path.
  rewrite split_concat, norm_stack_plain
    by (done || by apply entry_names_free || by apply entry_names_plain).
  by rewrite app_nil_r, rev_involutive.
Qed.

Lemma name_like_no_slash_start_concat l :
  l ≠ [] → Forall Local.entry_name l → startswith (String.concat "/" l) "/" = false.
Proof.
  intros Hl Hxl. destruct l as [|x l]; [done|]. apply Forall_cons in Hxl as [Hx _].
  apply entry_name_like in Hx as [Hne Hf].
  destruct x as [|c x]; [done|]. apply free_of_cons in Hf as [Hc _].
  destruct l as [|y l].
  - change (String.concat "/" [String c x]) with (String c x).
    by rewrite startswith_slash_cons.
  - change (String.concat "/" (String c x :: y :: l))
      with (String c x +:+ "/" +:+ String.concat "/" (y :: l)).
    by rewrite append_cons, startswith_slash_cons.
Qed.

Lemma rev_app_append a b acc :
  String.rev_app (a +:+ b) acc = String.rev_app b (String.rev_app a acc).
Proof.
  revert acc. induction a as [|x a IH]; intros acc; [done|].
  rewrite append_cons. simpl. apply IH.
Qed.

Lemma rev_app_rev_app a b c :
  String.rev_app (String.rev_app a b) c = String.rev_app b (a +:+ c).
Proof.
  revert b c. induction a as [|x a IH]; intros b c; [done|].
  simpl. rewrite IH. by rewrite append_cons.
Qed.

Lemma string_rev_involutive a : String.rev (String.rev a) = a.
Proof. unfold String.rev. by rewrite rev_app_rev_app, append_nil_r. Qed.

(** A string that does not end with a slash ends with another
    character. *)
Lemma last_char_not_slash s :
  s ≠ "" → endswith_char s "/" = false →
  ∃ front c, s = front +:+ String c "" ∧ is_slash c = false.
Proof.
  induction s as [|x s IH]; [done|]. intros _. simpl. destruct s as [|y s].
  - intros Hx. by exists "", x.
  - intros Hs. destruct IH as (front & c & Heq & Hc); [done..|].
    exists (String x front), c. by rewrite append_cons, <- Heq.
Qed.

Lemma endswith_char_cons x s c :
  s ≠ "" → endswith_char (String x s) c = endswith_char s c.
Proof. by destruct s. Qed.

Lemma rstrip_slash_snoc s :
  s ≠ "" → endswith_char s "/" = false → rstrip_slash (s +:+ "/") = s.
Proof.
  intros Hs He. destruct (last_char_not_slash s Hs He) as (front & c & -> & Hc).
  unfold rstrip_slash, String.rev. rewrite !rev_app_append. simpl. rewrite Hc.
  change (String c (String.rev_app front ""))
    with (String.rev_app (String c "") (String.rev_app front "")).
  rewrite <- rev_app_append.
  apply string_rev_involutive.
Qed.

Lemma concat_app l1 l2 :
  l1 ≠ [] → l2 ≠ [] →
  String.concat "/" (l1 ++ l2) = String.concat "/" l1 +:+ "/" +:+ String.concat "/" l2.
Proof.
  intros H1 H2. induction l1 as [|x l1 IH]; [done|].
  destruct l1 as [|y l1].
  - simpl. by destruct l2.
  - change (String.concat "/" ((x :: y :: l1) ++ l2))
      with (x +:+ "/" +:+ String.concat "/" ((y :: l1) ++ l2)).
    rewrite IH by done.
    change (String.concat "/" (x :: y :: l1))
      with (x +:+ "/" +:+ String.concat "/" (y :: l1)).
    by rewrite !append_assoc.
Qed.

(** Joining the pieces of a string gives the string back. *)
Lemma concat_split s : String.concat "/" (split_by is_slash s) = s.
Proof.
  induction s as [|x s IH]; [done|]. simpl.
  pose proof (split_by_nonempty is_slash s) as Hne.
  destruct (is_slash x) eqn:Hx.
  - apply Ascii.eqb_eq in Hx as ->.
    destruct (split_by is_slash s) as [|p ps] eqn:Hs; [done|].
    change (String.concat "/" ("" :: p :: ps))
      with ("/" +:+ String.concat "/" (p :: ps)).
    by rewrite IH.
  - destruct (split_by is_slash s) as [|p ps] eqn:Hs; [done|].
    destruct ps as [|p' ps].
    + simpl in *. by rewrite IH.
    + change (String.concat "/" (String x p :: p' :: ps))
        with (String x (p +:+ "/" +:+ String.concat "/" (p' :: ps))).
      by rewrite <- IH.
Qed.

(** [dirname] of a path made by appending plain names to [a]: the last
    name is dropped, with the slash before it. *)
Lemma dirname_below a dirs name :
  (∃ front final, a = front +:+ final ∧ final ≠ "" ∧ free_of is_slash final) →
  Forall name_like (dirs ++ [name]) →
  dirname (a +:+ "/" +:+ String.concat "/" (dirs ++ [name])) =
  match dirs with
  | [] => a
  | _ => a +:+ "/" +:+ String.concat "/" dirs
  end.
Proof.
  intros (front & final & -> & Hfinal & Hfree) Hn.
  set (a := front +:+ final).
  destruct (split_by_suffix is_slash front final Hfree) as (pieces & fin & _ & Hsplit).
  fold a in Hsplit.
  assert (a ≠ "") as Ha by (subst a; destruct front; [by destruct final|done]).
  assert (endswith_char a "/" = false) as Hend.
  { subst a. rewrite endswith_char_app by done.
    by apply (endswith_char_free is_slash). }
  set (keep := match dirs with [] => a | _ => a +:+ "/" +:+ String.concat "/" dirs end).
  assert (String.concat "/" (split_by is_slash a ++ dirs) = keep) as Hkeep.
  { subst keep. destruct dirs as [|d dirs]; [by rewrite app_nil_r, concat_split|].
    rewrite concat_app, concat_split; [done|apply split_by_nonempty|done]. }
  assert (keep ≠ "" ∧ endswith_char keep "/" = false) as [Hk1 Hk2].
  { subst keep. destruct dirs as [|d dirs]; [done|].
    apply Forall_app in Hn as [Hd _]. split.
    - by destruct a.
    - change (a +:+ "/" +:+ String.concat "/" (d :: dirs))
        with (a +:+ String "/" (String.concat "/" (d :: dirs))).
      rewrite endswith_char_app by done.
      rewrite endswith_char_cons by (by apply concat_nonempty).
      by apply concat_no_trailing_slash. }
  unfold dirname.
  change (a +:+ "/" +:+ String.concat "/" (dirs ++ [name]))
    with (a +:+ String "/" (String.concat "/" (dirs ++ [name]))).
  rewrite split_by_sep by done.
  rewrite split_concat;
    [|by destruct dirs|eapply Forall_impl; [exact Hn|by intros ? [_ ?]]].
  rewrite app_assoc, rev_unit, rev_involutive, Hkeep.
  destruct (rev (split_by is_slash a ++ dirs)) as [|b bs] eqn:Hrev.
  { apply (f_equal (@rev string)) in Hrev. rewrite rev_involutive in Hrev.
    destruct (split_by is_slash a) eqn:E; [by apply split_by_nonempty in E|done]. }
  cbv zeta.
  assert (forallb (String.eqb "") (split_by is_slash (keep +:+ "/")) = false) as ->.
  { change (keep +:+ "/") with (keep +:+ String "/" "").
    rewrite split_by_sep by done.
    rewrite forallb_app. apply andb_false_iff. left.
    subst keep. destruct dirs as [|d dirs].
    - rewrite Hsplit, forallb_app. apply andb_false_iff. right. simpl.
      destruct fin; [by destruct final|done].
    - change (a +:+ "/" +:+ String.concat "/" (d :: dirs))
        with (a +:+ String "/" (String.concat "/" (d :: dirs))).
      rewrite split_by_sep by done. rewrite forallb_app. apply andb_false_iff. left.
      rewrite Hsplit, forallb_app. apply andb_false_iff. right. simpl.
      destruct fin; [by destruct final|done]. }
  by apply rstrip_slash_snoc.
Qed.

End PyFacts.

(** ** The host's file tree *)

Module RemoteFacts.
Import Py Remote PyFacts.

Lemma fs_lookup_app p q t :
  fs_lookup (p ++ q) t = fs_lookup p t ≫= fs_lookup q.
Proof.
  revert t. induction p as [|n p IH]; intros t; simpl; [done|].
  destruct t as [|es]; [done|]. destruct (es !! n); [apply IH|done].
Qed.

Lemma fs_lookup_child p a t es :
  fs_lookup p t = Some (Dir es) → fs_lookup (p ++ [a]) t = es !! a.
Proof.
  intros Hp. rewrite fs_lookup_app, Hp. simpl. by destruct (es !! a).
Qed.

Lemma fs_lookup_child_inv p a t c :
  fs_lookup (p ++ [a]) t = Some c →
  ∃ es, fs_lookup p t = Some (Dir es) ∧ es !! a = Some c.
Proof.
  rewrite fs_lookup_app. destruct (fs_lookup p t) as [[|es]|]; simpl; [done| |done].
  intros H. exists es. split; [done|]. by destruct (es !! a).
Qed.

Lemma fs_subst_lookup p c t x :
  fs_lookup p t = Some x → fs_lookup p (fs_subst p c t) = Some c.
Proof.
  revert t. induction p as [|n p IH]; intros t; simpl; [done|].
  destruct t as [|es]; [done|]. destruct (es !! n) as [y|] eqn:Hn; [|done].
  intros Hy. simpl. rewrite lookup_insert_eq. by apply IH.
Qed.

Lemma fs_subst_same p t x : fs_lookup p t = Some x → fs_subst p x t = t.
Proof.
  revert t. induction p as [|n p IH]; intros t; simpl; [congruence|].
  destruct t as [|es]; [done|]. destruct (es !! n) as [y|] eqn:Hn; [|done].
  intros Hy. rewrite IH by done. by rewrite insert_id.
Qed.

Lemma fs_subst_twice p c c' t x :
  fs_lookup p t = Some x → fs_subst p c' (fs_subst p c t) = fs_subst p c' t.
Proof.
  revert t. induction p as [|n p IH]; intros t; simpl; [done|].
  destruct t as [|es]; [done|]. destruct (es !! n) as [y|] eqn:Hn; [|done].
  intros Hy. simpl. rewrite lookup_insert_eq, insert_insert_eq. by rewrite IH.
Qed.

(** Replacing below [p] is replacing at [p]. *)
Lemma fs_subst_child p a c t es x :
  fs_lookup p t = Some (Dir es) → es !! a = Some x →
  fs_subst (p ++ [a]) c t = fs_subst p (Dir (<[a := c]> es)) t.
Proof.
  revert t. induction p as [|n p IH]; intros t; simpl.
  - intros [= ->] Ha. by rewrite Ha.
  - destruct t as [|fs]; [done|]. destruct (fs !! n) as [y|] eqn:Hn; [|done].
    intros Hy Ha. by rewrite (IH y).
Qed.

Lemma fs_set_child p a v t es :
  fs_lookup p t = Some (Dir es) →
  fs_set (p ++ [a]) v t = Some (fs_subst p (Dir (bound a v es)) t).
Proof.
  revert t. induction p as [|n p IH]; intros t; simpl.
  - intros [= ->]. done.
  - destruct t as [|fs]; [done|]. destruct (fs !! n) as [y|] eqn:Hn; [|done].
    intros Hy. rewrite (IH y Hy).
    destruct (p ++ [a]) eqn:Hpa; [by destruct p|done].
Qed.

Lemma sibling_not_prefix (p : list string) a b q :
  a ≠ b → ¬ (p ++ [a]) `prefix_of` (p ++ b :: q).
Proof.
  intros Hab Hp. apply prefix_app_inv in Hp.
  destruct Hp as [k Hk]. simplify_eq/=.
Qed.

(** [mv] between two names of one directory. *)
Lemma fs_mv_sibling p a b t es x :
  fs_lookup p t = Some (Dir es) → a ≠ b → es !! a = Some x →
  fs_mv (p ++ [a]) (p ++ [b]) t =
  match es !! b with
  | Some (Dir bs) =>
      if rename_clash x (bs !! a) then None
      else Some (fs_subst p (Dir (<[b := Dir (<[a := x]> bs)]> (delete a es))) t)
  | other =>
      if rename_clash x other then None
      else Some (fs_subst p (Dir (<[b := x]> (delete a es))) t)
  end.
Proof.
  intros Hp Hab Ha. unfold fs_mv.
  rewrite (fs_lookup_child _ _ _ _ Hp), Ha, last_snoc.
  rewrite (fs_lookup_child _ _ _ _ Hp).
  assert (Hp1 : fs_lookup p (fs_subst p (Dir (delete a es)) t) = Some (Dir (delete a es)))
    by (by eapply fs_subst_lookup).
  destruct (es !! b) as [[d|bs]|] eqn:Hb.
  - rewrite bool_decide_eq_false_2 by (by apply sibling_not_prefix).
    rewrite (fs_lookup_child _ _ _ _ Hp), Hb.
    destruct (rename_clash x (Some (File d))); [done|].
    rewrite (fs_set_child _ _ _ _ _ Hp). simpl.
    rewrite (fs_set_child _ _ _ _ _ Hp1). simpl.
    by erewrite fs_subst_twice.
  - rewrite <- app_assoc. simpl.
    rewrite bool_decide_eq_false_2 by (by apply sibling_not_prefix).
    assert (Hpb : fs_lookup (p ++ [b]) t = Some (Dir bs))
      by (by rewrite (fs_lookup_child _ _ _ _ Hp)).
    change (p ++ [b; a]) with (p ++ [b] ++ [a]). rewrite app_assoc.
    rewrite (fs_lookup_child _ _ _ _ Hpb).
    destruct (rename_clash x (bs !! a)); [done|].
    rewrite <- app_assoc. rewrite (fs_set_child _ _ _ _ _ Hp). simpl.
    assert (Hpb1 : fs_lookup (p ++ [b]) (fs_subst p (Dir (delete a es)) t) = Some (Dir bs)).
    { rewrite (fs_lookup_child _ _ _ _ Hp1). by rewrite lookup_delete_ne. }
    change (p ++ [b] ++ [a]) with (p ++ [b; a]).
    change (p ++ [b; a]) with (p ++ [b] ++ [a]). rewrite app_assoc.
    rewrite (fs_set_child _ _ _ _ _ Hpb1). simpl.
    erewrite (fs_subst_child p b _ _ (delete a es)); [|done|by rewrite lookup_delete_ne].
    by erewrite fs_subst_twice.
  - rewrite bool_decide_eq_false_2 by (by apply sibling_not_prefix).
    rewrite (fs_lookup_child _ _ _ _ Hp), Hb.
    simpl. rewrite (fs_set_child _ _ _ _ _ Hp). simpl.
    rewrite (fs_set_child _ _ _ _ _ Hp1). simpl.
    by erewrite fs_subst_twice.
Qed.

(** [mv] of a name that is not there fails. *)
Lemma fs_mv_missing src dst t :
  fs_lookup src t = None → fs_mv src dst t = None.
Proof. intros H. unfold fs_mv. by rewrite H. Qed.

(** [rm -rf] of a name in the directory at [p]. *)
Lemma fs_rm_rf_child p a t es :
  fs_lookup p t = Some (Dir es) →
  fs_rm_rf (p ++ [a]) t = Some (fs_subst p (Dir (delete a es)) t).
Proof.
  intros Hp. unfold fs_rm_rf.
  destruct (p ++ [a]) eqn:Hpa; [by destruct p|]. rewrite <- Hpa.
  rewrite (fs_lookup_child _ _ _ _ Hp).
  destruct (es !! a) eqn:Ha.
  - by rewrite (fs_set_child _ _ _ _ _ Hp).
  - rewrite delete_id by done. by erewrite fs_subst_same.
Qed.

(** A successful [mv] between two names of a directory unbinds the
    source name and touches no third name. *)
Lemma fs_mv_sibling_inv p a b t es x t' :
  fs_lookup p t = Some (Dir es) → a ≠ b → es !! a = Some x →
  fs_mv (p ++ [a]) (p ++ [b]) t = Some t' →
  ∃ es', t' = fs_subst p (Dir es') t ∧ es' !! a = None ∧
         ∀ k, k ≠ a → k ≠ b → es' !! k = es !! k.
Proof.
  intros Hp Hab Ha. rewrite (fs_mv_sibling _ _ _ _ _ _ Hp Hab Ha).
  destruct (es !! b) as [[dt|bs]|];
    (destruct (rename_clash _ _); [done|]); intros [= <-];
    eexists; (split; [reflexivity|]);
    (split; [by rewrite lookup_insert_ne, lookup_delete_eq|]);
    intros k Hka Hkb; by rewrite lookup_insert_ne, lookup_delete_ne.
Qed.

(** [mv] onto a name that is free. *)
Lemma fs_mv_sibling_fresh p a b t es x :
  fs_lookup p t = Some (Dir es) → a ≠ b → es !! a = Some x → es !! b = None →
  fs_mv (p ++ [a]) (p ++ [b]) t = Some (fs_subst p (Dir (<[b := x]> (delete a es))) t).
Proof.
  intros Hp Hab Ha Hb. rewrite (fs_mv_sibling _ _ _ _ _ _ Hp Hab Ha), Hb.
  by destruct x.
Qed.

(** The three steps of the swap, each of them successful, on the
    directory that holds live ([a]), backup ([b]) and staging ([c]). *)
Lemma swap_in_directory p a b c t es l s t1 t2 t3 :
  a ≠ b → a ≠ c → c ≠ b →
  fs_lookup p t = Some (Dir es) → es !! a = Some l → es !! c = Some s →
  fs_mv (p ++ [a]) (p ++ [b]) t = Some t1 →
  fs_mv (p ++ [c]) (p ++ [a]) t1 = Some t2 →
  fs_rm_rf (p ++ [b]) t2 = Some t3 →
  t3 = fs_subst p (Dir (<[a := s]> (delete c (delete b es)))) t.
Proof.
  intros Hab Hac Hcb Hp Ha Hc H1 H2 H3.
  destruct (fs_mv_sibling_inv _ _ _ _ _ _ _ Hp Hab Ha H1) as (es1 & -> & Ha1 & Hk1).
  assert (Hp1 : fs_lookup p (fs_subst p (Dir es1) t) = Some (Dir es1))
    by (by eapply fs_subst_lookup).
  assert (Hc1 : es1 !! c = Some s) by (by rewrite Hk1).
  rewrite (fs_mv_sibling_fresh _ _ _ _ _ _ Hp1) in H2 by done.
  injection H2 as <-. erewrite fs_subst_twice in H3 by done.
  assert (Hp2 : fs_lookup p (fs_subst p (Dir (<[a:=s]> (delete c es1))) t)
                = Some (Dir (<[a:=s]> (delete c es1))))
    by (by eapply fs_subst_lookup).
  rewrite (fs_rm_rf_child _ _ _ _ Hp2) in H3. injection H3 as <-.
  erewrite fs_subst_twice by done. do 2 f_equal.
  apply map_eq. intros k.
  destruct (decide (k = a)) as [->|Hka].
  { by rewrite lookup_delete_ne, !lookup_insert_eq. }
  destruct (decide (k = b)) as [->|Hkb].
  { by rewrite lookup_delete_eq, lookup_insert_ne, lookup_delete_ne, lookup_delete_eq. }
  rewrite lookup_delete_ne, !lookup_insert_ne by done.
  destruct (decide (k = c)) as [->|Hkc].
  { by rewrite !lookup_delete_eq. }
  by rewrite !lookup_delete_ne, Hk1.
Qed.

(** With no backup in the way, the three steps do succeed. *)
Lemma swap_in_directory_runs p a b c t es l s :
  a ≠ b → a ≠ c → c ≠ b →
  fs_lookup p t = Some (Dir es) → es !! a = Some l → es !! c = Some s →
  es !! b = None →
  ∃ t1 t2 t3,
    fs_mv (p ++ [a]) (p ++ [b]) t = Some t1 ∧
    fs_mv (p ++ [c]) (p ++ [a]) t1 = Some t2 ∧
    fs_rm_rf (p ++ [b]) t2 = Some t3.
Proof.
  intros Hab Hac Hcb Hp Ha Hc Hb.
  eexists _, _, _. split; [by apply fs_mv_sibling_fresh|].
  assert (Hp1 : fs_lookup p (fs_subst p (Dir (<[b:=l]> (delete a es))) t)
                = Some (Dir (<[b:=l]> (delete a es))))
    by (by eapply fs_subst_lookup).
  split.
  - apply (fs_mv_sibling_fresh _ _ _ _ _ s Hp1); [done| |].
    + by rewrite lookup_insert_ne, lookup_delete_ne.
    + by rewrite lookup_insert_ne, lookup_delete_eq.
  - eapply fs_rm_rf_child. by eapply fs_subst_lookup.
Qed.

(** Renaming live ([a]) to a free backup name ([b]) and back restores
    the tree. *)
Lemma rollback_in_directory p a b t es l :
  a ≠ b → fs_lookup p t = Some (Dir es) → es !! a = Some l → es !! b = None →
  ∃ t1, fs_mv (p ++ [a]) (p ++ [b]) t = Some t1 ∧
        fs_lookup (p ++ [b]) t1 = Some l ∧
        fs_lookup (p ++ [a]) t1 = None ∧
        fs_mv (p ++ [b]) (p ++ [a]) t1 = Some t.
Proof.
  intros Hab Hp Ha Hb. eexists. split; [by apply fs_mv_sibling_fresh|].
  assert (Hp1 : fs_lookup p (fs_subst p (Dir (<[b:=l]> (delete a es))) t)
                = Some (Dir (<[b:=l]> (delete a es))))
    by (by eapply fs_subst_lookup).
  rewrite !(fs_lookup_child _ _ _ _ Hp1).
  rewrite lookup_insert_eq, lookup_insert_ne, lookup_delete_eq by done.
  split_and!; [done..|].
  rewrite (fs_mv_sibling_fresh _ _ _ _ _ l Hp1);
    [|done|by rewrite lookup_insert_eq|by rewrite lookup_insert_ne, lookup_delete_eq].
  erewrite fs_subst_twice by done. f_equal.
  rewrite <- (fs_subst_same p t (Dir es)) at 2 by done. do 2 f_equal.
  apply map_eq. intros k.
  destruct (decide (k = a)) as [->|Hka]; [by rewrite lookup_insert_eq|].
  rewrite lookup_insert_ne by done.
  destruct (decide (k = b)) as [->|Hkb]; [by rewrite lookup_delete_eq|].
  by rewrite lookup_delete_ne, lookup_insert_ne, lookup_delete_ne.
Qed.

(** *** Command lines *)

Lemma sh_plain_inv w :
  sh_plain w = true → w ≠ "" ∧ free_of is_blank w.
Proof.
  unfold sh_plain. rewrite !andb_true_iff, !negb_true_iff.
  intros [[Hne _] Hall]. split.
  - by apply String.eqb_neq.
  - unfold free_of. apply Forall_forall. intros c Hc.
    rewrite forallb_forall in Hall. apply list_elem_of_In in Hc.
    specialize (Hall c Hc). apply andb_true_iff in Hall as [Hb _].
    by apply negb_true_iff.
Qed.

Lemma sh_plain_suffix w sfx :
  sh_plain w = true → sh_plain sfx = true → sh_plain (w +:+ sfx) = true.
Proof.
  unfold sh_plain. rewrite !andb_true_iff, !negb_true_iff.
  intros [[Hne Hd] Hall] [_ Hall']. destruct w as [|c w]; [done|].
  split_and!; [done|by rewrite append_cons, startswith_char in *|].
  rewrite forallb_forall in *. intros x Hx.
  assert (list_ascii_of_string (String c w +:+ sfx) =
          list_ascii_of_string (String c w) ++ list_ascii_of_string sfx) as Heq.
  { clear. generalize (String c w). intros s.
    induction s; rewrite ?append_cons; simpl; [done|congruence]. }
  rewrite Heq in Hx. apply in_app_or in Hx as [Hx|Hx]; auto.
Qed.

Lemma sh_words_word w : w ≠ "" → free_of is_blank w → sh_words w = [w].
Proof.
  intros Hne Hf. unfold sh_words. rewrite split_by_free by done.
  by rewrite filter_cons_True.
Qed.

Lemma sh_words_blank a b :
  sh_words (a +:+ String " " b) = sh_words a ++ sh_words b.
Proof. unfold sh_words. by rewrite split_by_sep, filter_app. Qed.

Lemma sh_exec_mv home a b t :
  sh_plain a = true → sh_plain b = true →
  sh_exec home ("mv " +:+ a +:+ " " +:+ b) t =
  match fs_mv (resolve home a) (resolve home b) t with
  | Some t' => (0%Z, t')
  | None => (1%Z, t)
  end.
Proof.
  intros [Ha Ha']%sh_plain_inv [Hb Hb']%sh_plain_inv. unfold sh_exec.
  change ("mv " +:+ a +:+ " " +:+ b) with ("mv" +:+ String " " (a +:+ String " " b)).
  rewrite !sh_words_blank, (sh_words_word a), (sh_words_word b) by done.
  reflexivity.
Qed.

Lemma sh_exec_rm_rf home a t :
  sh_plain a = true →
  sh_exec home ("rm -rf " +:+ a) t =
  match fs_rm_rf (resolve home a) t with
  | Some t' => (0%Z, t')
  | None => (1%Z, t)
  end.
Proof.
  intros [Ha Ha']%sh_plain_inv. unfold sh_exec.
  change ("rm -rf " +:+ a) with ("rm" +:+ String " " ("-rf" +:+ String " " a)).
  rewrite !sh_words_blank, (sh_words_word a) by done.
  reflexivity.
Qed.

(** *** Path names *)

Lemma resolve_suffix home p sfx :
  leaf p ≠ "" → free_of Py.is_slash sfx → plain (leaf p +:+ sfx) →
  resolve home (p +:+ sfx) = parent_of home p ++ [leaf p +:+ sfx].
Proof.
  intros Hleaf Hsfx Hplain. unfold resolve, parent_of, leaf in *.
  destruct (split_by_suffix Py.is_slash p sfx Hsfx) as (pieces & final & Hp & Hps).
  rewrite Hp, last_snoc in *. simpl in *.
  rewrite Hps, removelast_last, norm_stack_app.
  rewrite startswith_app_slash by (intros ->; destruct pieces as [|? [|]]; naive_solver).
  rewrite (norm_stack_plain _ _ [final +:+ sfx]) by (by constructor).
  simpl. done.
Qed.

(** The three path names of the swap are three different entries of one
    directory. *)
Lemma swap_paths home p :
  path_ok p = true →
  let d := parent_of home p in
  let n := leaf p in
  resolve home p = d ++ [n] ∧
  resolve home (p +:+ "_temp") = d ++ [n +:+ "_temp"] ∧
  resolve home (p +:+ "_backup") = d ++ [n +:+ "_backup"] ∧
  n ≠ n +:+ "_temp" ∧ n ≠ n +:+ "_backup" ∧ n +:+ "_temp" ≠ n +:+ "_backup".
Proof.
  unfold path_ok. rewrite !andb_true_iff, !negb_true_iff.
  intros [[[_ H1%String.eqb_neq] H2%String.eqb_neq] H3%String.eqb_neq]. simpl.
  assert (Hlen : ∀ sfx, 2 < String.length sfx → plain (leaf p +:+ sfx)).
  { intros sfx Hs. repeat split; intros Heq;
      apply (f_equal String.length) in Heq; rewrite append_length in Heq;
      simpl in Heq; lia. }
  assert (Hne : ∀ sfx, 0 < String.length sfx → leaf p ≠ leaf p +:+ sfx).
  { intros sfx Hs Heq. apply (f_equal String.length) in Heq.
    rewrite append_length in Heq. lia. }
  split_and!.
  - rewrite <- (append_nil_r p) at 1. rewrite resolve_suffix; rewrite ?append_nil_r;
      try done. constructor.
  - apply resolve_suffix; [done|by repeat constructor|apply Hlen; simpl; lia].
  - apply resolve_suffix; [done|by repeat constructor|apply Hlen; simpl; lia].
  - apply Hne. simpl. lia.
  - apply Hne. simpl. lia.
  - intros Heq%append_inv_head. done.
Qed.

(** *** Regular files *)

(** [mkdir -p] neither adds nor removes nor changes a regular file. *)
Lemma fs_mkdir_p_files p :
  ∀ t t' q d,
    fs_mkdir_p p t = Some t' →
    fs_lookup q t' = Some (File d) ↔ fs_lookup q t = Some (File d).
Proof.
  induction p as [|n p IH]; intros [data|es] t' q d; simpl; try done.
  { by intros [= <-]. }
  destruct (fs_mkdir_p p (default (Dir ∅) (es !! n))) as [c'|] eqn:Hc; [|done].
  intros [= <-]. destruct q as [|m q]; simpl; [done|].
  destruct (decide (m = n)) as [->|Hmn].
  - rewrite lookup_insert_eq. rewrite (IH _ _ q d Hc).
    destruct (es !! n) as [c|]; simpl; [done|].
    destruct q; simpl; [done|]. by rewrite lookup_empty.
  - by rewrite lookup_insert_ne.
Qed.

Lemma for_operands_mkdir_files args t q d :
  fs_lookup q (for_operands fs_mkdir_p args t).2 = Some (File d) ↔
  fs_lookup q t = Some (File d).
Proof.
  unfold for_operands. generalize 0%Z.
  revert t. induction args as [|a args IH]; intros t st; simpl; [done|].
  destruct (fs_mkdir_p a t) as [t'|] eqn:Ha.
  - rewrite IH. by apply fs_mkdir_p_files with a.
  - apply IH.
Qed.

(** Whatever directory name it is given, the command [mkdir -p ...]
    leaves the regular files of the host as they are. *)
Lemma sh_exec_mkdir_files home x t q d :
  fs_lookup q (sh_exec home ("mkdir -p " +:+ x) t).2 = Some (File d) ↔
  fs_lookup q t = Some (File d).
Proof.
  unfold sh_exec.
  change ("mkdir -p " +:+ x) with ("mkdir" +:+ String " " ("-p" +:+ String " " x)).
  rewrite !sh_words_blank.
  change (sh_words "mkdir" ++ sh_words "-p" ++ sh_words x)
    with ("mkdir" :: "-p" :: sh_words x).
  cbv iota beta. destruct (sh_words x) as [|a args] eqn:Hx; [done|].
  apply for_operands_mkdir_files.
Qed.

Lemma fs_lookup_cons n q es :
  fs_lookup (n :: q) (Dir es) =
  match es !! n with Some c => fs_lookup q c | None => None end.
Proof. reflexivity. Qed.

Lemma fs_set_cons n n' p v es :
  fs_set (n :: n' :: p) v (Dir es) =
  match es !! n with
  | Some c =>
      match fs_set (n' :: p) v c with
      | Some c' => Some (Dir (<[n:=c']> es))
      | None => None
      end
  | None => None
  end.
Proof. reflexivity. Qed.

(** Writing a file binds its path to the new content and touches no other
    regular file. *)
Lemma fs_set_file_files p data :
  ∀ t t',
    (∀ es, fs_lookup p t ≠ Some (Dir es)) →
    fs_set p (Some (File data)) t = Some t' →
    fs_lookup p t' = Some (File data) ∧
    ∀ q d, q ≠ p →
      fs_lookup q t' = Some (File d) ↔ fs_lookup q t = Some (File d).
Proof.
  induction p as [|n p IH]; intros t t' Hnd; [by destruct t|].
  destruct p as [|n' p]; destruct t as [old|es]; try done.
  - simpl. intros [= <-]. simpl. rewrite lookup_insert_eq. split; [done|].
    intros [|m q] d Hq; simpl; [done|].
    destruct (decide (m = n)) as [->|Hmn]; [|by rewrite lookup_insert_ne].
    rewrite lookup_insert_eq. destruct q as [|m' q]; [done|]. simpl.
    simpl in Hnd. destruct (es !! n) as [[old|sub]|]; [done| |done].
    by destruct (Hnd sub).
  - rewrite fs_set_cons. rewrite fs_lookup_cons in Hnd.
    destruct (es !! n) as [c|] eqn:Hc; [|done].
    destruct (fs_set (n' :: p) (Some (File data)) c) as [c'|] eqn:Hset; [|done].
    intros [= <-].
    destruct (IH c c' Hnd Hset) as [Hp Hq].
    rewrite fs_lookup_cons, lookup_insert_eq. split; [done|].
    intros [|m q] d Hne; [done|]. rewrite !fs_lookup_cons.
    destruct (decide (m = n)) as [->|Hmn]; [|by rewrite lookup_insert_ne].
    rewrite lookup_insert_eq, Hc. apply Hq. congruence.
Qed.

Lemma fs_write_files p data t t' :
  fs_write p data t = Some t' →
  fs_lookup p t' = Some (File data) ∧
  ∀ q d, q ≠ p →
    fs_lookup q t' = Some (File d) ↔ fs_lookup q t = Some (File d).
Proof.
  unfold fs_write. intros Hw. apply fs_set_file_files.
  - intros es Hes. by rewrite Hes in Hw.
  - by destruct (fs_lookup p t) as [[|]|].
Qed.

Lemma list_ascii_app a b :
  list_ascii_of_string (a +:+ b) = list_ascii_of_string a ++ list_ascii_of_string b.
Proof. induction a; rewrite ?append_cons; simpl; [done|congruence]. Qed.

(** A slash and plain words joined by slashes are one plain word. *)
Lemma sh_plain_below names :
  names ≠ [] → Forall (λ n, sh_plain n = true) names →
  sh_plain ("/" +:+ String.concat "/" names) = true.
Proof.
  intros Hne Hn. unfold sh_plain.
  change ("/" +:+ String.concat "/" names) with (String "/" (String.concat "/" names)).
  rewrite startswith_char. simpl.
  change (negb (is_blank "/") && negb (is_shell_special "/")) with true. simpl.
  clear Hne. induction names as [|n names IH]; [done|].
  apply Forall_cons in Hn as [Hn Hns].
  assert (forallb (λ c, negb (is_blank c) && negb (is_shell_special c))
            (list_ascii_of_string n) = true) as Hchars.
  { unfold sh_plain in Hn. by apply andb_true_iff in Hn as [_ ?]. }
  destruct names as [|m names]; [done|].
  change (String.concat "/" (n :: m :: names))
    with (n +:+ String "/" (String.concat "/" (m :: names))).
  rewrite list_ascii_app, forallb_app, Hchars. simpl.
  change (negb (is_blank "/") && negb (is_shell_special "/")) with true. simpl.
  by apply IH.
Qed.

Lemma sh_exec_mkdir_p home a t :
  sh_plain a = true →
  sh_exec home ("mkdir -p " +:+ a) t =
  match fs_mkdir_p (resolve home a) t with
  | Some t' => (0%Z, t')
  | None => (1%Z, t)
  end.
Proof.
  intros [Ha Ha']%sh_plain_inv. unfold sh_exec.
  change ("mkdir -p " +:+ a) with ("mkdir" +:+ String " " ("-p" +:+ String " " a)).
  rewrite !sh_words_blank, (sh_words_word a) by done.
  reflexivity.
Qed.

(** [mkdir -p], [put] and binding below a node that exists are the same
    operations on that node. *)
Lemma fs_mkdir_p_below p q t c c' :
  fs_lookup p t = Some c → fs_mkdir_p q c = Some c' →
  fs_mkdir_p (p ++ q) t = Some (fs_subst p c' t).
Proof.
  revert t. induction p as [|n p IH]; intros t; simpl.
  - by intros [= ->].
  - destruct t as [|es]; [done|]. destruct (es !! n) as [x|] eqn:Hn; [|done].
    intros Hx Hc. simpl. by rewrite (IH x Hx Hc).
Qed.

Lemma fs_set_below p q v t c c' :
  fs_lookup p t = Some c → q ≠ [] → fs_set q v c = Some c' →
  fs_set (p ++ q) v t = Some (fs_subst p c' t).
Proof.
  revert t. induction p as [|n p IH]; intros t Hp Hq Hc.
  - by injection Hp as ->.
  - destruct t as [|es]; [done|]. rewrite fs_lookup_cons in Hp.
    destruct (es !! n) as [x|] eqn:Hn; [|done].
    change ((n :: p) ++ q) with (n :: (p ++ q)).
    pose proof (IH x Hp Hq Hc) as IHx.
    destruct (p ++ q) as [|n' r] eqn:Hpq.
    { by destruct p, q. }
    rewrite fs_set_cons, Hn, IHx. simpl. by rewrite Hn.
Qed.

Lemma fs_write_below p q data t c c' :
  fs_lookup p t = Some c → q ≠ [] → fs_write q data c = Some c' →
  fs_write (p ++ q) data t = Some (fs_subst p c' t).
Proof.
  intros Hp Hq. unfold fs_write. rewrite fs_lookup_app, Hp. simpl.
  destruct (fs_lookup q c) as [[|]|]; try done; by apply fs_set_below.
Qed.

(** [mkdir -p] goes through when no regular file is in its way, and
    then the path leads to a directory. *)
Lemma fs_mkdir_p_runs p :
  ∀ t,
    (∀ q d, q `prefix_of` p → fs_lookup q t ≠ Some (File d)) →
    ∃ t' es, fs_mkdir_p p t = Some t' ∧ fs_lookup p t' = Some (Dir es).
Proof.
  induction p as [|n p IH]; intros t Hfree.
  - destruct t as [d|es]; [by destruct (Hfree [] d)|]. by exists (Dir es), es.
  - destruct t as [d|es]; [by destruct (Hfree [] d (prefix_nil _))|].
    destruct (IH (default (Dir ∅) (es !! n))) as (c' & fs & Hc & Hfs).
    { intros q d Hq. destruct (es !! n) as [x|] eqn:Hn; simpl.
      - specialize (Hfree (n :: q) d (prefix_cons _ _ _ Hq)). simpl in Hfree.
        by rewrite Hn in Hfree.
      - destruct q; simpl; [done|]. by rewrite lookup_empty. }
    exists (Dir (<[n := c']> es)), fs. simpl. rewrite Hc. split; [done|].
    by rewrite lookup_insert_eq.
Qed.

(** The directories after [mkdir -p] are those before and those on the
    path. *)
Lemma fs_mkdir_p_dirs p :
  ∀ t t' q es,
    fs_mkdir_p p t = Some t' → fs_lookup q t' = Some (Dir es) →
    (∃ es0, fs_lookup q t = Some (Dir es0)) ∨ q `prefix_of` p.
Proof.
  induction p as [|n p IH]; intros [d|es0] t' q es; simpl; try done.
  { intros [= <-] Hq. left. eauto. }
  destruct (fs_mkdir_p p (default (Dir ∅) (es0 !! n))) as [c'|] eqn:Hc; [|done].
  intros [= <-]. destruct q as [|m q]; simpl; [intros _; left; eauto|].
  destruct (decide (m = n)) as [->|Hmn]; [|rewrite lookup_insert_ne by done; eauto].
  rewrite lookup_insert_eq. intros Hq.
  destruct (IH _ _ _ _ Hc Hq) as [(fs & Hfs)|Hpre].
  - destruct (es0 !! n) as [x|]; simpl in Hfs; [left; eauto|].
    right. destruct q; simpl in Hfs; [apply prefix_cons, prefix_nil|].
    by rewrite lookup_empty in Hfs.
  - right. by apply prefix_cons.
Qed.

(** Replacing a directory by a directory makes no new directory above or
    beside it. *)
Lemma fs_subst_dirs p :
  ∀ t es es' q fs,
    fs_lookup p t = Some (Dir es) →
    fs_lookup q (fs_subst p (Dir es') t) = Some (Dir fs) →
    (∃ fs0, fs_lookup q t = Some (Dir fs0)) ∨
    ∃ r, q = p ++ r ∧ r ≠ [] ∧ fs_lookup r (Dir es') = Some (Dir fs).
Proof.
  induction p as [|n p IH]; intros t es es' q fs; simpl.
  - intros [= ->] Hq. destruct q as [|m q]; [left; eauto|].
    right. by exists (m :: q).
  - destruct t as [|es0]; [done|]. destruct (es0 !! n) as [x|] eqn:Hn; [|done].
    intros Hx. destruct q as [|m q]; simpl; [left; eauto|].
    destruct (decide (m = n)) as [->|Hmn]; [|rewrite lookup_insert_ne by done; eauto].
    rewrite lookup_insert_eq, Hn. intros Hq.
    destruct (IH _ _ _ _ _ Hx Hq) as [?|(r & -> & Hr & Hlook)]; [by left|].
    right. by exists r.
Qed.

(** *** Command lines the model speaks for *)

Lemma sh_run_known beyond home cmd t :
  sh_known cmd = true → sh_run beyond home cmd t = sh_exec home cmd t.
Proof. unfold sh_run. by intros ->. Qed.

Lemma sh_known_mv a b :
  sh_plain a = true → sh_plain b = true →
  sh_known ("mv " +:+ a +:+ " " +:+ b) = true.
Proof.
  intros Pa Pb. destruct (sh_plain_inv a Pa) as [Ha Ha'].
  destruct (sh_plain_inv b Pb) as [Hb Hb']. unfold sh_known.
  change ("mv " +:+ a +:+ " " +:+ b) with ("mv" +:+ String " " (a +:+ String " " b)).
  rewrite !sh_words_blank, (sh_words_word a), (sh_words_word b) by done.
  change (sh_words "mv" ++ [a] ++ [b]) with ["mv"; a; b].
  cbv iota beta. simpl. by rewrite Pa, Pb.
Qed.

Lemma sh_known_rm_rf a :
  sh_plain a = true → sh_known ("rm -rf " +:+ a) = true.
Proof.
  intros Pa. destruct (sh_plain_inv a Pa) as [Ha Ha']. unfold sh_known.
  change ("rm -rf " +:+ a) with ("rm" +:+ String " " ("-rf" +:+ String " " a)).
  rewrite !sh_words_blank, (sh_words_word a) by done.
  change (sh_words "rm" ++ sh_words "-rf" ++ [a]) with ["rm"; "-rf"; a].
  cbv iota beta. simpl. by rewrite Pa.
Qed.

Lemma sh_known_mkdir_p a :
  sh_plain a = true → sh_known ("mkdir -p " +:+ a) = true.
Proof.
  intros Pa. destruct (sh_plain_inv a Pa) as [Ha Ha']. unfold sh_known.
  change ("mkdir -p " +:+ a) with ("mkdir" +:+ String " " ("-p" +:+ String " " a)).
  rewrite !sh_words_blank, (sh_words_word a) by done.
  change (sh_words "mkdir" ++ sh_words "-p" ++ [a]) with ["mkdir"; "-p"; a].
  cbv iota beta. simpl. by rewrite Pa.
Qed.

End RemoteFacts.

(** ** The local build tree *)

Module LocalFacts.
Import Py PyFacts Local.

Lemma node_induction (P : node → Prop) :
  (∀ data, P (File data)) →
  (∀ es, Forall (λ e, P e.2) es → P (Dir es)) →
  ∀ t, P t.
Proof.
  intros HF HD. fix IH 1. intros [data|es]; [apply HF|].
  apply HD. induction es as [|[n c] es IHes]; constructor; [apply IH|apply IHes].
Qed.

Lemma files_of_dir es : files_of (Dir es) = direct es ++ below es.
Proof.
  simpl. f_equal.
  - induction es as [|[n [data|sub]] es IH]; simpl; [done|by rewrite IH|done].
  - induction es as [|[n c] es IH]; simpl; [done|]. by rewrite IH.
Qed.

Lemma well_formed_dir es :
  well_formed (Dir es) ↔
  NoDup es.*1 ∧ Forall (λ e, entry_name e.1 ∧ well_formed e.2) es.
Proof.
  simpl. apply and_iff_compat_l.
  induction es as [|[n c] es IH]; simpl.
  - split; [constructor|done].
  - rewrite Forall_cons, IH. simpl. tauto.
Qed.

Lemma elem_of_direct x es :
  x ∈ direct es ↔ ∃ n data, (n, File data) ∈ es ∧ x = ([], n, data).
Proof.
  unfold direct. rewrite list_elem_of_omap. split.
  - intros ([n [data|sub]] & Hin & Hx); simplify_eq/=. eauto.
  - intros (n & data & Hin & ->). by exists (n, File data).
Qed.

Lemma elem_of_below x es :
  x ∈ below es ↔
  ∃ n c y, (n, c) ∈ es ∧ y ∈ files_of c ∧ x = (n :: y.1.1, y.1.2, y.2).
Proof.
  unfold below. rewrite list_elem_of_bind. split.
  - intros ([n c] & (y & -> & Hy)%list_elem_of_fmap & Hin). by exists n, c, y.
  - intros (n & c & y & Hin & Hy & ->). exists (n, c). split; [|done].
    apply list_elem_of_fmap. by exists y.
Qed.

Lemma lookup_entry n q es c :
  NoDup es.*1 → (n, c) ∈ es → lookup (n :: q) (Dir es) = lookup q c.
Proof.
  intros Hnd Hin. simpl.
  assert (∃ i, list_find (λ e, e.1 = n) es = Some (i, (n, c))) as [i ->]; [|done].
  induction es as [|[m d] es IH]; [by apply elem_of_nil in Hin|].
  apply NoDup_cons in Hnd as [Hm Hnd]. simpl in *.
  apply elem_of_cons in Hin as [[= <- <-]|Hin].
  - exists 0. by rewrite decide_True.
  - rewrite decide_False.
    + destruct (IH Hnd Hin) as [i ->]. by exists (S i).
    + intros ->. apply Hm. apply list_elem_of_fmap. by exists (n, c).
Qed.

Lemma well_formed_entry es n c :
  well_formed (Dir es) → (n, c) ∈ es → entry_name n ∧ well_formed c.
Proof.
  intros [_ Hall]%well_formed_dir Hin.
  rewrite Forall_forall in Hall. apply (Hall (n, c) Hin).
Qed.

(** The names on the way to a listed file are entry names. *)
Lemma files_names t :
  well_formed t → ∀ x, x ∈ files_of t → Forall entry_name (rel_path x).
Proof.
  induction t as [data|es IH] using node_induction; [by intros _ x ?%elem_of_nil|].
  intros Hwf x. rewrite files_of_dir, elem_of_app, elem_of_direct, elem_of_below.
  rewrite Forall_forall in IH.
  intros [(n & data & Hin & ->)|(n & c & y & Hin & Hy & ->)].
  - destruct (well_formed_entry _ _ _ Hwf Hin) as [Hn _].
    unfold rel_path. simpl. by constructor.
  - destruct (well_formed_entry _ _ _ Hwf Hin) as [Hn Hc].
    unfold rel_path. simpl. constructor; [done|].
    by apply (IH (n, c) Hin Hc y).
Qed.

(** A listed file is found at its path, with its content. *)
Lemma files_lookup t :
  well_formed t →
  ∀ x, x ∈ files_of t → lookup (rel_path x) t = Some (File x.2).
Proof.
  induction t as [data|es IH] using node_induction; [by intros _ x ?%elem_of_nil|].
  intros Hwf x. rewrite files_of_dir, elem_of_app, elem_of_direct, elem_of_below.
  rewrite Forall_forall in IH.
  destruct (proj1 (well_formed_dir es) Hwf) as [Hnd _].
  intros [(n & data & Hin & ->)|(n & c & y & Hin & Hy & ->)];
    unfold rel_path; cbn [fst snd app].
  - by rewrite (lookup_entry n [] es _ Hnd Hin).
  - rewrite (lookup_entry n _ es _ Hnd Hin).
    destruct (well_formed_entry _ _ _ Hwf Hin) as [_ Hc].
    by apply (IH (n, c) Hin Hc y).
Qed.

Lemma direct_paths_nodup es : NoDup es.*1 → NoDup (rel_path <$> direct es).
Proof.
  induction es as [|[n [data|sub]] es IH]; [constructor| |];
    intros [Hn Hnd]%NoDup_cons; simpl; [|by apply IH].
  constructor; [|by apply IH].
  intros (x & Hx & (m & d & Hin & ->)%elem_of_direct)%list_elem_of_fmap.
  unfold rel_path in Hx. simpl in Hx. injection Hx as <-.
  apply Hn, list_elem_of_fmap. by exists (n, File d).
Qed.

Lemma below_paths_nodup es :
  NoDup es.*1 → Forall (λ e, NoDup (rel_path <$> files_of e.2)) es →
  NoDup (rel_path <$> below es).
Proof.
  induction es as [|[n c] es IH]; [constructor|].
  intros [Hn Hnd]%NoDup_cons [Hc Hall]%Forall_cons.
  change (below ((n, c) :: es))
    with (((λ x, (n :: x.1.1, x.1.2, x.2)) <$> files_of c) ++ below es).
  rewrite fmap_app. apply NoDup_app. split_and!.
  - rewrite <- list_fmap_compose.
    assert (rel_path ∘ (λ x, (n :: x.1.1, x.1.2, x.2)) = (n ::.) ∘ rel_path) as ->
      by done.
    rewrite list_fmap_compose. apply (NoDup_fmap_2 _). exact Hc.
  - intros p (x & -> & (y & -> & Hy)%list_elem_of_fmap)%list_elem_of_fmap.
    intros (z & Hz & (m & d & w & Hin & Hw & ->)%elem_of_below)%list_elem_of_fmap.
    unfold rel_path in Hz. simpl in Hz. injection Hz as <- _.
    apply Hn, list_elem_of_fmap. by exists (n, d).
  - by apply IH.
Qed.

(** No two listed files have the same path. *)
Lemma files_paths_nodup t : well_formed t → NoDup (rel_path <$> files_of t).
Proof.
  induction t as [data|es IH] using node_induction; [constructor|].
  intros Hwf. destruct (proj1 (well_formed_dir es) Hwf) as [Hnd Hall].
  rewrite files_of_dir, fmap_app. apply NoDup_app. split_and!.
  - by apply direct_paths_nodup.
  - intros p (x & -> & (n & data & Hin & ->)%elem_of_direct)%list_elem_of_fmap.
    intros (z & Hz & (m & d & w & _ & _ & ->)%elem_of_below)%list_elem_of_fmap.
    unfold rel_path in Hz. simpl in Hz. injection Hz as _ Hz.
    by destruct (w.1.1).
  - apply below_paths_nodup; [done|].
    rewrite Forall_forall in *. intros e He. apply (IH e He), (Hall e He).
Qed.

Lemma os_walk_dir top es :
  os_walk top (Dir es) =
  (top, names_where is_dir es, names_where (λ n, negb (is_dir n)) es) ::
  (e ← es; os_walk (path_join top e.1) e.2).
Proof.
  simpl. f_equal. induction es as [|[n c] es IH]; simpl; [done|]. by rewrite IH.
Qed.

Lemma walk_items_app a b : walk_items (a ++ b) = walk_items a ++ walk_items b.
Proof. unfold walk_items. by rewrite bind_app. Qed.

Lemma direct_names (top : string) es :
  (λ file, (top, file)) <$> names_where (λ n, negb (is_dir n)) es =
  (λ x, (top, x.1.2)) <$> direct es.
Proof.
  unfold names_where, direct.
  induction es as [|[n [data|sub]] es IH]; [done| |].
  - rewrite filter_cons_True by done. simpl. f_equal. exact IH.
  - rewrite filter_cons_False by (simpl; congruence). exact IH.
Qed.

(** The walk of a well-formed tree rooted at the path [l] visits the
    listed files in order; each is paired with the path of its
    directory. *)
Lemma walk_items_files t :
  ∀ l, l ≠ [] → Forall entry_name l → well_formed t →
  walk_items (os_walk (String.concat "/" l) t) =
  (λ x, (String.concat "/" (l ++ x.1.1), x.1.2)) <$> files_of t.
Proof.
  induction t as [data|es IH] using node_induction; [done|].
  intros l Hl Hn Hwf. rewrite os_walk_dir, files_of_dir, fmap_app.
  change (walk_items (?a :: ?r))
    with (((λ file, (a.1.1, file)) <$> a.2) ++ walk_items r).
  cbn [fst snd]. f_equal.
  - rewrite direct_names. apply Forall_fmap_ext, Forall_forall.
    intros x (n & data & _ & ->)%elem_of_direct. simpl. by rewrite app_nil_r.
  - assert (∀ e, e ∈ es → entry_name e.1 ∧ well_formed e.2) as Hes.
    { intros [n c] He. by apply (well_formed_entry es). }
    rewrite Forall_forall in IH. clear Hwf.
    induction es as [|[n c] es IHes]; [done|].
    cbn [mbind list_bind]. fold (@mbind list _).
    change (below ((n, c) :: es))
      with (((λ x, (n :: x.1.1, x.1.2, x.2)) <$> files_of c) ++ below es).
    rewrite walk_items_app, fmap_app. f_equal.
    + destruct (Hes (n, c)) as [Hname Hc]; [by left|]. simpl in Hname, Hc.
      cbn [fst snd].
      rewrite path_join_concat;
        [|done|by apply entry_names_like|by apply entry_name_like].
      rewrite (IH (n, c));
        [|by left|by destruct l|apply Forall_app; split; [done|by constructor]|done].
      rewrite <- list_fmap_compose. apply Forall_fmap_ext, Forall_forall.
      intros x _. simpl. by rewrite <- app_assoc.
    + apply IHes.
      * intros e He. apply IH. by right.
      * intros e He. apply Hes. by right.
Qed.

Lemma local_lookup_app p q t : lookup (p ++ q) t = lookup p t ≫= lookup q.
Proof.
  revert t. induction p as [|n p IH]; intros t; simpl; [done|].
  destruct t as [|es]; [done|].
  destruct (list_find _ es) as [[i [m c]]|]; [apply IH|done].
Qed.

(** The path of a listed file leads to no directory: no other listed
    file lies below it. *)
Lemma file_is_no_directory t x y :
  well_formed t → x ∈ files_of t → y ∈ files_of t →
  ¬ rel_path y `prefix_of` x.1.1.
Proof.
  intros Hwf Hx Hy [k Hk].
  pose proof (files_lookup t Hwf x Hx) as Lx.
  pose proof (files_lookup t Hwf y Hy) as Ly.
  unfold rel_path at 1 in Lx. rewrite Hk, <- app_assoc, local_lookup_app, Ly in Lx.
  simpl in Lx. by destruct (k ++ [x.1.2]) eqn:E; [destruct k|].
Qed.

End LocalFacts.

(** ** The first script: how calls run *)

Module DeployFacts.
Import Deploy.

#[local] Instance keeps_preorder : PreOrder keeps.
Proof.
  split.
  - intros w. repeat split. exists []. by rewrite app_nil_r.
  - intros w1 w2 w3 (Hs1 & Hv1 & evs1 & Ht1 & Hf1) (Hs2 & Hv2 & evs2 & Ht2 & Hf2).
    repeat split; [congruence..|].
    exists (evs1 ++ evs2). rewrite Ht2, Ht1, app_assoc. split; [done|].
    by apply Forall_app.
Qed.

Lemma keeps_log l msg w : keeps w (add_log l msg w).
Proof. repeat split. exists []. simpl. by rewrite app_nil_r. Qed.

Lemma keeps_env x w : keeps w (set_env x w).
Proof. repeat split. exists []. simpl. by rewrite app_nil_r. Qed.

Lemma keeps_remote x w : keeps w (set_remote x w).
Proof. repeat split. exists []. simpl. by rewrite app_nil_r. Qed.

Lemma keeps_pending cmd w : keeps w (add_pending cmd w).
Proof. repeat split. exists []. simpl. by rewrite app_nil_r. Qed.

Lemma keeps_trace c o w : c ≠ SshClose → keeps w (add_trace c o w).
Proof. intros Hc. repeat split. exists [(c, o)]. split; [done|]. by constructor. Qed.

Create HintDb frames.
#[local] Hint Resolve keeps_log keeps_env keeps_remote keeps_pending keeps_trace
  : frames.

Lemma framed_logger_info msg : framed keeps (logger_info msg).
Proof. apply framed_modify. auto with frames. Qed.

Lemma framed_logger_error msg : framed keeps (logger_error msg).
Proof. apply framed_modify. auto with frames. Qed.

Lemma framed_external c effect :
  c ≠ SshClose → framed keeps effect → framed keeps (external c effect).
Proof.
  intros Hc He. unfold external. apply framed_bind; [apply _| |].
  - intros w. unfold next_fault. destruct (env w); simpl; [reflexivity|auto with frames].
  - intros [e|].
    + apply framed_bind; [apply _|apply framed_modify; auto with frames|].
      intros _. apply framed_raise, _.
    + apply framed_try_except; [apply _| |].
      * apply framed_bind; [apply _|done|]. intros o.
        apply framed_modify. auto with frames.
      * intros e. apply framed_bind; [apply _|apply framed_modify; auto with frames|].
        intros _. apply framed_raise, _.
Qed.

#[local] Arguments Remote.sh_exec : simpl never.
#[local] Arguments Remote.sh_run : simpl never.

(** *** The host at work *)

Section Host.
Variable home : list string.
Variable pace : tempo.
Variable beyond : string → Remote.node → Z * Remote.node.

Local Abbreviation run_pending := (run_pending home beyond).
Local Abbreviation host_runs := (host_runs home pace beyond).
Local Abbreviation dispatched := (dispatched home pace beyond).
Local Abbreviation failed := (failed home pace beyond).
Local Abbreviation prompt := (prompt pace).
Local Abbreviation all_or_nothing := (all_or_nothing pace).

(** Whatever holds of every single step of the host holds of what the
    host does during a call, and of handing a command over. *)
Lemma host_runs_by (R : relation world) `{!PreOrder R} w :
  (∀ k w, R w (run_pending k w)) → R w (host_runs w).
Proof.
  intros Hrun. unfold Deploy.host_runs.
  generalize (runs pace (length (trace w))). intros ks. revert w.
  induction ks as [|k ks IH]; intros w; simpl; [reflexivity|].
  etransitivity; [apply Hrun|apply IH].
Qed.

Lemma dispatched_by (R : relation world) `{!PreOrder R} cmd w :
  (∀ x w, R w (set_env x w)) →
  (∀ w, R w (add_pending cmd w)) →
  (∀ k w, R w (run_pending k w)) →
  (∀ w, R w (add_trace (ExecCommand cmd) Returned w)) →
  R w (dispatched cmd w).
Proof.
  intros Henv Hpend Hrun Htrace. unfold Deploy.dispatched.
  set (w1 := set_env (tail (env w)) w). set (w2 := add_pending cmd w1).
  transitivity w1; [apply Henv|]. transitivity w2; [apply Hpend|].
  transitivity (host_runs w2); [by apply host_runs_by|apply Htrace].
Qed.

Lemma failed_by (R : relation world) `{!PreOrder R} cmd e w :
  (∀ x w, R w (set_env x w)) →
  (∀ w, R w (add_pending cmd w)) →
  (∀ k w, R w (run_pending k w)) →
  (∀ w, R w (add_trace (ExecCommand cmd) (Raised e) w)) →
  R w (failed cmd e w).
Proof.
  intros Henv Hpend Hrun Htrace. unfold Deploy.failed. cbv zeta.
  set (w1 := set_env (tail (env w)) w). set (w2 := add_pending cmd w1).
  transitivity w1; [apply Henv|].
  destruct (reaches pace (length (trace w))); [|apply Htrace].
  transitivity w2; [apply Hpend|].
  transitivity (host_runs w2); [by apply host_runs_by|apply Htrace].
Qed.

(** When the command of a call that raised is lost, the call has left
    nothing but its trace. *)
Lemma failed_lost cmd e w :
  reaches pace (length (trace w)) = false →
  failed cmd e w = refused (ExecCommand cmd) e w.
Proof. intros H. unfold Deploy.failed, refused. cbv zeta. by rewrite H. Qed.

(** The host touches nothing of the world but its own tree and its own
    two lists. *)
Lemma run_pending_fields k w :
  env (run_pending k w) = env w ∧
  session_state (run_pending k w) = session_state w ∧
  trace (run_pending k w) = trace w ∧
  log (run_pending k w) = log w ∧
  ssh_var (run_pending k w) = ssh_var w.
Proof. unfold Deploy.run_pending. by destruct (pending w !! k). Qed.

Lemma host_runs_fields w :
  env (host_runs w) = env w ∧
  session_state (host_runs w) = session_state w ∧
  trace (host_runs w) = trace w ∧
  log (host_runs w) = log w ∧
  ssh_var (host_runs w) = ssh_var w.
Proof.
  unfold Deploy.host_runs. generalize (runs pace (length (trace w))).
  intros ks. revert w. induction ks as [|k ks IH]; intros w; simpl; [done|].
  destruct (IH (run_pending k w)) as (-> & -> & -> & -> & ->).
  apply run_pending_fields.
Qed.

Lemma dispatched_env cmd w : env (dispatched cmd w) = tail (env w).
Proof.
  unfold Deploy.dispatched. simpl.
  by destruct (host_runs_fields (add_pending cmd (set_env (tail (env w)) w)))
    as (-> & _).
Qed.

Lemma dispatched_trace cmd w :
  trace (dispatched cmd w) = trace w ++ [(ExecCommand cmd, Returned)].
Proof.
  unfold Deploy.dispatched. simpl.
  by destruct (host_runs_fields (add_pending cmd (set_env (tail (env w)) w)))
    as (_ & _ & -> & _).
Qed.

Lemma dispatched_log cmd w : log (dispatched cmd w) = log w.
Proof.
  unfold Deploy.dispatched. simpl.
  by destruct (host_runs_fields (add_pending cmd (set_env (tail (env w)) w)))
    as (_ & _ & _ & -> & _).
Qed.

Lemma dispatched_session cmd w :
  session_state (dispatched cmd w) = session_state w.
Proof.
  unfold Deploy.dispatched. simpl.
  by destruct (host_runs_fields (add_pending cmd (set_env (tail (env w)) w)))
    as (_ & -> & _).
Qed.

Lemma dispatched_ssh_var cmd w : ssh_var (dispatched cmd w) = ssh_var w.
Proof.
  unfold Deploy.dispatched. simpl.
  by destruct (host_runs_fields (add_pending cmd (set_env (tail (env w)) w)))
    as (_ & _ & _ & _ & ->).
Qed.

Lemma failed_fields cmd e w :
  env (failed cmd e w) = tail (env w) ∧
  session_state (failed cmd e w) = session_state w ∧
  trace (failed cmd e w) = trace w ++ [(ExecCommand cmd, Raised e)] ∧
  log (failed cmd e w) = log w ∧
  ssh_var (failed cmd e w) = ssh_var w.
Proof.
  unfold Deploy.failed. cbv zeta.
  destruct (reaches pace (length (trace w))); [|done]. simpl.
  by destruct (host_runs_fields (add_pending cmd (set_env (tail (env w)) w)))
    as (-> & -> & -> & -> & ->).
Qed.

Lemma failed_env cmd e w : env (failed cmd e w) = tail (env w).
Proof. by destruct (failed_fields cmd e w) as (-> & _). Qed.

Lemma failed_trace cmd e w :
  trace (failed cmd e w) = trace w ++ [(ExecCommand cmd, Raised e)].
Proof. by destruct (failed_fields cmd e w) as (_ & _ & -> & _). Qed.

Lemma failed_log cmd e w : log (failed cmd e w) = log w.
Proof. by destruct (failed_fields cmd e w) as (_ & _ & _ & -> & _). Qed.

Lemma host_runs_trace w : trace (host_runs w) = trace w.
Proof. by destruct (host_runs_fields w) as (_ & _ & -> & _). Qed.

Lemma run_pending_keeps k w : keeps w (run_pending k w).
Proof.
  destruct (run_pending_fields k w) as (_ & Hs & Ht & _ & Hv).
  repeat split; [done..|]. exists []. by rewrite app_nil_r.
Qed.

(** *** A prompt host *)

(** With nothing pending, the host has nothing to do during a call. *)
Lemma host_runs_idle w : prompt w → host_runs w = w.
Proof.
  intros [Hp Hpace]. unfold Deploy.host_runs. rewrite Hpace by done. simpl.
  unfold Deploy.run_pending. by rewrite Hp.
Qed.

(** A prompt host runs the command it is handed before the call
    returns, and is prompt again afterwards. *)
Lemma dispatched_prompt cmd w :
  prompt w →
  let r := Remote.sh_run beyond home cmd (remote w) in
  dispatched cmd w =
  World (tail (env w)) (session_state w) r.2 [] (finished w ++ [(cmd, r.1)])
    (trace w ++ [(ExecCommand cmd, Returned)]) (log w) (ssh_var w).
Proof.
  intros [Hp Hpace]. unfold Deploy.dispatched, Deploy.host_runs. simpl.
  rewrite Hpace by done. simpl. unfold Deploy.run_pending. simpl.
  by rewrite Hp.
Qed.

Lemma prompt_dispatched cmd w : prompt w → prompt (dispatched cmd w).
Proof.
  intros Hw. rewrite dispatched_prompt by done. destruct Hw as [Hp Hpace].
  split; [done|]. simpl. intros n Hn. rewrite length_app in Hn. simpl in Hn.
  apply Hpace. lia.
Qed.

Lemma prompt_same w w' :
  pending w' = pending w → (∃ evs, trace w' = trace w ++ evs) →
  prompt w → prompt w'.
Proof.
  intros Hp [evs Ht] [Hw Hpace]. split; [congruence|].
  intros n Hn. apply Hpace. rewrite Ht, length_app in Hn. lia.
Qed.

Lemma prompt_log l msg w : prompt w → prompt (add_log l msg w).
Proof. apply prompt_same; [done|]. exists []. simpl. by rewrite app_nil_r. Qed.

Lemma prompt_env x w : prompt w → prompt (set_env x w).
Proof. apply prompt_same; [done|]. exists []. simpl. by rewrite app_nil_r. Qed.

Lemma prompt_remote x w : prompt w → prompt (set_remote x w).
Proof. apply prompt_same; [done|]. exists []. simpl. by rewrite app_nil_r. Qed.

Lemma prompt_trace c o w : prompt w → prompt (add_trace c o w).
Proof. apply prompt_same; [done|]. by eexists. Qed.

Lemma prompt_refused c e w : prompt w → prompt (refused c e w).
Proof. intros Hw. by apply prompt_trace, prompt_env. Qed.

(** A prompt host runs the command of a call that raised as well, when
    the command has reached it. *)
Lemma failed_prompt cmd e w :
  prompt w →
  let r := Remote.sh_run beyond home cmd (remote w) in
  failed cmd e w =
  if reaches pace (length (trace w)) then
    World (tail (env w)) (session_state w) r.2 [] (finished w ++ [(cmd, r.1)])
      (trace w ++ [(ExecCommand cmd, Raised e)]) (log w) (ssh_var w)
  else refused (ExecCommand cmd) e w.
Proof.
  intros [Hp Hpace]. unfold Deploy.failed, Deploy.host_runs. cbv zeta.
  destruct (reaches pace (length (trace w))); [|done]. simpl.
  rewrite Hpace by done. simpl. unfold Deploy.run_pending. simpl.
  by rewrite Hp.
Qed.

Lemma prompt_failed cmd e w : prompt w → prompt (failed cmd e w).
Proof.
  intros Hw. rewrite failed_prompt by done. cbv zeta.
  destruct (reaches pace (length (trace w))); [|by apply prompt_refused].
  destruct Hw as [Hp Hpace].
  split; [done|]. simpl. intros n Hn. rewrite length_app in Hn. simpl in Hn.
  apply Hpace. lia.
Qed.

(** Commands of calls that raise stay lost as the run goes on. *)
Lemma all_or_nothing_same w w' :
  (∃ evs, trace w' = trace w ++ evs) → all_or_nothing w → all_or_nothing w'.
Proof.
  intros [evs Ht] Hw n Hn. apply Hw. rewrite Ht, length_app in Hn. lia.
Qed.

Lemma all_or_nothing_log l msg w :
  all_or_nothing w → all_or_nothing (add_log l msg w).
Proof. apply all_or_nothing_same. exists []. simpl. by rewrite app_nil_r. Qed.

Lemma all_or_nothing_dispatched cmd w :
  all_or_nothing w → all_or_nothing (dispatched cmd w).
Proof. apply all_or_nothing_same. rewrite dispatched_trace. by eexists. Qed.

Lemma all_or_nothing_failed cmd e w :
  all_or_nothing w → all_or_nothing (failed cmd e w).
Proof. apply all_or_nothing_same. rewrite failed_trace. by eexists. Qed.

Lemma all_or_nothing_here w :
  all_or_nothing w → reaches pace (length (trace w)) = false.
Proof. intros Hw. by apply Hw. Qed.

(** *** What the host has run *)

Lemma replayed_app t news1 t1 news2 t2 :
  replayed home beyond t news1 t1 → replayed home beyond t1 news2 t2 →
  replayed home beyond t (news1 ++ news2) t2.
Proof.
  revert t. induction news1 as [|[cmd st] news1 IH]; intros t; simpl.
  - by intros ->.
  - intros [-> H1] H2. split; [done|]. by apply IH.
Qed.

#[local] Instance ran_preorder : PreOrder (ran home beyond).
Proof.
  split.
  - intros w. exists []. by rewrite app_nil_r.
  - intros w1 w2 w3 (n1 & Hf1 & Hr1) (n2 & Hf2 & Hr2).
    exists (n1 ++ n2). rewrite Hf2, Hf1, app_assoc. split; [done|].
    by eapply replayed_app.
Qed.

Lemma ran_same w w' :
  remote w' = remote w → finished w' = finished w → ran home beyond w w'.
Proof. intros Hr Hf. exists []. by rewrite app_nil_r. Qed.

Lemma run_pending_ran k w : ran home beyond w (run_pending k w).
Proof.
  unfold Deploy.run_pending. destruct (pending w !! k) as [cmd|]; [|reflexivity].
  eexists [_]. split; [reflexivity|]. by simpl.
Qed.

Lemma dispatched_ran cmd w : ran home beyond w (dispatched cmd w).
Proof.
  apply dispatched_by; [apply _|intros; by apply ran_same..|
                        apply run_pending_ran|intros; by apply ran_same].
Qed.

Lemma failed_ran cmd e w : ran home beyond w (failed cmd e w).
Proof.
  apply failed_by; [apply _|intros; by apply ran_same..|
                    apply run_pending_ran|intros; by apply ran_same].
Qed.

End Host.

#[local] Existing Instance ran_preorder.

Section Script.
Variable DEPLOY_PATH : string.
Variable home : list string.
Variable pace : tempo.
Variable beyond : string → Remote.node → Z * Remote.node.
Variable cwd : string.
Variable local_fs : Local.node.

Local Abbreviation exec_command := (exec_command home pace beyond).
Local Abbreviation dispatched := (dispatched home pace beyond).
Local Abbreviation failed := (failed home pace beyond).
Local Abbreviation host_runs := (host_runs home pace beyond).
Local Abbreviation prompt := (prompt pace).
Local Abbreviation all_or_nothing := (all_or_nothing pace).
Local Abbreviation ran := (ran home beyond).
Local Abbreviation switch_body := (switch_body DEPLOY_PATH home pace beyond).
Local Abbreviation switch_handler := (switch_handler DEPLOY_PATH home pace beyond).
Local Abbreviation switch_to_new_version :=
  (switch_to_new_version DEPLOY_PATH home pace beyond).
Local Abbreviation transfer_files :=
  (transfer_files DEPLOY_PATH home pace beyond cwd local_fs).
Local Abbreviation restart_server_services :=
  (restart_server_services home pace beyond).
Local Abbreviation main := (main DEPLOY_PATH home pace beyond cwd local_fs).
Local Abbreviation main_body := (main_body DEPLOY_PATH home pace beyond cwd local_fs).
Local Abbreviation stages := (stages DEPLOY_PATH home pace beyond cwd local_fs).
Local Abbreviation backup_cmd := (backup_cmd DEPLOY_PATH).
Local Abbreviation promote_cmd := (promote_cmd DEPLOY_PATH).
Local Abbreviation cleanup_cmd := (cleanup_cmd DEPLOY_PATH).
Local Abbreviation rollback_cmd := (rollback_cmd DEPLOY_PATH).
Local Abbreviation temp_dir := (temp_dir DEPLOY_PATH).
Local Abbreviation backup_dir := (backup_dir DEPLOY_PATH).

#[local] Arguments Deploy.dispatched : simpl never.
#[local] Arguments Deploy.failed : simpl never.

(** [exec_command] either raises what the transport says, the command
    lost or handed over all the same, or hands the command over and
    returns, whether or not the host has run the command by then. *)
Lemma exec_command_spec ssh cmd w :
  exec_command ssh cmd w =
  match head (env w) with
  | Some (Some e) => (Raise e, failed cmd e w)
  | _ => (Ok tt, dispatched cmd w)
  end.
Proof.
  unfold Deploy.exec_command, hand_over, bind, next_fault, get, modify, ret,
    raise, Deploy.dispatched, Deploy.failed.
  destruct w as [[|[e|] rest] s r p f t l v]; cbn [env head tail]; try done.
  cbn [trace set_env]. by destruct (reaches pace (length t)).
Qed.

(** Whatever holds of every step of the host and of the bookkeeping of
    a call holds of [exec_command], however it ends. *)
Lemma framed_exec_by (R : relation world) `{!PreOrder R} ssh cmd :
  (∀ x w, R w (set_env x w)) →
  (∀ w, R w (add_pending cmd w)) →
  (∀ k w, R w (Deploy.run_pending home beyond k w)) →
  (∀ o w, R w (add_trace (ExecCommand cmd) o w)) →
  framed R (exec_command ssh cmd).
Proof.
  intros Henv Hpend Hrun Htrace w. rewrite exec_command_spec.
  destruct (head (env w)) as [[e|]|]; cbn [snd];
    [by apply failed_by|by apply dispatched_by..].
Qed.

Lemma exec_command_calm ssh cmd n w :
  calm (S n) w →
  exec_command ssh cmd w = (Ok tt, dispatched cmd w) ∧
  calm n (dispatched cmd w).
Proof.
  intros Hc. rewrite exec_command_spec. unfold calm in *.
  rewrite dispatched_env.
  destruct (env w) as [|f rest]; simpl in *.
  - split; [done|]. by rewrite take_nil.
  - apply Forall_cons in Hc as [-> Hc]. done.
Qed.

Lemma host_runs_keeps w : keeps w (host_runs w).
Proof. apply host_runs_by; [apply _|]. apply run_pending_keeps. Qed.

#[local] Hint Resolve host_runs_keeps : frames.

Lemma framed_exec_command ssh cmd : framed keeps (exec_command ssh cmd).
Proof.
  apply framed_exec_by; [apply _|auto with frames..| |];
    [apply run_pending_keeps|intros; by apply keeps_trace].
Qed.

Ltac frame_step :=
  lazymatch goal with
  | |- framed _ (logger_info _) => apply framed_logger_info
  | |- framed _ (logger_error _) => apply framed_logger_error
  | |- framed _ (Deploy.exec_command _ _ _ _ _) => apply framed_exec_command
  | |- framed _ (ret _) => apply framed_ret, _
  | |- framed _ (raise _) => apply framed_raise, _
  | |- framed _ get => apply framed_get, _
  | |- framed _ (external _ _) => apply framed_external; [done|]
  | |- framed _ (bind _ _) => apply framed_bind; [apply _| |intros ?]
  | |- framed _ (try_except _ _) => apply framed_try_except; [apply _| |intros ?]
  | |- framed _ (for_each _ _) => apply framed_for_each; [apply _|intros ?]
  | |- framed _ (modify _) => apply framed_modify; intros ?; auto with frames
  | |- framed _ (let _ := _ in _) => cbv zeta
  | |- framed _ (match ?x with _ => _ end) => destruct x
  end.

Ltac frame := repeat frame_step.

Lemma framed_transfer_files ssh : framed keeps (transfer_files ssh).
Proof.
  unfold Deploy.transfer_files, open_sftp, sftp_close, transfer_one, sftp_put.
  frame.
Qed.

Lemma framed_switch ssh : framed keeps (switch_to_new_version ssh).
Proof.
  unfold Deploy.switch_to_new_version, Deploy.switch_body, Deploy.switch_handler.
  frame.
Qed.

Lemma framed_restart ssh : framed keeps (restart_server_services ssh).
Proof. unfold Deploy.restart_server_services. frame. Qed.

Lemma framed_stages ssh : framed keeps (stages ssh).
Proof.
  unfold Deploy.stages. frame;
    [apply framed_transfer_files|apply framed_switch|apply framed_restart].
Qed.

(** *** The swap stage, call by call *)

Lemma switch_body_cases ssh w :
  switch_body ssh w =
  let w0 := swap_started w in
  match head (env w0) with
  | Some (Some e) => (Raise e, failed backup_cmd e w0)
  | _ =>
      let w1 := dispatched backup_cmd w0 in
      match head (env w1) with
      | Some (Some e) => (Raise e, failed promote_cmd e w1)
      | _ =>
          let w2 := dispatched promote_cmd w1 in
          match head (env w2) with
          | Some (Some e) => (Raise e, failed cleanup_cmd e w2)
          | _ =>
              (Ok tt,
               add_log INFO "Switched to the new version successfully."
                 (dispatched cleanup_cmd w2))
          end
      end
  end.
Proof.
  unfold Deploy.switch_body, bind, logger_info, modify, swap_started.
  cbv beta iota. rewrite exec_command_spec.
  destruct (head (env (add_log _ _ w))) as [[e|]|]; try reflexivity;
    rewrite exec_command_spec;
    destruct (head (env (dispatched _ _))) as [[e|]|]; try reflexivity;
    rewrite exec_command_spec;
    destruct (head (env (dispatched _ _))) as [[e|]|]; reflexivity.
Qed.

Lemma switch_handler_cases ssh e w :
  switch_handler ssh e w =
  let w0 := rollback_started e w in
  match head (env w0) with
  | Some (Some e') => (Raise e', failed rollback_cmd e' w0)
  | _ => (Raise e, add_log INFO "Rollback completed." (dispatched rollback_cmd w0))
  end.
Proof.
  unfold Deploy.switch_handler, bind, logger_info, logger_error, modify, rollback_started.
  cbv beta iota. rewrite exec_command_spec.
  destruct (head (env (add_log _ _ _))) as [[e'|]|]; reflexivity.
Qed.

Lemma switch_handler_raises ssh e w :
  ∃ e' w', switch_handler ssh e w = (Raise e', w').
Proof.
  rewrite switch_handler_cases. cbv zeta.
  destruct (head (env _)) as [[e'|]|]; eauto.
Qed.

Lemma switch_ok_inv ssh w w' :
  switch_to_new_version ssh w = (Ok tt, w') → switch_body ssh w = (Ok tt, w').
Proof. apply try_except_ok_inv. intros e w1. apply switch_handler_raises. Qed.

Lemma calm_step n w w' :
  calm (S n) w → env w' = tail (env w) →
  (head (env w) = None ∨ head (env w) = Some None) ∧ calm n w'.
Proof.
  unfold calm. intros Hc ->. destruct (env w) as [|f rest]; simpl in *.
  - split; [by left|]. by rewrite take_nil.
  - apply Forall_cons in Hc as [-> Hc]. split; [by right|done].
Qed.

Lemma switch_body_calm ssh w :
  calm 3 w →
  switch_body ssh w =
  (Ok tt,
   add_log INFO "Switched to the new version successfully."
     (dispatched cleanup_cmd
        (dispatched promote_cmd
           (dispatched backup_cmd (swap_started w))))).
Proof.
  intros Hc. rewrite switch_body_cases. cbv zeta.
  set (w0 := swap_started w).
  set (w1 := dispatched backup_cmd w0).
  set (w2 := dispatched promote_cmd w1).
  destruct (calm_step 2 w w1 Hc (dispatched_env _ _ _ _ _)) as [H0 Hc1].
  destruct (calm_step 1 w1 w2 Hc1 (dispatched_env _ _ _ _ _)) as [H1 Hc2].
  destruct (calm_step 0 w2 (dispatched cleanup_cmd w2) Hc2
              (dispatched_env _ _ _ _ _)) as [H2 _].
  change (env w0) with (env w).
  by destruct H0 as [-> | ->], H1 as [-> | ->], H2 as [-> | ->].
Qed.

Lemma switch_body_ok_trace ssh w w' :
  switch_body ssh w = (Ok tt, w') →
  trace w' = trace w ++
    [(ExecCommand backup_cmd, Returned); (ExecCommand promote_cmd, Returned);
     (ExecCommand cleanup_cmd, Returned)].
Proof.
  rewrite switch_body_cases. cbv zeta.
  repeat (match goal with
          | |- context [head (env ?x)] => destruct (head (env x)) as [[?|]|]
          end; try discriminate);
    intros [= <-]; cbn [trace add_log]; rewrite !dispatched_trace; simpl;
    by rewrite <- !app_assoc.
Qed.

(** C3. The swap stage hands exactly three commands to the host, in this
    order: rename live to backup, rename staging to live, delete backup.
    It only needs the transport to accept the three calls: whatever the
    host's file tree is, whether or not the host has run, or even started,
    the commands handed over before, and whatever exit status they end
    with, the next command is issued and the stage returns normally. *)
Theorem swap_issues_three_commands ssh w :
  calm 3 w →
  ∃ w',
    switch_to_new_version ssh w = (Ok tt, w') ∧
    trace w' = trace w ++
      [(ExecCommand ("mv " +:+ DEPLOY_PATH +:+ " " +:+ DEPLOY_PATH +:+ "_backup"),
        Returned);
       (ExecCommand ("mv " +:+ (DEPLOY_PATH +:+ "_temp") +:+ " " +:+ DEPLOY_PATH),
        Returned);
       (ExecCommand ("rm -rf " +:+ DEPLOY_PATH +:+ "_backup"), Returned)].
Proof.
  intros Hc. eexists.
  unfold Deploy.switch_to_new_version, try_except.
  rewrite (switch_body_calm ssh w Hc). split; [reflexivity|].
  cbn [trace add_log]. rewrite !dispatched_trace. simpl.
  rewrite <- !app_assoc. reflexivity.
Qed.

(** The exception a failed swap ends with, and the rollback call. *)
Lemma switch_after_raise ssh w e w1 :
  switch_body ssh w = (Raise e, w1) →
  switch_to_new_version ssh w = switch_handler ssh e w1.
Proof. intros Hb. unfold Deploy.switch_to_new_version, try_except. by rewrite Hb. Qed.

(** C4, as the code has it. When the body of the swap stage raises [e],
    the handler makes exactly one more call, the rollback command
    [mv backup live]; if that call goes through, [e] is re-raised; if the
    call itself raises [e'], it is [e'] that reaches the caller. The stage
    never returns normally. *)
Theorem swap_failure_rolls_back_once ssh w e w1 :
  switch_body ssh w = (Raise e, w1) →
  ∃ o r w',
    switch_to_new_version ssh w = (Raise r, w') ∧
    trace w' = trace w1 ++
      [(ExecCommand ("mv " +:+ (DEPLOY_PATH +:+ "_backup") +:+ " " +:+ DEPLOY_PATH), o)] ∧
    ((o = Returned ∧ r = e) ∨ (o = Raised r)).
Proof.
  intros Hb. rewrite (switch_after_raise _ _ _ _ Hb), switch_handler_cases.
  cbv zeta. destruct (head (env (rollback_started e w1))) as [[e'|]|];
    do 3 eexists; (split; [reflexivity|]);
    cbn [trace add_log]; rewrite ?dispatched_trace, ?failed_trace; simpl; eauto.
Qed.

(** *** What the host has run during a stage *)

Lemma framed_ran_exec ssh cmd : framed ran (exec_command ssh cmd).
Proof.
  intros w. rewrite exec_command_spec.
  destruct (head (env w)) as [[e|]|]; simpl;
    [apply failed_ran|apply dispatched_ran..].
Qed.

Ltac ran_step :=
  lazymatch goal with
  | |- framed _ (logger_info _) =>
      apply framed_modify; intros ?; by apply ran_same
  | |- framed _ (logger_error _) =>
      apply framed_modify; intros ?; by apply ran_same
  | |- framed _ (Deploy.exec_command _ _ _ _ _) => apply framed_ran_exec
  | |- framed _ (ret _) => apply framed_ret, _
  | |- framed _ (raise _) => apply framed_raise, _
  | |- framed _ (bind _ _) => apply framed_bind; [apply _| |intros ?]
  | |- framed _ (try_except _ _) => apply framed_try_except; [apply _| |intros ?]
  end.

(** The swap stage changes the host's tree by nothing but the commands
    the host runs meanwhile. *)
Lemma framed_ran_switch ssh : framed ran (switch_to_new_version ssh).
Proof.
  unfold Deploy.switch_to_new_version, Deploy.switch_body, Deploy.switch_handler.
  repeat ran_step.
Qed.

(** *** What the swap does to the host's tree *)

Section Swap.
Hypothesis path_fine : Remote.path_ok DEPLOY_PATH = true.

Local Abbreviation dir := (Remote.parent_of home DEPLOY_PATH).
Local Abbreviation live := (Remote.leaf DEPLOY_PATH).
Local Abbreviation staging := (Remote.leaf DEPLOY_PATH +:+ "_temp").
Local Abbreviation backup := (Remote.leaf DEPLOY_PATH +:+ "_backup").
Local Abbreviation sh_run := (Remote.sh_run beyond home).

Lemma deploy_path_plain :
  Remote.sh_plain DEPLOY_PATH = true ∧
  Remote.sh_plain (DEPLOY_PATH +:+ "_temp") = true ∧
  Remote.sh_plain (DEPLOY_PATH +:+ "_backup") = true.
Proof.
  assert (Remote.sh_plain DEPLOY_PATH = true) as Hp.
  { revert path_fine. unfold Remote.path_ok. rewrite !andb_true_iff.
    by intros [[[? _] _] _]. }
  split_and!; [done|by apply RemoteFacts.sh_plain_suffix..].
Qed.

(** The four commands are command lines the model speaks for. *)
Lemma swap_cmds_known :
  Remote.sh_known backup_cmd = true ∧ Remote.sh_known promote_cmd = true ∧
  Remote.sh_known cleanup_cmd = true ∧ Remote.sh_known rollback_cmd = true.
Proof.
  destruct deploy_path_plain as (H1 & H2 & H3).
  unfold Deploy.backup_cmd, Deploy.promote_cmd, Deploy.cleanup_cmd,
    Deploy.rollback_cmd, Deploy.backup_dir, Deploy.temp_dir.
  split_and!; by (apply RemoteFacts.sh_known_mv || apply RemoteFacts.sh_known_rm_rf).
Qed.

Lemma exec_backup t :
  sh_run backup_cmd t =
  match Remote.fs_mv (dir ++ [live]) (dir ++ [backup]) t with
  | Some t' => (0%Z, t')
  | None => (1%Z, t)
  end.
Proof.
  destruct deploy_path_plain as (H1 & H2 & H3).
  destruct (RemoteFacts.swap_paths home _ path_fine) as (R1 & R2 & R3 & _).
  rewrite RemoteFacts.sh_run_known by apply swap_cmds_known.
  unfold Deploy.backup_cmd, Deploy.backup_dir.
  by rewrite RemoteFacts.sh_exec_mv, R1, R3.
Qed.

Lemma exec_promote t :
  sh_run promote_cmd t =
  match Remote.fs_mv (dir ++ [staging]) (dir ++ [live]) t with
  | Some t' => (0%Z, t')
  | None => (1%Z, t)
  end.
Proof.
  destruct deploy_path_plain as (H1 & H2 & H3).
  destruct (RemoteFacts.swap_paths home _ path_fine) as (R1 & R2 & R3 & _).
  rewrite RemoteFacts.sh_run_known by apply swap_cmds_known.
  unfold Deploy.promote_cmd, Deploy.temp_dir.
  by rewrite RemoteFacts.sh_exec_mv, R1, R2.
Qed.

Lemma exec_cleanup t :
  sh_run cleanup_cmd t =
  match Remote.fs_rm_rf (dir ++ [backup]) t with
  | Some t' => (0%Z, t')
  | None => (1%Z, t)
  end.
Proof.
  destruct deploy_path_plain as (H1 & H2 & H3).
  destruct (RemoteFacts.swap_paths home _ path_fine) as (R1 & R2 & R3 & _).
  rewrite RemoteFacts.sh_run_known by apply swap_cmds_known.
  unfold Deploy.cleanup_cmd, Deploy.backup_dir.
  by rewrite RemoteFacts.sh_exec_rm_rf, R3.
Qed.

Lemma exec_rollback t :
  sh_run rollback_cmd t =
  match Remote.fs_mv (dir ++ [backup]) (dir ++ [live]) t with
  | Some t' => (0%Z, t')
  | None => (1%Z, t)
  end.
Proof.
  destruct deploy_path_plain as (H1 & H2 & H3).
  destruct (RemoteFacts.swap_paths home _ path_fine) as (R1 & R2 & R3 & _).
  rewrite RemoteFacts.sh_run_known by apply swap_cmds_known.
  unfold Deploy.rollback_cmd, Deploy.backup_dir.
  by rewrite RemoteFacts.sh_exec_mv, R1, R3.
Qed.

Lemma switch_body_ok_inv ssh w w' :
  switch_body ssh w = (Ok tt, w') →
  w' = add_log INFO "Switched to the new version successfully."
         (dispatched cleanup_cmd
            (dispatched promote_cmd
               (dispatched backup_cmd (swap_started w)))).
Proof.
  rewrite switch_body_cases. cbv zeta.
  repeat (match goal with
          | |- context [head (env ?x)] => destruct (head (env x)) as [[?|]|]
          end; try discriminate);
    by intros [= <-].
Qed.

(** On a prompt host: the tree and the exit statuses after the three
    commands were handed over one after the other. *)
Lemma swap_dispatched_prompt w :
  prompt w →
  let r1 := sh_run backup_cmd (remote w) in
  let r2 := sh_run promote_cmd r1.2 in
  let r3 := sh_run cleanup_cmd r2.2 in
  let w' := add_log INFO "Switched to the new version successfully."
              (dispatched cleanup_cmd
                 (dispatched promote_cmd
                    (dispatched backup_cmd (swap_started w)))) in
  remote w' = r3.2 ∧
  finished w' = finished w ++
    [(backup_cmd, r1.1); (promote_cmd, r2.1); (cleanup_cmd, r3.1)] ∧
  prompt w'.
Proof.
  intros Hw. cbv zeta.
  assert (prompt (swap_started w)) as P0 by (by apply prompt_log).
  pose proof (prompt_dispatched home pace beyond backup_cmd _ P0) as P1.
  pose proof (prompt_dispatched home pace beyond promote_cmd _ P1) as P2.
  pose proof (prompt_dispatched home pace beyond cleanup_cmd _ P2) as P3.
  split_and!; [| |by apply prompt_log].
  - cbn [remote add_log].
    rewrite (dispatched_prompt home pace beyond cleanup_cmd _ P2). cbn [remote].
    rewrite (dispatched_prompt home pace beyond promote_cmd _ P1). cbn [remote].
    rewrite (dispatched_prompt home pace beyond backup_cmd _ P0). done.
  - cbn [finished add_log].
    rewrite (dispatched_prompt home pace beyond cleanup_cmd _ P2). cbn [remote finished].
    rewrite (dispatched_prompt home pace beyond promote_cmd _ P1). cbn [remote finished].
    rewrite (dispatched_prompt home pace beyond backup_cmd _ P0). cbn [remote finished].
    by rewrite <- !app_assoc.
Qed.

Lemma live_and_staging_share_parent t l s :
  Remote.fs_lookup (Remote.resolve home DEPLOY_PATH) t = Some l →
  Remote.fs_lookup (Remote.resolve home temp_dir) t = Some s →
  ∃ es, Remote.fs_lookup dir t = Some (Remote.Dir es) ∧
        es !! live = Some l ∧ es !! staging = Some s.
Proof.
  destruct (RemoteFacts.swap_paths home _ path_fine) as (R1 & R2 & R3 & _).
  unfold Deploy.temp_dir. rewrite R1, R2.
  intros (es & Hd & Hl)%RemoteFacts.fs_lookup_child_inv
         (es' & Hd' & Hs)%RemoteFacts.fs_lookup_child_inv.
  exists es. by simplify_eq.
Qed.

(** The tree after a swap whose three commands the host has run in the
    order they were sent, each with success. *)
Lemma swap_success_tree ssh w w' l s :
  Remote.fs_lookup (Remote.resolve home DEPLOY_PATH) (remote w) = Some l →
  Remote.fs_lookup (Remote.resolve home temp_dir) (remote w) = Some s →
  switch_to_new_version ssh w = (Ok tt, w') →
  finished w' = finished w ++
    [(backup_cmd, 0%Z); (promote_cmd, 0%Z); (cleanup_cmd, 0%Z)] →
  ∃ es, Remote.fs_lookup dir (remote w) = Some (Remote.Dir es) ∧
        remote w' =
        Remote.fs_subst dir
          (Remote.Dir (<[live := s]> (delete staging (delete backup es))))
          (remote w).
Proof.
  intros Hl Hs Hrun Hfin.
  destruct (live_and_staging_share_parent _ _ _ Hl Hs) as (es & Hd & Hel & Hes).
  destruct (RemoteFacts.swap_paths home _ path_fine) as (_ & _ & _ & N1 & N2 & N3).
  pose proof (framed_ran_switch ssh w) as (news & Hf & Hr).
  rewrite Hrun in Hf, Hr. cbn [snd] in Hf, Hr.
  rewrite Hfin in Hf. apply app_inv_head in Hf. subst news.
  cbn [replayed] in Hr. destruct Hr as (H1 & H2 & H3 & ->).
  exists es. split; [done|].
  rewrite exec_backup in *.
  destruct (Remote.fs_mv (dir ++ [live]) _ _) as [t1|] eqn:E1; [|done].
  cbn [fst snd] in *. rewrite exec_promote in *.
  destruct (Remote.fs_mv (dir ++ [staging]) _ _) as [t2|] eqn:E2; [|done].
  cbn [fst snd] in *. rewrite exec_cleanup in *.
  destruct (Remote.fs_rm_rf _ _) as [t3|] eqn:E3; [|done].
  cbn [fst snd]. eapply RemoteFacts.swap_in_directory; eauto.
Qed.

(** On a prompt host, a swap in a tree that has no backup yet succeeds
    once the transport lets its three calls through. *)
Lemma swap_clean_run ssh w l s :
  Remote.fs_lookup (Remote.resolve home DEPLOY_PATH) (remote w) = Some l →
  Remote.fs_lookup (Remote.resolve home temp_dir) (remote w) = Some s →
  Remote.fs_lookup (Remote.resolve home backup_dir) (remote w) = None →
  calm 3 w → prompt w →
  ∃ w', switch_to_new_version ssh w = (Ok tt, w') ∧
        finished w' = finished w ++
          [(backup_cmd, 0%Z); (promote_cmd, 0%Z); (cleanup_cmd, 0%Z)].
Proof.
  intros Hl Hs Hb Hc Hw.
  destruct (live_and_staging_share_parent _ _ _ Hl Hs) as (es & Hd & Hel & Hes).
  destruct (RemoteFacts.swap_paths home _ path_fine) as (_ & _ & R3 & N1 & N2 & N3).
  unfold Deploy.backup_dir in Hb. rewrite R3, (RemoteFacts.fs_lookup_child _ _ _ _ Hd) in Hb.
  destruct (RemoteFacts.swap_in_directory_runs dir live backup staging
              (remote w) es l s) as (t1 & t2 & t3 & E1 & E2 & E3); try done.
  eexists. unfold Deploy.switch_to_new_version, try_except.
  rewrite (switch_body_calm ssh w Hc). split; [reflexivity|].
  destruct (swap_dispatched_prompt w Hw) as (_ & -> & _).
  rewrite exec_backup, E1. cbn [fst snd]. rewrite exec_promote, E2. cbn [fst snd].
  by rewrite exec_cleanup, E3.
Qed.

(** C1, as the code has it. Given a live directory and a staging
    directory, after a run of the swap stage that returned normally, and
    provided that meanwhile the host has run the three commands, in the
    order they were sent and each with exit status 0, the live path holds
    exactly what staging held before, node for node and byte for byte;
    staging and backup are gone, and with the backup the former content
    of live; the rest of the parent directory is as it was. The stage
    itself neither waits for the commands nor looks at how they ended.
    In particular, when live is an empty directory, staging holds exactly
    [index.html], there is no backup and the host is prompt, the host
    does run the three commands that way and live holds exactly
    [index.html]. *)
Theorem swap_promotes_staging :
  (∀ ssh w w' l s,
     Remote.fs_lookup (Remote.resolve home DEPLOY_PATH) (remote w) = Some l →
     Remote.fs_lookup (Remote.resolve home temp_dir) (remote w) = Some s →
     switch_to_new_version ssh w = (Ok tt, w') →
     finished w' = finished w ++
       [(backup_cmd, 0%Z); (promote_cmd, 0%Z); (cleanup_cmd, 0%Z)] →
     Remote.fs_lookup (Remote.resolve home DEPLOY_PATH) (remote w') = Some s ∧
     Remote.fs_lookup (Remote.resolve home temp_dir) (remote w') = None ∧
     Remote.fs_lookup (Remote.resolve home backup_dir) (remote w') = None ∧
     ∃ es, Remote.fs_lookup dir (remote w) = Some (Remote.Dir es) ∧
           remote w' =
           Remote.fs_subst dir
             (Remote.Dir (<[live := s]> (delete staging (delete backup es))))
             (remote w)) ∧
  (∀ ssh w data,
     Remote.fs_lookup (Remote.resolve home DEPLOY_PATH) (remote w)
       = Some (Remote.Dir ∅) →
     Remote.fs_lookup (Remote.resolve home temp_dir) (remote w)
       = Some (Remote.Dir {[ "index.html" := Remote.File data ]}) →
     Remote.fs_lookup (Remote.resolve home backup_dir) (remote w) = None →
     calm 3 w → prompt w →
     ∃ w', switch_to_new_version ssh w = (Ok tt, w') ∧
           finished w' = finished w ++
             [(backup_cmd, 0%Z); (promote_cmd, 0%Z); (cleanup_cmd, 0%Z)] ∧
           Remote.fs_lookup (Remote.resolve home DEPLOY_PATH) (remote w')
             = Some (Remote.Dir {[ "index.html" := Remote.File data ]})).
Proof.
  assert (∀ ssh w w' l s,
     Remote.fs_lookup (Remote.resolve home DEPLOY_PATH) (remote w) = Some l →
     Remote.fs_lookup (Remote.resolve home temp_dir) (remote w) = Some s →
     switch_to_new_version ssh w = (Ok tt, w') →
     finished w' = finished w ++
       [(backup_cmd, 0%Z); (promote_cmd, 0%Z); (cleanup_cmd, 0%Z)] →
     Remote.fs_lookup (Remote.resolve home DEPLOY_PATH) (remote w') = Some s ∧
     Remote.fs_lookup (Remote.resolve home temp_dir) (remote w') = None ∧
     Remote.fs_lookup (Remote.resolve home backup_dir) (remote w') = None ∧
     ∃ es, Remote.fs_lookup dir (remote w) = Some (Remote.Dir es) ∧
           remote w' =
           Remote.fs_subst dir
             (Remote.Dir (<[live := s]> (delete staging (delete backup es))))
             (remote w)) as General.
  { intros ssh w w' l s Hl Hs Hrun Hfin.
    destruct (swap_success_tree _ _ _ _ _ Hl Hs Hrun Hfin) as (es & Hd & Hrem).
    destruct (RemoteFacts.swap_paths home _ path_fine)
      as (R1 & R2 & R3 & N1 & N2 & N3).
    assert (Hd' : Remote.fs_lookup dir (remote w') = Some
              (Remote.Dir (<[live := s]> (delete staging (delete backup es)))))
      by (rewrite Hrem; by eapply RemoteFacts.fs_subst_lookup).
    unfold Deploy.temp_dir, Deploy.backup_dir. rewrite R1, R2, R3.
    rewrite !(RemoteFacts.fs_lookup_child _ _ _ _ Hd').
    split_and!.
    - by rewrite lookup_insert_eq.
    - by rewrite lookup_insert_ne, lookup_delete_eq.
    - by rewrite lookup_insert_ne, lookup_delete_ne, lookup_delete_eq.
    - eauto. }
  split; [exact General|].
  intros ssh w data Hl Hs Hb Hc Hw.
  destruct (swap_clean_run ssh w _ _ Hl Hs Hb Hc Hw) as (w' & Hrun & Hfin).
  exists w'. split; [done|]. split; [done|].
  by destruct (General ssh w w' _ _ Hl Hs Hrun Hfin) as [? _].
Qed.

(** C2, as the code has it. There is a live directory and no backup;
    the first call goes through, the second raises, the rollback call
    goes through. The stage ends with the exception of the second call,
    and once the host has run the first rename and, after it, the
    rollback command, and nothing else, both have ended with exit status
    0 and the live path holds the content it held before the swap: the
    whole tree is as before. A prompt host does run the two in that
    order, and has nothing left to run, when the second rename was lost
    with the call that raised. *)
Theorem rollback_restores_live ssh w l e rest :
  Remote.fs_lookup (Remote.resolve home DEPLOY_PATH) (remote w) = Some l →
  Remote.fs_lookup (Remote.resolve home backup_dir) (remote w) = None →
  env w = None :: Some e :: None :: rest →
  ∃ w',
    switch_to_new_version ssh w = (Raise e, w') ∧
    trace w' = trace w ++
      [(ExecCommand backup_cmd, Returned); (ExecCommand promote_cmd, Raised e);
       (ExecCommand rollback_cmd, Returned)] ∧
    (∀ st1 st2,
       finished w' = finished w ++ [(backup_cmd, st1); (rollback_cmd, st2)] →
       st1 = 0%Z ∧ st2 = 0%Z ∧
       Remote.fs_lookup (Remote.resolve home DEPLOY_PATH) (remote w') = Some l ∧
       remote w' = remote w) ∧
    (prompt w → all_or_nothing w →
     finished w' = finished w ++ [(backup_cmd, 0%Z); (rollback_cmd, 0%Z)] ∧
     pending w' = []).
Proof.
  intros Hl Hb Henv.
  destruct (RemoteFacts.swap_paths home _ path_fine) as (R1 & _ & R3 & _ & N2 & _).
  unfold Deploy.backup_dir in Hb. rewrite R3 in Hb.
  pose proof Hl as Hl'. rewrite R1 in Hl'.
  apply RemoteFacts.fs_lookup_child_inv in Hl' as (es & Hd & Hel).
  rewrite (RemoteFacts.fs_lookup_child _ _ _ _ Hd) in Hb.
  destruct (RemoteFacts.rollback_in_directory dir live backup (remote w) es l)
    as (t1 & E1 & _ & _ & E2); try done.
  pose proof (framed_ran_switch ssh w) as Hran.
  set (w0 := swap_started w).
  set (w1 := dispatched backup_cmd w0).
  set (w2 := rollback_started e (failed promote_cmd e w1)).
  assert (switch_to_new_version ssh w =
          (Raise e, add_log INFO "Rollback completed." (dispatched rollback_cmd w2)))
    as Hrun.
  { unfold Deploy.switch_to_new_version, try_except.
    rewrite switch_body_cases. cbv zeta. fold w0.
    change (env w0) with (env w). rewrite Henv. cbn [head]. fold w1.
    replace (head (env w1)) with (Some (Some e))
      by (unfold w1; rewrite dispatched_env; change (env w0) with (env w);
          by rewrite Henv).
    rewrite switch_handler_cases. cbv zeta. fold w2.
    replace (head (env w2)) with (Some (@None exn)); [done|].
    unfold w2, w1. cbn [env rollback_started add_log].
    rewrite failed_env, dispatched_env. change (env w0) with (env w).
    by rewrite Henv. }
  rewrite Hrun in Hran. cbn [snd] in Hran.
  eexists. split; [exact Hrun|]. split_and!.
  - cbn [trace add_log]. rewrite dispatched_trace. unfold w2.
    cbn [trace rollback_started add_log]. rewrite failed_trace.
    unfold w1. rewrite dispatched_trace. change (trace w0) with (trace w).
    by rewrite <- !app_assoc.
  - intros st1 st2 Hfin. destruct Hran as (news & Hf & Hr).
    rewrite Hfin in Hf. apply app_inv_head in Hf. subst news.
    cbn [replayed] in Hr. destruct Hr as (H1 & H2 & Hrem).
    rewrite exec_backup, E1 in *. cbn [fst snd] in *.
    rewrite exec_rollback, E2 in *. cbn [fst snd] in *.
    split_and!; [done..| |done]. by rewrite Hrem.
  - intros Hw Hlost.
    assert (prompt w0) as P0 by (by apply prompt_log).
    pose proof (prompt_dispatched home pace beyond backup_cmd _ P0) as P1.
    fold w1 in P1.
    assert (failed promote_cmd e w1 = refused (ExecCommand promote_cmd) e w1)
      as Hf.
    { apply failed_lost, all_or_nothing_here. unfold w1.
      by apply all_or_nothing_dispatched, all_or_nothing_log. }
    assert (prompt w2) as P2
      by (unfold w2; rewrite Hf; by apply prompt_log, prompt_log, prompt_refused).
    cbn [finished pending add_log].
    rewrite (dispatched_prompt home pace beyond rollback_cmd _ P2).
    cbn [finished remote pending]. split; [|done]. unfold w2. rewrite Hf.
    cbn [finished remote rollback_started add_log refused add_trace set_env].
    unfold w1. rewrite (dispatched_prompt home pace beyond backup_cmd _ P0).
    cbn [finished remote]. change (remote w0) with (remote w).
    change (finished w0) with (finished w).
    rewrite exec_backup, E1. cbn [fst snd]. rewrite exec_rollback, E2.
    cbn [fst snd]. by rewrite <- !app_assoc.
Qed.

(** The rollback command is none of the three commands of the swap. *)
Lemma rollback_cmd_distinct :
  rollback_cmd ∉ [backup_cmd; promote_cmd; cleanup_cmd].
Proof.
  unfold Deploy.rollback_cmd, Deploy.backup_cmd, Deploy.promote_cmd,
    Deploy.cleanup_cmd, Deploy.backup_dir, Deploy.temp_dir.
  rewrite !elem_of_cons, elem_of_nil.
  intros [H|[H|[H|[]]]].
  - apply (PyFacts.append_inv_head "mv ") in H.
    rewrite PyFacts.append_assoc in H.
    apply PyFacts.append_inv_head in H. cbv in H. discriminate.
  - apply (PyFacts.append_inv_head "mv ") in H.
    rewrite !PyFacts.append_assoc in H.
    apply PyFacts.append_inv_head in H. cbv in H. discriminate.
  - cbv in H. discriminate.
Qed.

(** Promoting staging does not make a backup appear. *)
Lemma promote_keeps_no_backup t :
  Remote.fs_lookup (dir ++ [backup]) t = None →
  Remote.fs_lookup (dir ++ [backup]) (sh_run promote_cmd t).2 = None.
Proof.
  intros Hb. rewrite exec_promote.
  destruct (Remote.fs_mv _ _ t) as [t2|] eqn:E; [|done]. simpl.
  destruct (RemoteFacts.swap_paths home _ path_fine) as (_ & _ & _ & N1 & N2 & N3).
  destruct (Remote.fs_lookup (dir ++ [staging]) t) as [s|] eqn:Hs;
    [|by rewrite RemoteFacts.fs_mv_missing in E].
  apply RemoteFacts.fs_lookup_child_inv in Hs as (es & Hd & Hes).
  destruct (RemoteFacts.fs_mv_sibling_inv _ _ _ _ _ _ _ Hd (not_eq_sym N1) Hes E)
    as (es' & -> & _ & Hk).
  erewrite RemoteFacts.fs_lookup_child by (by eapply RemoteFacts.fs_subst_lookup).
  rewrite Hk by done. by rewrite <- (RemoteFacts.fs_lookup_child _ _ _ _ Hd).
Qed.

(** On a first deployment and a prompt host the swap body cannot make a
    backup, wherever it stops, and the host is prompt afterwards. *)
Lemma first_deploy_no_backup ssh w e w1 :
  Remote.fs_lookup (Remote.resolve home DEPLOY_PATH) (remote w) = None →
  Remote.fs_lookup (Remote.resolve home backup_dir) (remote w) = None →
  prompt w →
  switch_body ssh w = (Raise e, w1) →
  Remote.fs_lookup (dir ++ [backup]) (remote w1) = None ∧ prompt w1.
Proof.
  intros Hl Hb Hw.
  destruct (RemoteFacts.swap_paths home _ path_fine) as (R1 & _ & R3 & _).
  unfold Deploy.backup_dir in Hb. rewrite R1 in Hl. rewrite R3 in Hb.
  assert (H1 : sh_run backup_cmd (remote w) = (1%Z, remote w))
    by (by rewrite exec_backup, RemoteFacts.fs_mv_missing).
  assert (prompt (swap_started w)) as P0 by (by apply prompt_log).
  pose proof (prompt_dispatched home pace beyond backup_cmd _ P0) as P1.
  pose proof (prompt_dispatched home pace beyond promote_cmd _ P1) as P2.
  assert (remote (dispatched backup_cmd (swap_started w)) = remote w) as E1.
  { rewrite (dispatched_prompt home pace beyond backup_cmd _ P0). cbn [remote].
    change (remote (swap_started w)) with (remote w). by rewrite H1. }
  assert (Remote.fs_lookup (dir ++ [backup])
            (remote (dispatched promote_cmd
                       (dispatched backup_cmd (swap_started w)))) = None) as E2.
  { rewrite (dispatched_prompt home pace beyond promote_cmd _ P1). cbn [remote].
    rewrite E1. by apply promote_keeps_no_backup. }
  assert (∀ c e' w', prompt w' →
            Remote.fs_lookup (dir ++ [backup]) (remote w') = None →
            Remote.fs_lookup (dir ++ [backup]) (sh_run c (remote w')).2 = None →
            Remote.fs_lookup (dir ++ [backup]) (remote (failed c e' w')) = None ∧
            prompt (failed c e' w')) as Href.
  { intros c e' w' Hw' Hb' Hrun. split; [|by apply prompt_failed].
    rewrite failed_prompt by done. cbv zeta.
    by destruct (reaches pace (length (trace w'))). }
  assert (∀ t, Remote.fs_lookup (dir ++ [backup]) t = None →
               Remote.fs_lookup (dir ++ [backup]) (sh_run cleanup_cmd t).2 = None)
    as Hclean.
  { intros t Ht. rewrite exec_cleanup. unfold Remote.fs_rm_rf.
    destruct (dir ++ [backup]) eqn:Hp; [by destruct dir|]. by rewrite Ht. }
  rewrite switch_body_cases. cbv zeta.
  destruct (head (env (swap_started w))) as [[e0|]|].
  1: intros [= _ <-]; apply Href; [done|done|];
     change (remote (swap_started w)) with (remote w); by rewrite H1.
  all: destruct (head (env _)) as [[e1|]|].
  1,4: intros [= _ <-]; apply Href; [done|by rewrite E1|];
       rewrite E1; by apply promote_keeps_no_backup.
  all: destruct (head (env _)) as [[e2|]|]; try done.
  all: intros [= _ <-]; apply Href; [done|done|by apply Hclean].
Qed.

(** C5, as the code has it. On a first deployment (no live directory,
    no backup) the rollback command is attempted exactly when the body of
    the swap raises, and then without any check that a backup exists:
    - if the transport lets the three calls through, the three commands
      are issued, the stage returns normally, and the rollback command
      is none of the commands issued; once the host has run the three in
      the order they were sent, the first rename has ended with exit
      status 1, and a prompt host does run the other two all the same;
    - if the body raises, the handler issues the rollback command as its
      one call; on a prompt host, when it reaches the host it ends with
      exit status 1 and changes nothing, since there is no backup to
      rename. *)
Theorem first_deploy_rollback_only_on_exception ssh w :
  Remote.fs_lookup (Remote.resolve home DEPLOY_PATH) (remote w) = None →
  Remote.fs_lookup (Remote.resolve home backup_dir) (remote w) = None →
  (calm 3 w →
   ∃ w',
     switch_to_new_version ssh w = (Ok tt, w') ∧
     trace w' = trace w ++
       [(ExecCommand backup_cmd, Returned); (ExecCommand promote_cmd, Returned);
        (ExecCommand cleanup_cmd, Returned)] ∧
     (rollback_cmd ∉ [backup_cmd; promote_cmd; cleanup_cmd]) ∧
     (∀ st1 st2 st3,
        finished w' = finished w ++
          [(backup_cmd, st1); (promote_cmd, st2); (cleanup_cmd, st3)] →
        st1 = 1%Z) ∧
     (prompt w →
      ∃ st2 st3,
        finished w' = finished w ++
          [(backup_cmd, 1%Z); (promote_cmd, st2); (cleanup_cmd, st3)])) ∧
  (∀ e w1,
     switch_body ssh w = (Raise e, w1) →
     ∃ o r w',
       switch_to_new_version ssh w = (Raise r, w') ∧
       trace w' = trace w1 ++ [(ExecCommand rollback_cmd, o)] ∧
       (o = Returned ∧ r = e ∨ o = Raised r) ∧
       (prompt w →
        remote w' = remote w1 ∧
        (o = Returned → finished w' = finished w1 ++ [(rollback_cmd, 1%Z)]))).
Proof.
  intros Hl Hb. split.
  - intros Hc.
    destruct (RemoteFacts.swap_paths home _ path_fine) as (R1 & _).
    rewrite R1 in Hl.
    assert (∃ w', switch_to_new_version ssh w = (Ok tt, w') ∧
                  switch_body ssh w = (Ok tt, w')) as (w' & Hrun & Hbody).
    { eexists. unfold Deploy.switch_to_new_version, try_except.
      by rewrite (switch_body_calm ssh w Hc). }
    exists w'. split; [done|]. split_and!.
    + by apply (switch_body_ok_trace ssh).
    + apply rollback_cmd_distinct.
    + intros st1 st2 st3 Hfin.
      pose proof (framed_ran_switch ssh w) as (news & Hf & Hr).
      rewrite Hrun in Hf, Hr. cbn [snd] in Hf, Hr.
      rewrite Hfin in Hf. apply app_inv_head in Hf. subst news.
      cbn [replayed] in Hr. destruct Hr as (H1 & _).
      by rewrite exec_backup, RemoteFacts.fs_mv_missing in H1.
    + intros Hw. rewrite (switch_body_calm ssh w Hc) in Hbody.
      injection Hbody as <-.
      destruct (swap_dispatched_prompt w Hw) as (_ & -> & _).
      eexists _, _. by rewrite exec_backup, RemoteFacts.fs_mv_missing.
  - intros e w1 Hbody.
    rewrite (switch_after_raise _ _ _ _ Hbody), switch_handler_cases. cbv zeta.
    destruct (head (env (rollback_started e w1))) as [[e'|]|] eqn:Hh.
    + eexists _, _, _. split; [reflexivity|].
      split_and!; [by rewrite failed_trace|by right|].
      intros Hw. split; [|discriminate].
      destruct (first_deploy_no_backup _ _ _ _ Hl Hb Hw Hbody) as [Hb1 P1].
      assert (prompt (rollback_started e w1)) as P2
        by (by apply prompt_log, prompt_log).
      rewrite (failed_prompt home pace beyond rollback_cmd e' _ P2). cbv zeta.
      destruct (reaches pace _); [|done]. cbn [remote rollback_started add_log].
      by rewrite exec_rollback, RemoteFacts.fs_mv_missing.
    + eexists _, _, _. split; [reflexivity|]. split_and!.
      * cbn [trace add_log]. by rewrite dispatched_trace.
      * by left.
      * intros Hw.
        destruct (first_deploy_no_backup _ _ _ _ Hl Hb Hw Hbody) as [Hb1 P1].
        assert (prompt (rollback_started e w1)) as P2
          by (by apply prompt_log, prompt_log).
        cbn [remote finished add_log].
        rewrite (dispatched_prompt home pace beyond rollback_cmd _ P2).
        cbn [remote finished rollback_started add_log].
        by rewrite exec_rollback, RemoteFacts.fs_mv_missing.
    + eexists _, _, _. split; [reflexivity|]. split_and!.
      * cbn [trace add_log]. by rewrite dispatched_trace.
      * by left.
      * intros Hw.
        destruct (first_deploy_no_backup _ _ _ _ Hl Hb Hw Hbody) as [Hb1 P1].
        assert (prompt (rollback_started e w1)) as P2
          by (by apply prompt_log, prompt_log).
        cbn [remote finished add_log].
        rewrite (dispatched_prompt home pace beyond rollback_cmd _ P2).
        cbn [remote finished rollback_started add_log].
        by rewrite exec_rollback, RemoteFacts.fs_mv_missing.
Qed.

End Swap.

(** *** The driver *)

Lemma main_body_connected w :
  (∀ e, head (env w) ≠ Some (Some e)) →
  main_body (set_ssh_var None w) = stages Client (connected w).
Proof.
  intros Hw. destruct w as [[|[e|] rest] ss rem pd fin tr lg sv];
    [reflexivity|by destruct (Hw e)|reflexivity].
Qed.

Lemma main_finally_bound w ssh :
  ssh_var w = Some ssh →
  main_finally w =
  (Ok tt, add_log INFO "SSH connection closed."
            (add_trace SshClose Returned (set_session Closed w))).
Proof.
  intros Hv. unfold main_finally, bind, get. by rewrite Hv.
Qed.

(** Once connected, [main] returns normally whatever the stages do, and
    closes the session as its last call. *)
Lemma main_connected w :
  (∀ e, head (env w) ≠ Some (Some e)) →
  ∃ w2,
    keeps (connected w) w2 ∧
    main w =
    (Ok tt, add_log INFO "SSH connection closed."
              (add_trace SshClose Returned (set_session Closed w2))) ∧
    (∀ e w1, stages Client (connected w) = (Raise e, w1) →
             w2 = add_log ERROR ("❌ Deployment failed: " +:+ exn_str e) w1).
Proof.
  intros Hw. unfold Deploy.main, bind, modify, try_finally, try_except.
  rewrite (main_body_connected w Hw).
  pose proof (framed_stages Client (connected w)) as Hk.
  destruct (stages Client (connected w)) as [[[]|e] w1]; simpl in Hk.
  - exists w1. split; [done|]. split; [|done].
    rewrite (main_finally_bound w1 Client); [done|].
    by destruct Hk as (_ & -> & _).
  - exists (add_log ERROR ("❌ Deployment failed: " +:+ exn_str e) w1).
    assert (keeps (connected w)
              (add_log ERROR ("❌ Deployment failed: " +:+ exn_str e) w1)) as Hk'.
    { etransitivity; [exact Hk|apply keeps_log]. }
    split; [done|]. split; [|by intros ? ? [= <- <-]].
    unfold logger_error, modify.
    rewrite (main_finally_bound _ Client); [done|].
    by destruct Hk' as (_ & -> & _).
Qed.

(** The part of C6 that holds for the first script: an exception that
    escapes the transfer, swap or restart stage is logged by [main] and
    goes no further. *)
Lemma main_swallows_stage_failures faults host e w1 :
  (∀ e', head faults ≠ Some (Some e')) →
  stages Client (connected (boot faults host)) = (Raise e, w1) →
  ∃ w', main (boot faults host) = (Ok tt, w') ∧
        (ERROR, "❌ Deployment failed: " +:+ exn_str e) ∈ log w'.
Proof.
  intros Hf Hs. destruct (main_connected (boot faults host) Hf) as (w2 & _ & -> & Hw2).
  eexists. split; [reflexivity|]. rewrite (Hw2 e w1 Hs). simpl.
  rewrite !elem_of_app, !list_elem_of_singleton. auto.
Qed.

(** C6, where the code departs from it. When the connection stage
    raises, [main] logs the exception and then raises
    [UnboundLocalError] from its [finally] block, because the local name
    [ssh] was never bound: the failed run does signal failure to its
    caller. *)
Theorem connection_failure_escapes_main e rest host :
  ∃ w',
    main (boot (Some e :: rest) host) =
    (Raise (Exn "UnboundLocalError"
              "cannot access local variable 'ssh' where it is not associated with a value"),
     w') ∧
    trace w' = [(Connect, Raised e)] ∧
    log w' =
      [(INFO, "🚀 Starting auto-deployment script...");
       (INFO, "Connecting to the server...");
       (ERROR, "Failed to connect to the server: " +:+ exn_str e);
       (ERROR, "❌ Deployment failed: " +:+ exn_str e)].
Proof. eexists. split; [reflexivity|]. split; reflexivity. Qed.

(** C7, as the code has it. Once [ssh.connect] has returned, the
    session is closed however the run goes on, whether the later stages
    succeed or fail: [main] returns normally with the session closed, and
    [ssh.close()] is the last call of the run and the only call of its
    kind. When the connection stage fails, [main] has no session in hand
    and [ssh.close()] is not called at all. *)
Theorem session_closed_after_connection faults host :
  let r := main (boot faults host) in
  match head faults with
  | Some (Some e) => ∀ o, (SshClose, o) ∉ trace r.2
  | _ =>
      r.1 = Ok tt ∧ session_state r.2 = Closed ∧
      ∃ evs, trace r.2 = (Connect, Returned) :: evs ++ [(SshClose, Returned)] ∧
             Forall (λ ev, ev.1 ≠ SshClose) evs
  end.
Proof.
  assert (∀ f, (∀ e, f ≠ Some (Some e)) → head faults = f →
     let r := main (boot faults host) in
     r.1 = Ok tt ∧ session_state r.2 = Closed ∧
      ∃ evs, trace r.2 = (Connect, Returned) :: evs ++ [(SshClose, Returned)] ∧
             Forall (λ ev, ev.1 ≠ SshClose) evs) as Hopen.
  { intros f Hf Hh.
    destruct (main_connected (boot faults host)) as (w2 & Hk & -> & _).
    { simpl. by rewrite Hh. }
    simpl. split; [done|]. split; [done|].
    destruct Hk as (_ & _ & evs & -> & Hevs). exists evs. split; [|done].
    reflexivity. }
  destruct faults as [|[e|] rest].
  - by apply (Hopen None).
  - intros r o Ho. apply list_elem_of_singleton in Ho. discriminate.
  - by apply (Hopen (Some None)).
Qed.

End Script.

(** C4, as the claim states it, fails: the second call of the swap raises
    one exception, the rollback call raises another, and the caller gets
    the second one, not the one raised inside the swap. *)
Lemma swap_rollback_failure_masks_exception :
  let w := Scenario.online
             [None; Some Scenario.channel_closed; Some Scenario.not_active]
             Scenario.host_live in
  (switch_body "/srv/app" [] Scenario.at_once Scenario.no_other Client w).1
    = Raise Scenario.channel_closed ∧
  (switch_to_new_version "/srv/app" [] Scenario.at_once Scenario.no_other
     Client w).1 = Raise Scenario.not_active ∧
  Scenario.channel_closed ≠ Scenario.not_active.
Proof. split_and!; [vm_compute; reflexivity..|discriminate]. Qed.

(** C5, as the claim states it, fails: on a first deployment over a
    healthy connection the stage goes on after the first rename, which
    on a prompt host has ended with exit status 1, returns normally, and
    no rollback command is ever attempted. *)
Lemma first_deploy_without_rollback :
  let w := Scenario.online [] Scenario.host_first in
  let r := switch_to_new_version "/srv/app" [] Scenario.at_once Scenario.no_other
             Client w in
  Remote.fs_lookup (Remote.resolve [] "/srv/app") (remote w) = None ∧
  r.1 = Ok tt ∧
  trace r.2 =
    [(ExecCommand "mv /srv/app /srv/app_backup", Returned);
     (ExecCommand "mv /srv/app_temp /srv/app", Returned);
     (ExecCommand "rm -rf /srv/app_backup", Returned)] ∧
  finished r.2 =
    [("mv /srv/app /srv/app_backup", 1%Z); ("mv /srv/app_temp /srv/app", 0%Z);
     ("rm -rf /srv/app_backup", 0%Z)] ∧
  (∀ o, (ExecCommand (rollback_cmd "/srv/app"), o) ∉ trace r.2).
Proof.
  split_and!; [vm_compute; reflexivity..|].
  intros o Ho. vm_compute in Ho.
  repeat (apply elem_of_cons in Ho as [Ho|Ho]; [discriminate|]).
  by apply elem_of_nil in Ho.
Qed.

(** Returning normally is not success: when staging is missing, no call
    raises, the stage reports success, and on a prompt host the live
    directory is lost, moved to the backup name by the first command and
    deleted by the third. *)
Lemma swap_without_staging_loses_live :
  let r := switch_to_new_version "/srv/app" [] Scenario.at_once Scenario.no_other
             Client (Scenario.online [] Scenario.host_plain) in
  r.1 = Ok tt ∧
  finished r.2 =
    [("mv /srv/app /srv/app_backup", 0%Z); ("mv /srv/app_temp /srv/app", 1%Z);
     ("rm -rf /srv/app_backup", 0%Z)] ∧
  remote r.2 = Remote.Dir {[ "srv" := Remote.Dir ∅ ]}.
Proof. split_and!; vm_compute; reflexivity. Qed.

(** The stage does not wait: on a host that runs nothing meanwhile it
    returns normally all the same, the three commands still to be run. *)
Lemma swap_does_not_wait :
  let w := Scenario.online [] Scenario.host_staged in
  let r := switch_to_new_version "/srv/app" [] Scenario.idle Scenario.no_other
             Client w in
  r.1 = Ok tt ∧ finished r.2 = [] ∧ remote r.2 = remote w ∧
  pending r.2 =
    ["mv /srv/app /srv/app_backup"; "mv /srv/app_temp /srv/app";
     "rm -rf /srv/app_backup"] ∧
  last (log r.2) = Some (INFO, "Switched to the new version successfully.").
Proof. split_and!; vm_compute; reflexivity. Qed.

(** C1, as the claim states it, fails in two ways. The stage returns
    normally and each of the three commands ends with exit status 0, but
    the host runs the second before the first: staging is moved into the
    live directory, the first command moves all of it to the backup name
    and the third deletes it; nothing is left at the live path. And on a
    prompt host, with a backup directory in which an earlier run has left
    what was live then: the first rename fails, the second moves staging
    into the live directory, the stage returns normally and logs success,
    and the live path holds what it held before with staging as one more
    entry. *)
Lemma swap_need_not_promote :
  (let w := Scenario.online [] Scenario.host_staged in
   let r := switch_to_new_version "/srv/app" [] Scenario.second_first
              Scenario.no_other Client w in
   r.1 = Ok tt ∧
   finished r.2 =
     [("mv /srv/app_temp /srv/app", 0%Z); ("mv /srv/app /srv/app_backup", 0%Z);
      ("rm -rf /srv/app_backup", 0%Z)] ∧
   pending r.2 = [] ∧
   Remote.fs_lookup (Remote.resolve [] "/srv/app") (remote r.2) = None ∧
   remote r.2 = Remote.Dir {[ "srv" := Remote.Dir ∅ ]}) ∧
  (let w := Scenario.online [] Scenario.host_blocked in
   let r := switch_to_new_version "/srv/app" [] Scenario.at_once
              Scenario.no_other Client w in
   let staged := Remote.Dir {[ "index.html" := Remote.File Scenario.index_html ]} in
   Remote.fs_lookup ["srv"; "app_temp"] (remote w) = Some staged ∧
   r.1 = Ok tt ∧
   last (log r.2) = Some (INFO, "Switched to the new version successfully.") ∧
   finished r.2 =
     [("mv /srv/app /srv/app_backup", 1%Z); ("mv /srv/app_temp /srv/app", 0%Z);
      ("rm -rf /srv/app_backup", 0%Z)] ∧
   Remote.fs_lookup ["srv"; "app"] (remote r.2) =
     Some (Remote.Dir {[ "index.html" := Remote.File Scenario.old_page;
                         "app_temp" := staged ]})).
Proof. split; split_and!; vm_compute; reflexivity. Qed.

(** C2, as the claim states it, fails in three ways. With a backup
    directory left by an earlier run, the first rename moves live into
    it and the rollback puts the old backup at the live path, with the
    former live directory inside it. Without such a directory, a host
    that runs the rollback command before the first rename finds no
    backup to move, and live ends at the backup name. And when the
    second rename has reached the host although its call raised, the
    host promotes staging and the rollback moves the backup into the new
    live directory. In the three runs the second call raises and the
    rollback command is run. *)
Lemma rollback_need_not_restore :
  let faults := [None; Some Scenario.channel_closed; None] in
  let before := Remote.Dir {[ "index.html" := Remote.File Scenario.old_page ]} in
  (let w := Scenario.online faults Scenario.host_stale in
   let r := switch_to_new_version "/srv/app" [] Scenario.at_once Scenario.no_other
              Client w in
   Remote.fs_lookup ["srv"; "app"] (remote w) = Some before ∧
   r.1 = Raise Scenario.channel_closed ∧
   finished r.2 =
     [("mv /srv/app /srv/app_backup", 0%Z); ("mv /srv/app_backup /srv/app", 0%Z)] ∧
   Remote.fs_lookup ["srv"; "app"] (remote r.2) =
     Some (Remote.Dir {[ "old.html" := Remote.File Scenario.stale_page;
                         "app" := before ]})) ∧
  (let w := Scenario.online faults Scenario.host_plain in
   let r := switch_to_new_version "/srv/app" [] Scenario.second_first
              Scenario.no_other Client w in
   Remote.fs_lookup ["srv"; "app"] (remote w) = Some before ∧
   Remote.fs_lookup ["srv"; "app_backup"] (remote w) = None ∧
   r.1 = Raise Scenario.channel_closed ∧
   finished r.2 =
     [("mv /srv/app_backup /srv/app", 1%Z); ("mv /srv/app /srv/app_backup", 0%Z)] ∧
   Remote.fs_lookup ["srv"; "app"] (remote r.2) = None ∧
   Remote.fs_lookup ["srv"; "app_backup"] (remote r.2) = Some before) ∧
  (let w := Scenario.online faults Scenario.host_live in
   let r := switch_to_new_version "/srv/app" [] Scenario.all_through
              Scenario.no_other Client w in
   Remote.fs_lookup ["srv"; "app"] (remote w) = Some before ∧
   Remote.fs_lookup ["srv"; "app_backup"] (remote w) = None ∧
   r.1 = Raise Scenario.channel_closed ∧
   finished r.2 =
     [("mv /srv/app /srv/app_backup", 0%Z); ("mv /srv/app_temp /srv/app", 0%Z);
      ("mv /srv/app_backup /srv/app", 0%Z)] ∧
   Remote.fs_lookup ["srv"; "app"] (remote r.2) =
     Some (Remote.Dir {[ "index.html" := Remote.File Scenario.index_html;
                         "app_backup" := before ]})).
Proof. split; [|split]; split_and!; vm_compute; reflexivity. Qed.

(** C7, as the claim states it, fails: when [ssh.connect] raises, the
    run ends without a single call of [ssh.close()], the session is not
    in the state closed, and [main] does not return. *)
Lemma close_skipped_when_connect_fails :
  let r := main "/srv/app" [] Scenario.at_once Scenario.no_other "/work"
             Scenario.local_site
             (boot [Some Scenario.channel_closed] Scenario.host_plain) in
  r.1 ≠ Ok tt ∧ session_state r.2 ≠ Closed ∧
  trace r.2 = [(Connect, Raised Scenario.channel_closed)] ∧
  ∀ o, (SshClose, o) ∉ trace r.2.
Proof.
  intros r. split_and!.
  - intros H. vm_compute in H. discriminate.
  - intros H. vm_compute in H. discriminate.
  - reflexivity.
  - intros o Ho. apply list_elem_of_singleton in Ho. discriminate.
Qed.

Lemma prompt_online faults host : prompt Scenario.at_once (Scenario.online faults host).
Proof. by split. Qed.

Lemma swap_promotes_staging_witness :
  let w := Scenario.online [] Scenario.host_staged in
  let run := switch_to_new_version "/srv/app" [] Scenario.at_once Scenario.no_other
               Client in
  let w' := (run w).2 in
  let page := Remote.Dir {[ "index.html" := Remote.File Scenario.index_html ]} in
  (Remote.fs_lookup (Remote.resolve [] "/srv/app") (remote w') = Some page ∧
   Remote.fs_lookup (Remote.resolve [] (temp_dir "/srv/app")) (remote w') = None ∧
   Remote.fs_lookup (Remote.resolve [] (backup_dir "/srv/app")) (remote w') = None ∧
   ∃ es, Remote.fs_lookup (Remote.parent_of [] "/srv/app") (remote w)
           = Some (Remote.Dir es) ∧
         remote w' =
         Remote.fs_subst (Remote.parent_of [] "/srv/app")
           (Remote.Dir
              (<[Remote.leaf "/srv/app" := page]>
                 (delete (Remote.leaf "/srv/app" +:+ "_temp")
                    (delete (Remote.leaf "/srv/app" +:+ "_backup") es))))
           (remote w)) ∧
  ∃ w'', run w = (Ok tt, w'') ∧
         finished w'' = finished w ++
           [(backup_cmd "/srv/app", 0%Z); (promote_cmd "/srv/app", 0%Z);
            (cleanup_cmd "/srv/app", 0%Z)] ∧
         Remote.fs_lookup (Remote.resolve [] "/srv/app") (remote w'') = Some page.
Proof.
  intros w run w' page.
  destruct (swap_promotes_staging "/srv/app" [] Scenario.at_once Scenario.no_other
              eq_refl) as [General Particular].
  split.
  - apply (General Client w w' (Remote.Dir ∅)); vm_compute; reflexivity.
  - apply (Particular Client w Scenario.index_html);
      [vm_compute; reflexivity..|constructor|apply prompt_online].
Defined.

Lemma rollback_restores_live_witness :
  let w := Scenario.online [None; Some Scenario.channel_closed; None]
             Scenario.host_plain in
  ∃ w',
    switch_to_new_version "/srv/app" [] Scenario.at_once Scenario.no_other Client w
      = (Raise Scenario.channel_closed, w') ∧
    trace w' = trace w ++
      [(ExecCommand (backup_cmd "/srv/app"), Returned);
       (ExecCommand (promote_cmd "/srv/app"), Raised Scenario.channel_closed);
       (ExecCommand (rollback_cmd "/srv/app"), Returned)] ∧
    (∀ st1 st2,
       finished w' = finished w ++
         [(backup_cmd "/srv/app", st1); (rollback_cmd "/srv/app", st2)] →
       st1 = 0%Z ∧ st2 = 0%Z ∧
       Remote.fs_lookup (Remote.resolve [] "/srv/app") (remote w')
         = Some (Remote.Dir {[ "index.html" := Remote.File Scenario.old_page ]}) ∧
       remote w' = remote w) ∧
    (prompt Scenario.at_once w → all_or_nothing Scenario.at_once w →
     finished w' = finished w ++
       [(backup_cmd "/srv/app", 0%Z); (rollback_cmd "/srv/app", 0%Z)] ∧
     pending w' = []).
Proof.
  intros w.
  apply (rollback_restores_live "/srv/app" [] Scenario.at_once Scenario.no_other
           eq_refl Client w
           (Remote.Dir {[ "index.html" := Remote.File Scenario.old_page ]})
           Scenario.channel_closed []);
    vm_compute; reflexivity.
Defined.

Lemma first_deploy_rollback_only_on_exception_witness :
  let w := Scenario.online [None; None; Some Scenario.channel_closed]
             Scenario.host_first in
  let body := switch_body "/srv/app" [] Scenario.at_once Scenario.no_other Client in
  ∃ o r w',
    switch_to_new_version "/srv/app" [] Scenario.at_once Scenario.no_other Client w
      = (Raise r, w') ∧
    trace w' = trace (body w).2 ++ [(ExecCommand (rollback_cmd "/srv/app"), o)] ∧
    (o = Returned ∧ r = Scenario.channel_closed ∨ o = Raised r) ∧
    (prompt Scenario.at_once w →
     remote w' = remote (body w).2 ∧
     (o = Returned →
      finished w' = finished (body w).2 ++ [(rollback_cmd "/srv/app", 1%Z)])).
Proof.
  intros w body.
  refine (proj2 (first_deploy_rollback_only_on_exception "/srv/app" []
                   Scenario.at_once Scenario.no_other eq_refl
                   Client w _ _) Scenario.channel_closed _ _);
    vm_compute; reflexivity.
Defined.

Lemma swap_issues_three_commands_witness :
  ∃ w',
    switch_to_new_version "/srv/app" [] Scenario.idle Scenario.no_other Client
      (boot [] (Remote.Dir ∅)) = (Ok tt, w') ∧
    trace w' =
      [(ExecCommand "mv /srv/app /srv/app_backup", Returned);
       (ExecCommand "mv /srv/app_temp /srv/app", Returned);
       (ExecCommand "rm -rf /srv/app_backup", Returned)].
Proof.
  apply (swap_issues_three_commands "/srv/app" [] Scenario.idle Scenario.no_other
           Client (boot [] (Remote.Dir ∅))).
  constructor.
Defined.

Lemma swap_failure_rolls_back_once_witness :
  let e := Exn "SSHException" "Channel closed." in
  let w := boot [None; Some e] (Remote.Dir ∅) in
  let body := switch_body "/srv/app" [] Scenario.idle Scenario.no_other Client in
  ∃ o r w',
    switch_to_new_version "/srv/app" [] Scenario.idle Scenario.no_other Client w
      = (Raise r, w') ∧
    trace w' = trace (body w).2 ++
      [(ExecCommand "mv /srv/app_backup /srv/app", o)] ∧
    ((o = Returned ∧ r = e) ∨ (o = Raised r)).
Proof.
  intros e w body.
  apply (swap_failure_rolls_back_once "/srv/app" [] Scenario.idle Scenario.no_other
           Client w e (body w).2).
  vm_compute. reflexivity.
Defined.

End DeployFacts.
(** ** The transfer stage *)

Module TransferFacts.
Import Py PyFacts Deploy DeployFacts.

#[local] Arguments Remote.sh_exec : simpl never.
#[local] Arguments Remote.sh_run : simpl never.
#[local] Arguments Deploy.dispatched : simpl never.
#[local] Arguments Deploy.host_runs : simpl never.

Lemma bind_ok_inv {W A B} (m : M W A) (k : A → M W B) w b w' :
  bind m k w = (Ok b, w') → ∃ a w1, m w = (Ok a, w1) ∧ k a w1 = (Ok b, w').
Proof. unfold bind. destruct (m w) as [[a|e] w1]; [eauto|done]. Qed.

Lemma for_each_app {W A} (l1 l2 : list A) (f : A → M W unit) w :
  for_each (l1 ++ l2) f w = bind (for_each l1 f) (λ _, for_each l2 f) w.
Proof.
  revert w. induction l1 as [|x l1 IH]; intros w; simpl; [done|].
  unfold bind in *. destruct (f x w) as [[[]|e] w1]; [apply IH|done].
Qed.

Lemma for_each_fmap {W A B} (g : A → B) (l : list A) (f : B → M W unit) w :
  for_each (g <$> l) f w = for_each l (λ x, f (g x)) w.
Proof.
  revert w. induction l as [|x l IH]; intros w; simpl; [done|].
  unfold bind. destruct (f (g x) w) as [[[]|e] w1]; [apply IH|done].
Qed.

Lemma for_each_ext {W A} (l : list A) (f g : A → M W unit) w :
  (∀ x w, x ∈ l → f x w = g x w) → for_each l f w = for_each l g w.
Proof.
  revert w. induction l as [|x l IH]; intros w Hfg; simpl; [done|].
  unfold bind. rewrite Hfg by (by left).
  destruct (g x w) as [[[]|e] w1]; [|done]. apply IH.
  intros y w2 Hy. apply Hfg. by right.
Qed.

(** Two nested loops over a walk are one loop over its items. *)
Lemma for_each_walk {W} (walk : list (string * list string * list string))
    (f : string → string → M W unit) w :
  for_each walk (λ '(root, dirs, files), for_each files (f root)) w =
  for_each (Local.walk_items walk) (λ x, f x.1 x.2) w.
Proof.
  revert w. induction walk as [|[[root dirs] files] walk IH]; intros w; [done|].
  change (Local.walk_items ((root, dirs, files) :: walk))
    with (((λ file, (root, file)) <$> files) ++ Local.walk_items walk).
  rewrite for_each_app. simpl. unfold bind.
  rewrite for_each_fmap. simpl.
  destruct (for_each files (λ x, f root x) w) as [[[]|e] w1] eqn:Hf.
  - replace (for_each files (f root) w) with (Ok tt, w1). apply IH.
  - by replace (for_each files (f root) w) with (@Raise unit e, w1).
Qed.

Section Script.
Variable DEPLOY_PATH : string.
Variable home : list string.
Variable pace : tempo.
Variable beyond : string → Remote.node → Z * Remote.node.
Variable cwd : string.
Variable local_fs : Local.node.

Local Abbreviation exec_command := (exec_command home pace beyond).
Local Abbreviation dispatched := (dispatched home pace beyond).
Local Abbreviation failed := (failed home pace beyond).
Local Abbreviation host_runs := (host_runs home pace beyond).
Local Abbreviation run_pending := (run_pending home beyond).
Local Abbreviation prompt := (prompt pace).
Local Abbreviation keeps_files := (keeps_files home beyond).
Local Abbreviation sh_run := (Remote.sh_run beyond home).
Local Abbreviation temp_dir := (temp_dir DEPLOY_PATH).
Local Abbreviation build_files := (build_files local_fs).
Local Abbreviation build_well_formed := (build_well_formed local_fs).
Local Abbreviation remote_path_of := (remote_path_of DEPLOY_PATH).
Local Abbreviation sftp_put := (sftp_put home pace beyond local_fs).
Local Abbreviation put_file := (put_file DEPLOY_PATH home pace beyond local_fs).
Local Abbreviation file_events := (file_events DEPLOY_PATH).
Local Abbreviation transfer_one :=
  (transfer_one DEPLOY_PATH home pace beyond cwd local_fs).
Local Abbreviation transfer_files :=
  (transfer_files DEPLOY_PATH home pace beyond cwd local_fs).
Local Abbreviation walk_build := (walk_build local_fs).
Local Abbreviation staging := (Remote.resolve home temp_dir).

Hypothesis build_fine : build_well_formed.

Lemma temp_dir_shape : temp_dir ≠ "" ∧ endswith_char temp_dir "/" = false.
Proof.
  unfold Deploy.temp_dir. split.
  - by destruct DEPLOY_PATH.
  - by rewrite endswith_char_app.
Qed.

(** The items of the walk of [build] are the listed files. *)
Lemma walk_build_items :
  Local.walk_items walk_build =
  (λ x, (String.concat "/" (LOCAL_BUILD_PATH :: x.1.1), x.1.2)) <$> build_files.
Proof.
  unfold Deploy.walk_build, Deploy.build_files.
  pose proof build_fine as Hwf. unfold Deploy.build_well_formed in Hwf.
  destruct (Local.at_path LOCAL_BUILD_PATH local_fs) as [t|]; [|done].
  change LOCAL_BUILD_PATH with (String.concat "/" ["build"]) at 1.
  rewrite LocalFacts.walk_items_files; [done|done| |done].
  repeat constructor; (done || by repeat constructor).
Qed.

Lemma build_file_names x :
  x ∈ build_files → Forall Local.entry_name (Local.rel_path x).
Proof.
  unfold Deploy.build_files. pose proof build_fine as Hwf.
  unfold Deploy.build_well_formed in Hwf.
  destruct (Local.at_path LOCAL_BUILD_PATH local_fs) as [t|];
    [by apply LocalFacts.files_names|by intros ?%elem_of_nil].
Qed.

Lemma build_entry_name : Local.entry_name LOCAL_BUILD_PATH.
Proof. repeat constructor; (done || by repeat constructor). Qed.

Lemma build_file_read x :
  x ∈ build_files → Local.read_file (local_path_of x) local_fs = Some x.2.
Proof.
  intros Hx. pose proof (build_file_names x Hx) as Hn.
  unfold Deploy.build_files in Hx. pose proof build_fine as Hwf.
  unfold Deploy.build_well_formed in Hwf.
  destruct (Local.at_path LOCAL_BUILD_PATH local_fs) as [t|] eqn:Hb;
    [|by apply elem_of_nil in Hx].
  unfold Local.read_file, local_path_of.
  rewrite at_path_concat; [|done|constructor; [apply build_entry_name|done]].
  change LOCAL_BUILD_PATH with (String.concat "/" ["build"]) in Hb.
  rewrite at_path_concat in Hb; [|done|constructor; [apply build_entry_name|done]].
  assert (∀ q, Local.lookup ("build" :: q) local_fs = Local.lookup q t) as ->.
  { intros q. simpl in *. destruct local_fs as [|es]; [done|].
    destruct (list_find _ es) as [[i [m c]]|]; [|done]. by injection Hb as ->. }
  by rewrite (LocalFacts.files_lookup t Hwf x Hx).
Qed.

Lemma build_file_resolve x :
  x ∈ build_files →
  Remote.resolve home (remote_path_of x) = staging ++ Local.rel_path x.
Proof.
  intros Hx. unfold Deploy.remote_path_of. apply resolve_below.
  - apply temp_dir_shape.
  - unfold Local.rel_path. by destruct (x.1.1).
  - by apply build_file_names.
Qed.

(** For a listed file, the loop body is [put_file]. *)
Lemma transfer_one_listed ssh sftp x w :
  x ∈ build_files →
  transfer_one ssh sftp (String.concat "/" (LOCAL_BUILD_PATH :: x.1.1)) x.1.2 w
  = put_file ssh sftp x w.
Proof.
  intros Hx. pose proof (build_file_names x Hx) as Hn.
  unfold Local.rel_path in Hn. apply Forall_app in Hn as [Hds Hf].
  apply Forall_cons in Hf as [Hf _].
  unfold Deploy.transfer_one, Deploy.put_file.
  assert (path_join (String.concat "/" (LOCAL_BUILD_PATH :: x.1.1)) x.1.2
          = local_path_of x) as ->.
  { unfold local_path_of, Local.rel_path.
    rewrite path_join_concat; [done|done| |by apply entry_name_like].
    apply entry_names_like. constructor; [apply build_entry_name|done]. }
  unfold local_path_of.
  change (LOCAL_BUILD_PATH :: Local.rel_path x)
    with ([LOCAL_BUILD_PATH] ++ Local.rel_path x).
  change LOCAL_BUILD_PATH with (String.concat "/" [LOCAL_BUILD_PATH]) at 2.
  rewrite relpath_below;
    [|done|unfold Local.rel_path; by destruct (x.1.1)
     |constructor; [apply build_entry_name|done]|by apply build_file_names].
  assert (path_join temp_dir (String.concat "/" (Local.rel_path x))
          = remote_path_of x) as ->; [|done].
  destruct temp_dir_shape as [Ht1 Ht2].
  apply path_join_relative; [done..|].
  apply name_like_no_slash_start_concat; [|by apply build_file_names].
  unfold Local.rel_path. by destruct (x.1.1).
Qed.

(** Two listed files with the same path have the same content. *)
Lemma build_files_functional x y :
  x ∈ build_files → y ∈ build_files →
  Local.rel_path y = Local.rel_path x → y.2 = x.2.
Proof.
  intros Hx Hy Hp. pose proof (build_file_read x Hx) as Rx.
  pose proof (build_file_read y Hy) as Ry.
  unfold local_path_of in *. rewrite Hp in Ry. congruence.
Qed.

Lemma build_files_nodup : NoDup (Local.rel_path <$> build_files).
Proof.
  unfold Deploy.build_files. pose proof build_fine as Hwf.
  unfold Deploy.build_well_formed in Hwf.
  destruct (Local.at_path LOCAL_BUILD_PATH local_fs) as [t|];
    [by apply LocalFacts.files_paths_nodup|constructor].
Qed.

(** [sftp.put] for a listed file: it raises what the transport says;
    otherwise the host goes on with what it has to run, and the file is
    written into the tree as it is then, at the mirrored path, or the
    call raises because the host cannot create the file. *)
Lemma sftp_put_listed sftp x w :
  x ∈ build_files →
  let c := SftpPut (local_path_of x) (remote_path_of x) in
  let p := staging ++ Local.rel_path x in
  let w0 := host_runs (set_env (tail (env w)) w) in
  sftp_put sftp (local_path_of x) (remote_path_of x) w =
  match head (env w) with
  | Some (Some e) => (Raise e, refused c e w)
  | _ =>
      match Remote.fs_write p x.2 (remote w0) with
      | Some t => (Ok tt, add_trace c Returned (set_remote t w0))
      | None =>
          (Raise (put_refused p (remote w0)),
           add_trace c (Raised (put_refused p (remote w0))) w0)
      end
  end.
Proof.
  intros Hx c p w0. subst c p w0.
  unfold Deploy.sftp_put, external, bind, next_fault, try_except, get, modify.
  rewrite (build_file_read x Hx), (build_file_resolve x Hx).
  destruct w as [[|[e|] rest] ss rem pd fin tr lg sv]; cbn [env head tail];
    try reflexivity.
  - change (set_env [] (World [] ss rem pd fin tr lg sv))
      with (World [] ss rem pd fin tr lg sv).
    by destruct (Remote.fs_write _ _ _).
  - change (set_env rest (World (None :: rest) ss rem pd fin tr lg sv))
      with (World rest ss rem pd fin tr lg sv).
    by destruct (Remote.fs_write _ _ _).
Qed.

(** *** The regular files of the host during a transfer *)

Local Abbreviation file_at w q d :=
  (Remote.fs_lookup q (remote w) = Some (Remote.File d)).

(** Every command still to be run leaves the regular files alone. *)
Local Abbreviation harmless w := (Forall keeps_files (pending w)).

(** While every pending command leaves the regular files alone, the
    host at work does, too. *)
Lemma run_pending_files k w :
  harmless w →
  harmless (run_pending k w) ∧
  ∀ q d, file_at (run_pending k w) q d ↔ file_at w q d.
Proof.
  intros Hw. unfold Deploy.run_pending.
  destruct (pending w !! k) as [cmd|] eqn:Hk; [|done].
  cbn [pending remote]. split.
  - by apply Forall_delete.
  - intros q d. by apply (Forall_lookup_1 _ _ _ _ Hw Hk).
Qed.

Lemma host_runs_files w :
  harmless w →
  harmless (host_runs w) ∧ ∀ q d, file_at (host_runs w) q d ↔ file_at w q d.
Proof.
  unfold Deploy.host_runs. generalize (runs pace (length (trace w))).
  intros ks. revert w. induction ks as [|k ks IH]; intros w Hw; simpl; [done|].
  destruct (run_pending_files k w Hw) as [H1 H2].
  destruct (IH _ H1) as [H3 H4]. split; [done|].
  intros q d. by rewrite H4.
Qed.

Lemma dispatched_files cmd w :
  keeps_files cmd → harmless w →
  harmless (dispatched cmd w) ∧
  ∀ q d, file_at (dispatched cmd w) q d ↔ file_at w q d.
Proof.
  intros Hcmd Hw. unfold Deploy.dispatched.
  destruct (host_runs_files (add_pending cmd (set_env (tail (env w)) w)))
    as [H1 H2].
  { cbn [pending add_pending set_env]. apply Forall_app. split; [done|].
    by constructor. }
  done.
Qed.

Lemma failed_files cmd e w :
  keeps_files cmd → harmless w →
  harmless (failed cmd e w) ∧
  ∀ q d, file_at (failed cmd e w) q d ↔ file_at w q d.
Proof.
  intros Hcmd Hw. unfold Deploy.failed. cbv zeta.
  destruct (reaches pace (length (trace w))); [|done].
  destruct (host_runs_files (add_pending cmd (set_env (tail (env w)) w)))
    as [H1 H2].
  { cbn [pending add_pending set_env]. apply Forall_app. split; [done|].
    by constructor. }
  done.
Qed.

(** [mkdir -p] with a plain operand leaves the regular files alone. *)
Lemma mkdir_keeps_files a :
  Remote.sh_plain a = true → keeps_files ("mkdir -p " +:+ a).
Proof.
  intros Ha t q d.
  rewrite RemoteFacts.sh_run_known by (by apply RemoteFacts.sh_known_mkdir_p).
  apply RemoteFacts.sh_exec_mkdir_files.
Qed.

Section Plain.
(** The words the [mkdir -p] commands are made of are plain: the deploy
    path and the names of the directories of the build. *)
Hypothesis path_plain : Remote.sh_plain DEPLOY_PATH = true.
Hypothesis dirs_plain :
  ∀ x, x ∈ build_files → Forall (λ n, Remote.sh_plain n = true) x.1.1.

Lemma temp_dir_plain : Remote.sh_plain temp_dir = true.
Proof. by apply RemoteFacts.sh_plain_suffix. Qed.

Lemma temp_dir_parts :
  ∃ front final,
    temp_dir = front +:+ final ∧ final ≠ "" ∧ free_of is_slash final.
Proof. exists DEPLOY_PATH, "_temp". split_and!; [done..|by repeat constructor]. Qed.

(** The directory named in the [mkdir -p] sent for a listed file. *)
Lemma file_dir x :
  x ∈ build_files →
  Py.dirname (remote_path_of x) =
  match x.1.1 with
  | [] => temp_dir
  | _ => temp_dir +:+ "/" +:+ String.concat "/" x.1.1
  end ∧
  Remote.sh_plain (Py.dirname (remote_path_of x)) = true.
Proof.
  intros Hx. pose proof (build_file_names x Hx) as Hn.
  unfold Deploy.remote_path_of, Local.rel_path in *.
  rewrite (dirname_below temp_dir x.1.1 x.1.2 temp_dir_parts)
    by (by apply entry_names_like).
  split; [done|]. pose proof (dirs_plain x Hx) as Hd.
  destruct (x.1.1) as [|d ds]; [apply temp_dir_plain|].
  apply RemoteFacts.sh_plain_suffix; [apply temp_dir_plain|].
  by apply RemoteFacts.sh_plain_below.
Qed.

(** What a successful pass through the loop body leaves: the file is at
    its mirrored path, and no other regular file of the host was
    touched. *)
Lemma put_file_effect ssh sftp x w w' :
  x ∈ build_files → harmless w →
  put_file ssh sftp x w = (Ok tt, w') →
  harmless w' ∧
  file_at w' (staging ++ Local.rel_path x) x.2 ∧
  (∀ q d, q ≠ staging ++ Local.rel_path x → file_at w' q d ↔ file_at w q d) ∧
  trace w' = trace w ++ file_events x.
Proof.
  intros Hx Hw. unfold Deploy.put_file.
  intros (? & w1 & H1 & (? & w2 & H2 & H3)%bind_ok_inv)%bind_ok_inv.
  rewrite exec_command_spec in H1. rewrite (sftp_put_listed _ _ _ Hx) in H2.
  cbv zeta in H2. injection H3 as <-.
  assert (w1 = dispatched ("mkdir -p " +:+ Py.dirname (remote_path_of x)) w)
    as -> by (by destruct (head (env w)) as [[?|]|]; simplify_eq).
  clear H1.
  destruct (dispatched_files ("mkdir -p " +:+ Py.dirname (remote_path_of x)) w)
    as [Hh1 Hf1]; [apply mkdir_keeps_files; by apply file_dir|done|].
  set (w1 := dispatched _ w) in *.
  destruct (host_runs_files (set_env (tail (env w1)) w1) Hh1) as [Hh2 Hf2].
  set (w0 := host_runs _) in *.
  destruct (Remote.fs_write _ _ (remote w0)) as [t|] eqn:Hwr;
    [|by destruct (head (env _)) as [[?|]|]].
  assert (w2 = add_trace (SftpPut (local_path_of x) (remote_path_of x)) Returned
                 (set_remote t w0))
    as -> by (by destruct (head (env _)) as [[?|]|]; simplify_eq).
  destruct (RemoteFacts.fs_write_files _ _ _ _ Hwr) as [Hp Hq].
  split_and!.
  - done.
  - done.
  - intros q d Hne. cbn [remote add_log add_trace set_remote].
    rewrite (Hq q d Hne), Hf2. apply Hf1.
  - cbn [trace add_log add_trace set_remote]. unfold w0.
    destruct (host_runs_fields home pace beyond (set_env (tail (env w1)) w1))
      as (_ & _ & -> & _).
    cbn [trace set_env]. unfold w1. rewrite dispatched_trace.
    by rewrite <- app_assoc.
Qed.

(** The loop over a list of listed files, when it ends normally. *)
Lemma put_files_effect ssh sftp l :
  ∀ w w',
    (∀ x, x ∈ l → x ∈ build_files) → harmless w →
    for_each l (put_file ssh sftp) w = (Ok tt, w') →
    harmless w' ∧
    trace w' = trace w ++ mjoin (file_events <$> l) ∧
    (∀ q d, file_at w q d →
            (∀ x, x ∈ l → q = staging ++ Local.rel_path x → d = x.2) →
            file_at w' q d) ∧
    (∀ x, x ∈ l → file_at w' (staging ++ Local.rel_path x) x.2) ∧
    (∀ q d, file_at w' q d →
            file_at w q d ∨
            ∃ x, x ∈ l ∧ q = staging ++ Local.rel_path x ∧ d = x.2).
Proof.
  induction l as [|x l IH]; intros w w' Hl Hw.
  { intros [= <-]. split_and!.
    - done.
    - by rewrite app_nil_r.
    - done.
    - by intros x ?%elem_of_nil.
    - by left. }
  simpl. intros ([] & w1 & Hx & Hrest)%bind_ok_inv.
  assert (x ∈ build_files) as Hxb by (apply Hl; by left).
  destruct (put_file_effect _ _ _ _ _ Hxb Hw Hx) as (Hw1 & Hput & Hother & Htr).
  destruct (IH w1 w') as (Hw' & Htr' & Hkeep & Hall & Hnew);
    [by intros y Hy; apply Hl; right|done|done|].
  assert (∀ q d, file_at w q d →
            (∀ y, y ∈ x :: l → q = staging ++ Local.rel_path y → d = y.2) →
            file_at w' q d) as Hkeep'.
  { intros q d Hq Hsame. apply Hkeep.
    - destruct (decide (q = staging ++ Local.rel_path x)) as [->|Hne].
      + rewrite (Hsame x) by (done || by left). exact Hput.
      + by apply Hother.
    - intros y Hy. apply Hsame. by right. }
  split_and!.
  - done.
  - rewrite Htr', Htr. simpl. by rewrite <- !app_assoc.
  - exact Hkeep'.
  - intros y [->|Hy]%elem_of_cons; [|by apply Hall].
    apply Hkeep; [done|].
    intros z Hz Heq%app_inv_head. symmetry.
    apply build_files_functional; [done|by apply Hl; right|done].
  - intros q d Hq. destruct (Hnew q d Hq) as [Hq1|(y & Hy & -> & ->)].
    + destruct (decide (q = staging ++ Local.rel_path x)) as [->|Hne].
      * right. exists x. split; [by left|]. split; [done|]. congruence.
      * left. by apply Hother.
    + right. exists y. split; [by right|done].
Qed.

(** The transfer stage, call by call, when it ends normally. *)
Lemma transfer_files_ok_inv ssh w w' :
  transfer_files ssh w = (Ok tt, w') →
  let w1 := add_trace OpenSftp Returned
              (set_env (tail (env w))
                 (add_log INFO "Transferring files to the server..." w)) in
  let w2 := dispatched ("mkdir -p " +:+ temp_dir) w1 in
  ∃ w3,
    for_each build_files (put_file ssh Sftp) w2 = (Ok tt, w3) ∧
    w' = add_log INFO "File transfer completed." (add_trace SftpClose Returned w3).
Proof.
  intros Hrun. apply try_except_ok_inv in Hrun.
  2:{ intros e w0. by eexists _, _. }
  apply bind_ok_inv in Hrun as ([] & w0 & [= <-] & Hrun).
  apply bind_ok_inv in Hrun as (sftp & w1 & H1 & Hrun).
  apply bind_ok_inv in Hrun as ([] & w2 & H2 & Hrun).
  apply bind_ok_inv in Hrun as ([] & w3 & H3 & Hrun).
  apply bind_ok_inv in Hrun as ([] & w4 & [= <-] & [= <-]).
  assert (sftp = Sftp ∧
          w1 = add_trace OpenSftp Returned
                 (set_env (tail (env w))
                    (add_log INFO "Transferring files to the server..." w)))
    as [-> ->].
  { clear -H1. unfold open_sftp, external, bind, next_fault, try_except, ret in H1.
    destruct sftp.
    destruct w as [[|[e|] rest] ss rem pd fin tr lg sv]; simpl in H1; simplify_eq;
      split; reflexivity. }
  rewrite exec_command_spec in H2.
  assert (w2 = dispatched ("mkdir -p " +:+ temp_dir)
                 (add_trace OpenSftp Returned
                    (set_env (tail (env w))
                       (add_log INFO "Transferring files to the server..." w))))
    as -> by (by destruct (head (env _)) as [[?|]|]; simplify_eq).
  exists w3. split; [|done].
  rewrite for_each_walk, walk_build_items, for_each_fmap in H3.
  rewrite <- H3. apply for_each_ext. intros x wx Hx.
  symmetry. by apply transfer_one_listed.
Qed.

(** C8, as the code has it. The deploy path and the names of the
    directories of the build are plain words, and no command that could
    change a regular file is pending when the stage starts. After a
    transfer that ended normally, each of the [N] files of the build tree
    is on the host at the mirrored path under the staging directory, with
    the bytes of the local file; the [N] mirrored paths are pairwise
    different; the files were copied one after the other in the order of
    the walk, each after the [mkdir -p] for its directory was sent; and no
    regular file exists on the host that was not there before or is not
    one of the [N]. Files that were under staging before are still
    there: the regular files under staging are exactly the [N] when
    staging held none before. All this holds however late the host runs
    the [mkdir -p] commands, and what is still pending changes no
    regular file when it is run. *)
Theorem transfer_mirrors_build ssh w w' :
  Forall keeps_files (pending w) →
  transfer_files ssh w = (Ok tt, w') →
  trace w' = trace w ++
    [(OpenSftp, Returned); (ExecCommand ("mkdir -p " +:+ temp_dir), Returned)] ++
    mjoin (file_events <$> build_files) ++ [(SftpClose, Returned)] ∧
  NoDup (Local.rel_path <$> build_files) ∧
  (∀ x, x ∈ build_files →
        Remote.fs_lookup (staging ++ Local.rel_path x) (remote w')
        = Some (Remote.File x.2)) ∧
  (∀ q d, Remote.fs_lookup q (remote w') = Some (Remote.File d) →
          Remote.fs_lookup q (remote w) = Some (Remote.File d) ∨
          ∃ x, x ∈ build_files ∧ q = staging ++ Local.rel_path x ∧ d = x.2) ∧
  ((∀ q d, Remote.fs_lookup (staging ++ q) (remote w) ≠ Some (Remote.File d)) →
   ∀ q d, Remote.fs_lookup (staging ++ q) (remote w') = Some (Remote.File d) ↔
          ∃ x, x ∈ build_files ∧ q = Local.rel_path x ∧ d = x.2) ∧
  Forall keeps_files (pending w').
Proof.
  intros Hw Hrun. apply transfer_files_ok_inv in Hrun as (w3 & Hloop & ->).
  cbv zeta in Hloop.
  set (w1 := add_trace OpenSftp Returned _) in Hloop.
  destruct (dispatched_files ("mkdir -p " +:+ temp_dir) w1) as [Hh2 Hf2];
    [apply mkdir_keeps_files, temp_dir_plain|done|].
  destruct (put_files_effect _ _ _ _ _ (λ x Hx, Hx) Hh2 Hloop)
    as (Hh3 & Htr & _ & Hall & Hnew).
  assert (∀ q d, Remote.fs_lookup q (remote w3) = Some (Remote.File d) →
          Remote.fs_lookup q (remote w) = Some (Remote.File d) ∨
          ∃ x, x ∈ build_files ∧ q = staging ++ Local.rel_path x ∧ d = x.2)
    as Hnew'.
  { intros q d Hq. destruct (Hnew q d Hq) as [Hq0|?]; [left|by right].
    by apply Hf2 in Hq0. }
  split_and!.
  - cbn [trace add_log add_trace]. rewrite Htr, dispatched_trace.
    unfold w1. cbn [trace add_log add_trace set_env].
    by rewrite <- !app_assoc.
  - apply build_files_nodup.
  - intros x Hx. by apply Hall.
  - exact Hnew'.
  - intros Hnone q d. split.
    + intros Hq. destruct (Hnew' _ _ Hq) as [Hq0|(x & Hx & Hp & ->)].
      * by destruct (Hnone q d).
      * apply app_inv_head in Hp. eauto.
    + intros (x & Hx & -> & ->). by apply Hall.
  - done.
Qed.

End Plain.

End Script.

Lemma local_site_fine : build_well_formed Scenario.local_site.
Proof.
  unfold build_well_formed. simpl.
  repeat (split || (apply (bool_decide_unpack _); vm_compute; exact I) ||
          discriminate || constructor).
Qed.

Lemma local_site_dirs_plain x :
  x ∈ build_files Scenario.local_site →
  Forall (λ n, Remote.sh_plain n = true) x.1.1.
Proof.
  intros Hx. vm_compute in Hx.
  repeat (apply elem_of_cons in Hx as [->|Hx]; [by repeat constructor|]).
  by apply elem_of_nil in Hx.
Qed.

(** A failure in the middle of the walk: the shell splits the directory
    name [my dir] in two, [mkdir -p] makes two other directories, the
    [put] of the file below it raises, the stage logs and re-raises, and
    staging is left with the one file copied before. *)
Lemma transfer_stops_at_blank_in_name :
  let w := Scenario.online [] Scenario.host_plain in
  let r := transfer_files "/srv/app" [] Scenario.at_once Scenario.no_other "/work"
             Scenario.local_blank Client w in
  r.1 = Raise (Exn "FileNotFoundError" "[Errno 2] No such file") ∧
  Remote.fs_lookup ["srv"; "app_temp"] (remote r.2)
    = Some (Remote.Dir {[ "index.html" := Remote.File Scenario.index_html;
                          "my" := Remote.Dir ∅ ]}) ∧
  Remote.fs_lookup ["dir"] (remote r.2) = Some (Remote.Dir ∅) ∧
  last (log r.2)
    = Some (ERROR, "Failed to transfer files: [Errno 2] No such file").
Proof. split_and!; vm_compute; reflexivity. Qed.

(** The stage does not wait for the host: when the host has not run
    the [mkdir -p] for staging by the time the first file is put, the
    [put] raises, over a healthy connection and for a build tree that a
    prompt host takes without complaint. *)
Lemma transfer_fails_when_host_lags :
  let w := Scenario.online [] Scenario.host_plain in
  let run pace := transfer_files "/srv/app" [] pace Scenario.no_other "/work"
                    Scenario.local_site Client w in
  (run Scenario.at_once).1 = Ok tt ∧
  (run Scenario.idle).1 = Raise (Exn "FileNotFoundError" "[Errno 2] No such file") ∧
  trace (run Scenario.idle).2 =
    [(OpenSftp, Returned);
     (ExecCommand "mkdir -p /srv/app_temp", Returned);
     (ExecCommand "mkdir -p /srv/app_temp", Returned);
     (SftpPut "build/index.html" "/srv/app_temp/index.html",
      Raised (Exn "FileNotFoundError" "[Errno 2] No such file"))] ∧
  remote (run Scenario.idle).2 = remote w.
Proof. split_and!; vm_compute; reflexivity. Qed.

(** C8, as the claim states it, fails in two ways. Staging holds a
    file left by an earlier run: the transfer of the four files of the
    build ends normally, and staging holds five regular files, one of
    them at no mirrored path. And a directory of the build has a name
    that the shell takes for a list of commands: the [mkdir -p] sent for
    it removes the file copied just before, the transfer of the two
    files ends normally, and the first of them is not on the host. *)
Lemma transfer_need_not_mirror :
  (let w := Scenario.online [] Scenario.host_leftover in
   let r := transfer_files "/srv/app" [] Scenario.at_once Scenario.no_other
              "/work" Scenario.local_site Client w in
   let files := build_files Scenario.local_site in
   r.1 = Ok tt ∧ length files = 4 ∧
   Remote.fs_lookup ["srv"; "app_temp"; "old.html"] (remote r.2)
     = Some (Remote.File Scenario.stale_page) ∧
   (["old.html"] ∉ Local.rel_path <$> files) ∧
   (∀ x, x ∈ files →
         Remote.fs_lookup (["srv"; "app_temp"] ++ Local.rel_path x) (remote r.2)
         = Some (Remote.File x.2))) ∧
  (let w := Scenario.online [] Scenario.host_list in
   let r := transfer_files "/srv/app" ["srv"] Scenario.at_once
              (Scenario.with_lists ["srv"]) "/work" Scenario.local_list Client w in
   build_well_formed Scenario.local_list ∧
   build_files Scenario.local_list =
     [([], "f1", Scenario.robots);
      (["b;cd app_temp;rm f1"], "g", Scenario.app_js)] ∧
   r.1 = Ok tt ∧
   finished r.2 =
     [("mkdir -p /srv/app_temp", 0%Z); ("mkdir -p /srv/app_temp", 0%Z);
      ("mkdir -p /srv/app_temp/b;cd app_temp;rm f1", 0%Z)] ∧
   Remote.fs_lookup ["srv"; "app_temp"; "f1"] (remote r.2) = None).
Proof.
  split.
  - intros w r files. split_and!; [vm_compute; reflexivity..| |].
    + apply (bool_decide_unpack _). vm_compute. exact I.
    + intros x Hx. vm_compute in Hx.
      repeat (apply elem_of_cons in Hx as [->|Hx]; [vm_compute; reflexivity|]).
      by apply elem_of_nil in Hx.
  - intros w r. split_and!; [|vm_compute; reflexivity..].
    unfold build_well_formed. simpl.
    repeat (split || (apply (bool_decide_unpack _); vm_compute; exact I) ||
            discriminate || constructor).
Qed.

Lemma transfer_mirrors_build_witness :
  let w := Scenario.online [] Scenario.host_plain in
  let w' := (transfer_files "/srv/app" [] Scenario.at_once Scenario.no_other "/work"
               Scenario.local_site Client w).2 in
  let files := build_files Scenario.local_site in
  let staging := Remote.resolve [] (temp_dir "/srv/app") in
  length files = 4 ∧
  trace w' = trace w ++
    [(OpenSftp, Returned);
     (ExecCommand ("mkdir -p " +:+ temp_dir "/srv/app"), Returned)] ++
    mjoin (file_events "/srv/app" <$> files) ++ [(SftpClose, Returned)] ∧
  NoDup (Local.rel_path <$> files) ∧
  (∀ x, x ∈ files →
        Remote.fs_lookup (staging ++ Local.rel_path x) (remote w')
        = Some (Remote.File x.2)) ∧
  (∀ q d, Remote.fs_lookup q (remote w') = Some (Remote.File d) →
          Remote.fs_lookup q (remote w) = Some (Remote.File d) ∨
          ∃ x, x ∈ files ∧ q = staging ++ Local.rel_path x ∧ d = x.2) ∧
  ((∀ q d, Remote.fs_lookup (staging ++ q) (remote w) ≠ Some (Remote.File d)) →
   ∀ q d, Remote.fs_lookup (staging ++ q) (remote w') = Some (Remote.File d) ↔
          ∃ x, x ∈ files ∧ q = Local.rel_path x ∧ d = x.2) ∧
  Forall (keeps_files [] Scenario.no_other) (pending w').
Proof.
  intros w w' files staging. split; [reflexivity|].
  refine (transfer_mirrors_build "/srv/app" [] Scenario.at_once Scenario.no_other
            "/work" Scenario.local_site local_site_fine eq_refl
            local_site_dirs_plain Client w w' _ _).
  - constructor.
  - vm_compute. reflexivity.
Defined.

End TransferFacts.
(** ** The first script: the stages one after the other *)

Module StageFacts.
Import Deploy DeployFacts.

#[local] Arguments Remote.sh_exec : simpl never.
#[local] Arguments Remote.sh_run : simpl never.
#[local] Arguments Deploy.dispatched : simpl never.
#[local] Arguments Deploy.host_runs : simpl never.

#[local] Instance adds_preorder P : PreOrder (adds P).
Proof.
  split.
  - intros w. exists []. by rewrite app_nil_r.
  - intros w1 w2 w3 (evs1 & Ht1 & Hf1) (evs2 & Ht2 & Hf2).
    exists (evs1 ++ evs2). rewrite Ht2, Ht1, app_assoc. split; [done|].
    by apply Forall_app.
Qed.

Lemma adds_same_trace P w w' : trace w' = trace w → adds P w w'.
Proof. intros H. exists []. by rewrite app_nil_r. Qed.

Lemma adds_event P c o w w' :
  trace w' = trace w ++ [(c, o)] → P c → adds P w w'.
Proof. intros Ht Hc. exists [(c, o)]. split; [done|]. by constructor. Qed.

Lemma adds_trace P c o w : P c → adds P w (add_trace c o w).
Proof. by apply (adds_event P c o). Qed.

Section Adds.
Variable P : call → Prop.

Lemma framed_adds_info msg : framed (adds P) (logger_info msg).
Proof. apply framed_modify. intros w. by apply adds_same_trace. Qed.

Lemma framed_adds_error msg : framed (adds P) (logger_error msg).
Proof. apply framed_modify. intros w. by apply adds_same_trace. Qed.

Lemma framed_adds_external c effect :
  P c → framed (adds P) effect → framed (adds P) (external c effect).
Proof.
  intros Hc He. unfold external. apply framed_bind; [apply _| |].
  - intros w. unfold next_fault. destruct (env w); simpl; [reflexivity|].
    by apply adds_same_trace.
  - intros [e|].
    + apply framed_bind; [apply _|apply framed_modify; intros w; by apply adds_trace|].
      intros _. apply framed_raise, _.
    + apply framed_try_except; [apply _| |].
      * apply framed_bind; [apply _|done|]. intros o.
        apply framed_modify. intros w. by apply adds_trace.
      * intros e. apply framed_bind;
          [apply _|apply framed_modify; intros w; by apply adds_trace|].
        intros _. apply framed_raise, _.
Qed.

Lemma framed_adds_exec home pace beyond ssh cmd :
  P (ExecCommand cmd) → framed (adds P) (exec_command home pace beyond ssh cmd).
Proof.
  intros Hc w. rewrite exec_command_spec.
  destruct (head (env w)) as [[e|]|]; cbn [snd];
    (eapply adds_event; [|exact Hc]); by rewrite ?dispatched_trace, ?failed_trace.
Qed.

Lemma framed_adds_host home pace beyond :
  framed (adds P) (modify (host_runs home pace beyond)).
Proof.
  apply framed_modify. intros w. apply adds_same_trace, host_runs_trace.
Qed.

End Adds.

Ltac adds_step :=
  lazymatch goal with
  | |- framed _ (logger_info _) => apply framed_adds_info
  | |- framed _ (logger_error _) => apply framed_adds_error
  | |- framed _ (exec_command _ _ _ _ _) => apply framed_adds_exec
  | |- framed _ (modify (host_runs _ _ _)) => apply framed_adds_host
  | |- framed _ (ret _) => apply framed_ret, _
  | |- framed _ (raise _) => apply framed_raise, _
  | |- framed _ get => apply framed_get, _
  | |- framed _ (external _ _) => apply framed_adds_external
  | |- framed _ (bind _ _) => apply framed_bind; [apply _| |intros ?]
  | |- framed _ (try_except _ _) => apply framed_try_except; [apply _| |intros ?]
  | |- framed _ (for_each _ _) => apply framed_for_each; [apply _|intros ?]
  | |- framed _ (modify _) => apply framed_modify; intros ?; by apply adds_same_trace
  | |- framed _ (let _ := _ in _) => cbv zeta
  | |- framed _ (match ?x with _ => _ end) => destruct x
  end.

Section Script.
Variable DEPLOY_PATH : string.
Variable home : list string.
Variable pace : tempo.
Variable beyond : string → Remote.node → Z * Remote.node.
Variable cwd : string.
Variable local_fs : Local.node.

Local Abbreviation exec_command := (exec_command home pace beyond).
Local Abbreviation dispatched := (dispatched home pace beyond).
Local Abbreviation failed := (failed home pace beyond).
Local Abbreviation run_pending := (run_pending home beyond).
Local Abbreviation switch_to_new_version :=
  (switch_to_new_version DEPLOY_PATH home pace beyond).
Local Abbreviation transfer_files :=
  (transfer_files DEPLOY_PATH home pace beyond cwd local_fs).
Local Abbreviation transfer_one :=
  (transfer_one DEPLOY_PATH home pace beyond cwd local_fs).
Local Abbreviation restart_server_services :=
  (restart_server_services home pace beyond).
Local Abbreviation main := (main DEPLOY_PATH home pace beyond cwd local_fs).
Local Abbreviation stages := (stages DEPLOY_PATH home pace beyond cwd local_fs).
Local Abbreviation temp_dir := (temp_dir DEPLOY_PATH).

Lemma mkdir_is_transfer_call x : transfer_call (ExecCommand ("mkdir -p " +:+ x)).
Proof. simpl. rewrite PyFacts.append_nil_l. by destruct x. Qed.

(** Everything the transfer stage does before it closes the SFTP channel
    is opening the channel, sending [mkdir -p] commands and putting
    files. *)
Lemma framed_transfer_loop ssh sftp :
  framed (adds transfer_call)
    (for_each (walk_build local_fs) (λ '(root, dirs, files),
       for_each files (transfer_one ssh sftp root))).
Proof.
  unfold Deploy.transfer_one, sftp_put. repeat adds_step;
    first [apply mkdir_is_transfer_call | done].
Qed.

Lemma transfer_body_raise_inv ssh w e w1 :
  (logger_info "Transferring files to the server..." ;;
   sftp <- open_sftp ssh ;;
   exec_command ssh ("mkdir -p " +:+ temp_dir) ;;
   for_each (walk_build local_fs) (λ '(root, dirs, files),
     for_each files (transfer_one ssh sftp root)) ;;
   sftp_close sftp ;;
   logger_info "File transfer completed.") w = (Raise e, w1) →
  adds transfer_call w w1.
Proof.
  intros H.
  apply bind_raise_inv in H as [H|([] & w2 & H2 & H)]; [done|].
  injection H2 as <-.
  etransitivity;
    [by apply (adds_same_trace _ w
                 (add_log INFO "Transferring files to the server..." w))|].
  assert (framed (adds transfer_call) (open_sftp ssh)) as Hopen
    by (unfold open_sftp; repeat adds_step; done).
  pose proof (Hopen (add_log INFO "Transferring files to the server..." w)) as R1.
  apply bind_raise_inv in H as [H|(sftp & w3 & H3 & H)];
    [by rewrite H in R1|rewrite H3 in R1].
  etransitivity; [exact R1|]. clear R1 H3.
  pose proof (framed_adds_exec transfer_call home pace beyond ssh _
                (mkdir_is_transfer_call temp_dir) w3) as R2.
  apply bind_raise_inv in H as [H|([] & w4 & H4 & H)];
    [by rewrite H in R2|rewrite H4 in R2].
  etransitivity; [exact R2|]. clear R2 H4.
  pose proof (framed_transfer_loop ssh sftp w4) as R3.
  apply bind_raise_inv in H as [H|([] & w5 & H5 & H)];
    [by rewrite H in R3|rewrite H5 in R3].
  done.
Qed.

Lemma transfer_raise_adds ssh w e w' :
  transfer_files ssh w = (Raise e, w') → adds transfer_call w w'.
Proof.
  intros (e1 & w1 & Hbody & Hh)%try_except_raise_inv.
  injection Hh as <- <-.
  apply transfer_body_raise_inv in Hbody.
  etransitivity; [exact Hbody|]. by apply adds_same_trace.
Qed.

(** A transfer that ends normally closes the SFTP channel as its last
    call. *)
Lemma transfer_ok_adds ssh w w' :
  transfer_files ssh w = (Ok tt, w') →
  ∃ evs, trace w' = trace w ++ evs ++ [(SftpClose, Returned)] ∧
         Forall (λ ev, transfer_call ev.1) evs.
Proof.
  intros H. apply try_except_ok_inv in H.
  2:{ intros e w0. by eexists _, _. }
  apply TransferFacts.bind_ok_inv in H as ([] & w0 & [= <-] & H).
  assert (framed (adds transfer_call) (open_sftp ssh)) as Hopen
    by (unfold open_sftp; repeat adds_step; done).
  pose proof (Hopen (add_log INFO "Transferring files to the server..." w)) as R1.
  apply TransferFacts.bind_ok_inv in H as (sftp & w1 & H1 & H). rewrite H1 in R1.
  pose proof (framed_adds_exec transfer_call home pace beyond ssh _
                (mkdir_is_transfer_call temp_dir) w1) as R2.
  apply TransferFacts.bind_ok_inv in H as ([] & w2 & H2 & H). rewrite H2 in R2.
  pose proof (framed_transfer_loop ssh sftp w2) as R3.
  apply TransferFacts.bind_ok_inv in H as ([] & w3 & H3 & H). rewrite H3 in R3.
  injection H as <-.
  assert (adds transfer_call w w3) as (evs & Ht & Hf).
  { etransitivity; [|etransitivity; [exact R1|etransitivity; [exact R2|exact R3]]].
    by apply adds_same_trace. }
  exists evs. simpl. by rewrite Ht, app_assoc.
Qed.

(** X2. When the transfer stage fails, it logs the exception and raises
    it again, and it has made no call but opening the SFTP channel,
    sending command lines that start with [mkdir -p ] and putting files:
    the SFTP channel is not closed, and the stage sends no command of
    another kind, none to clear staging among them. *)
Theorem failed_transfer_leaves_staging ssh w e w' :
  transfer_files ssh w = (Raise e, w') →
  last (log w') = Some (ERROR, "Failed to transfer files: " +:+ exn_str e) ∧
  ∃ evs, trace w' = trace w ++ evs ∧ Forall (λ ev, transfer_call ev.1) evs.
Proof.
  intros (e1 & w1 & Hbody & Hh)%try_except_raise_inv.
  injection Hh as <- <-. split; [simpl; by rewrite last_snoc|].
  by apply transfer_body_raise_inv in Hbody.
Qed.

(** X1. The connection stage makes one attempt. When [ssh.connect]
    raises, the stage logs the exception and raises the same one again,
    and the session is in the state it was in; when it returns, the stage
    returns the client and the session is open. The host's tree is not
    touched. *)
Theorem connect_reraises_transport_failure w :
  let r := connect_to_server w in
  remote r.2 = remote w ∧
  match head (env w) with
  | Some (Some e) =>
      r.1 = Raise e ∧ session_state r.2 = session_state w ∧
      trace r.2 = trace w ++ [(Connect, Raised e)] ∧
      log r.2 = log w ++
        [(INFO, "Connecting to the server...");
         (ERROR, "Failed to connect to the server: " +:+ exn_str e)]
  | _ =>
      r.1 = Ok Client ∧ session_state r.2 = Open ∧
      trace r.2 = trace w ++ [(Connect, Returned)] ∧
      log r.2 = log w ++
        [(INFO, "Connecting to the server...");
         (INFO, "Connected to the server successfully.")]
  end.
Proof.
  destruct w as [[|[e|] rest] ss rem pd fin tr lg sv]; simpl;
    rewrite <- ?app_assoc; done.
Qed.

(** The restart stage, call by call. *)
Lemma restart_cases ssh w :
  restart_server_services ssh w =
  let nginx := "sudo systemctl restart nginx" in
  let gunicorn := "sudo systemctl restart gunicorn" in
  let w0 := add_log INFO "Restarting server services..." w in
  match head (env w0) with
  | Some (Some e) =>
      (Raise e,
       add_log ERROR ("Failed to restart server services: " +:+ exn_str e)
         (failed nginx e w0))
  | _ =>
      let w1 := dispatched nginx w0 in
      match head (env w1) with
      | Some (Some e) =>
          (Raise e,
           add_log ERROR ("Failed to restart server services: " +:+ exn_str e)
             (failed gunicorn e w1))
      | _ =>
          (Ok tt,
           add_log INFO "Server services restarted successfully."
             (dispatched gunicorn w1))
      end
  end.
Proof.
  unfold Deploy.restart_server_services, try_except, bind, logger_info,
    logger_error, modify, raise.
  cbv beta iota zeta. rewrite exec_command_spec.
  destruct (head (env (add_log _ _ w))) as [[e|]|]; try reflexivity;
    rewrite exec_command_spec;
    destruct (head (env (dispatched _ _))) as [[e|]|]; reflexivity.
Qed.

(** The restart commands leave the host's tree as it is, and so does
    the host at work while nothing else is pending. *)
Local Abbreviation still cmd :=
  (∀ t, (Remote.sh_run beyond home cmd t).2 = t).
Local Abbreviation at_rest w w' :=
  (Forall (λ cmd, still cmd) (pending w) →
   Forall (λ cmd, still cmd) (pending w') ∧ remote w' = remote w).

#[local] Instance at_rest_preorder : PreOrder (λ w w', at_rest w w').
Proof.
  split.
  - by intros w Hw.
  - intros w1 w2 w3 H12 H23 Hw. destruct (H12 Hw) as [H2 E2].
    destruct (H23 H2) as [H3 E3]. split; [done|congruence].
Qed.

Lemma restart_still unit :
  Remote.sh_plain unit = true → still ("sudo systemctl restart " +:+ unit).
Proof.
  intros Hu t. destruct (RemoteFacts.sh_plain_inv unit Hu) as [Hne Hfree].
  unfold Remote.sh_run, Remote.sh_known, Remote.sh_exec.
  change ("sudo systemctl restart " +:+ unit)
    with ("sudo" +:+ String " " ("systemctl" +:+ String " "
            ("restart" +:+ String " " unit))).
  rewrite !RemoteFacts.sh_words_blank, (RemoteFacts.sh_words_word unit) by done.
  change (Remote.sh_words "sudo" ++ Remote.sh_words "systemctl" ++
          Remote.sh_words "restart" ++ [unit])
    with ["sudo"; "systemctl"; "restart"; unit].
  cbv iota beta. by rewrite Hu.
Qed.

Lemma restart_at_rest unit w :
  Remote.sh_plain unit = true →
  at_rest w (dispatched ("sudo systemctl restart " +:+ unit) w).
Proof.
  intros Hu. pose proof (restart_still unit Hu) as Hstill.
  apply (dispatched_by home pace beyond (λ w w', at_rest w w')).
  - by intros x w0 H0.
  - intros w0 H0. split; [|done]. cbn [pending add_pending].
    apply Forall_app. split; [done|]. by constructor.
  - intros k w0 H0. unfold Deploy.run_pending.
    destruct (pending w0 !! k) as [cmd|] eqn:Hk; [|done]. cbn [pending remote].
    split; [by apply Forall_delete|].
    apply (Forall_lookup_1 _ _ _ _ H0 Hk).
  - by intros w0 H0.
Qed.

Lemma restart_failed_at_rest unit e w :
  Remote.sh_plain unit = true →
  at_rest w (failed ("sudo systemctl restart " +:+ unit) e w).
Proof.
  intros Hu. pose proof (restart_still unit Hu) as Hstill.
  apply (failed_by home pace beyond (λ w w', at_rest w w')).
  - by intros x w0 H0.
  - intros w0 H0. split; [|done]. cbn [pending add_pending].
    apply Forall_app. split; [done|]. by constructor.
  - intros k w0 H0. unfold Deploy.run_pending.
    destruct (pending w0 !! k) as [cmd|] eqn:Hk; [|done]. cbn [pending remote].
    split; [by apply Forall_delete|].
    apply (Forall_lookup_1 _ _ _ _ H0 Hk).
  - by intros w0 H0.
Qed.

(** X7. The restart stage sends the restart of nginx, then the restart
    of gunicorn, and returns normally without waiting for either and
    without a look at their exit statuses. It stops at the first call
    that raises: the exception is logged and raised again, and when it is
    the first call the restart of gunicorn is never sent. When the
    commands still pending on the host change nothing in its tree (when
    none is pending, for one), the host's tree is left as it is, whenever
    the host runs the two commands. *)
Theorem restart_nginx_then_gunicorn ssh w :
  let r := restart_server_services ssh w in
  let nginx := ExecCommand "sudo systemctl restart nginx" in
  let gunicorn := ExecCommand "sudo systemctl restart gunicorn" in
  (Forall (λ cmd, ∀ t, (Remote.sh_run beyond home cmd t).2 = t) (pending w) →
   remote r.2 = remote w) ∧
  match head (env w), head (tail (env w)) with
  | Some (Some e), _ =>
      r.1 = Raise e ∧ trace r.2 = trace w ++ [(nginx, Raised e)] ∧
      last (log r.2)
        = Some (ERROR, "Failed to restart server services: " +:+ exn_str e)
  | _, Some (Some e) =>
      r.1 = Raise e ∧
      trace r.2 = trace w ++ [(nginx, Returned); (gunicorn, Raised e)] ∧
      last (log r.2)
        = Some (ERROR, "Failed to restart server services: " +:+ exn_str e)
  | _, _ =>
      r.1 = Ok tt ∧
      trace r.2 = trace w ++ [(nginx, Returned); (gunicorn, Returned)] ∧
      last (log r.2) = Some (INFO, "Server services restarted successfully.")
  end.
Proof.
  intros r nginx gunicorn. subst r. rewrite restart_cases. cbv zeta. split.
  - intros Hp.
    set (w0 := add_log INFO "Restarting server services..." w).
    assert (Forall (λ cmd, still cmd) (pending w0)) as H0 by exact Hp.
    destruct (restart_at_rest "nginx" w0 eq_refl H0) as [H1 E1].
    destruct (restart_at_rest "gunicorn" _ eq_refl H1) as [H2 E2].
    pose proof (λ e, restart_failed_at_rest "nginx" e w0 eq_refl H0) as F1.
    pose proof (λ e, restart_failed_at_rest "gunicorn" e _ eq_refl H1) as F2.
    change ("sudo systemctl restart " +:+ "nginx")
      with "sudo systemctl restart nginx" in *.
    change ("sudo systemctl restart " +:+ "gunicorn")
      with "sudo systemctl restart gunicorn" in *.
    destruct (head (env w0)) as [[e|]|]; cbn [snd remote add_log];
      [by destruct (F1 e) as [_ ->]|..];
      (destruct (head (env _)) as [[e|]|]; cbn [snd remote add_log];
       [destruct (F2 e) as [_ ->]; by rewrite E1|by rewrite E2, E1..]).
  - set (w0 := add_log INFO "Restarting server services..." w).
    assert (env (dispatched "sudo systemctl restart nginx" w0) = tail (env w))
      as He1 by (by rewrite dispatched_env).
    change (env w0) with (env w).
    destruct (env w) as [|[e|] rest]; cbn [head tail] in *.
    + rewrite He1. cbn [head fst snd log trace add_log].
      rewrite !dispatched_trace, last_snoc, <- app_assoc. done.
    + cbn [fst snd log trace add_log].
      by rewrite failed_trace, last_snoc.
    + rewrite He1. destruct rest as [|[e'|] rest]; cbn [head fst snd log trace
        add_log];
        rewrite ?failed_trace, !dispatched_trace, ?last_snoc, <- ?app_assoc; done.
Qed.

Lemma framed_switch_calls ssh :
  framed (adds (swap_call DEPLOY_PATH)) (switch_to_new_version ssh).
Proof.
  unfold Deploy.switch_to_new_version, Deploy.switch_body, Deploy.switch_handler.
  repeat adds_step; unfold swap_call; simpl; rewrite !elem_of_cons; auto.
Qed.

Lemma framed_restart_calls ssh :
  framed (adds restart_call) (restart_server_services ssh).
Proof.
  unfold Deploy.restart_server_services.
  repeat adds_step; unfold restart_call; simpl; rewrite !elem_of_cons; auto.
Qed.

(** The three kinds of call are told apart by the first word of the
    command. *)
Lemma stage_calls_differ c :
  (transfer_call c ∨ c = SftpClose →
   ¬ swap_call DEPLOY_PATH c ∧ ¬ restart_call c) ∧
  (swap_call DEPLOY_PATH c → ¬ restart_call c).
Proof.
  unfold swap_call, restart_call, Deploy.backup_cmd, Deploy.promote_cmd,
    Deploy.cleanup_cmd, Deploy.rollback_cmd.
  simpl. rewrite !elem_of_cons, !elem_of_nil. split.
  - intros [Ht| ->].
    + destruct c; try done;
        split; intros H;
        repeat (destruct H as [H|H];
                [first [discriminate H
                       |injection H as ->; cbv in Ht; discriminate Ht]|]);
        done.
    + split; intros H; repeat (destruct H as [H|H]; [discriminate H|]); done.
  - intros H1 H2.
    repeat (destruct H1 as [H1|H1];
            [subst c;
             repeat (destruct H2 as [H2|H2];
                     [injection H2 as H2; cbv in H2; discriminate H2|]);
             done|]).
    done.
Qed.

(** X8. The calls of the three stages that follow the connection come
    in this order: those of the transfer ([T]), those of the swap ([S]),
    those of the restart ([R]). A swap command is sent only after the
    transfer has closed its SFTP channel, that is, after it ended
    normally; a restart is sent only after the three commands of the swap
    were all handed to the host. *)
Theorem stages_run_in_order ssh w :
  let r := stages ssh w in
  ∃ T S R,
    trace r.2 = trace w ++ T ++ S ++ R ∧
    Forall (λ ev, transfer_call ev.1 ∨ ev.1 = SftpClose) T ∧
    Forall (λ ev, swap_call DEPLOY_PATH ev.1) S ∧
    Forall (λ ev, restart_call ev.1) R ∧
    (S ≠ [] → last T = Some (SftpClose, Returned)) ∧
    (R ≠ [] →
     S = [(ExecCommand (backup_cmd DEPLOY_PATH), Returned);
          (ExecCommand (promote_cmd DEPLOY_PATH), Returned);
          (ExecCommand (cleanup_cmd DEPLOY_PATH), Returned)]).
Proof.
  intros r. subst r. unfold Deploy.stages.
  rewrite (bind_run (transfer_files ssh)).
  destruct (transfer_files ssh w) as [[[]|e] w1] eqn:H1.
  2:{ apply transfer_raise_adds in H1 as (T & Ht & Hf).
      exists T, [], []. rewrite !app_nil_r. split_and!; try done.
      eapply Forall_impl; [exact Hf|]. by left. }
  apply transfer_ok_adds in H1 as (T0 & Ht & Hf).
  assert (Forall (λ ev, transfer_call ev.1 ∨ ev.1 = SftpClose)
            (T0 ++ [(SftpClose, Returned)])) as HT.
  { apply Forall_app. split; [|repeat constructor; by right].
    eapply Forall_impl; [exact Hf|]. by left. }
  rewrite (bind_run (switch_to_new_version ssh)).
  pose proof (framed_switch_calls ssh w1) as (S & Hs & Hfs).
  destruct (switch_to_new_version ssh w1) as [[[]|e] w2] eqn:H2; simpl in Hs.
  2:{ exists (T0 ++ [(SftpClose, Returned)]), S, []. simpl.
      rewrite Hs, Ht, app_nil_r, <- !app_assoc.
      split_and!; try done. intros _. by rewrite last_snoc. }
  apply switch_ok_inv, switch_body_ok_trace in H2.
  rewrite Hs in H2. apply app_inv_head in H2.
  rewrite (bind_run (restart_server_services ssh)).
  pose proof (framed_restart_calls ssh w2) as (R & Hr & Hfr).
  exists (T0 ++ [(SftpClose, Returned)]), S, R.
  assert (trace (restart_server_services ssh w2).2
          = trace w ++ (T0 ++ [(SftpClose, Returned)]) ++ S ++ R) as Htr.
  { rewrite Hr, Hs, Ht, <- !app_assoc. done. }
  split_and!; try done.
  - by destruct (restart_server_services ssh w2) as [[[]|e] w3].
  - intros _. by rewrite last_snoc.
Qed.

(** What [main] adds around the stages once [ssh.connect] has returned:
    the log line of a failed stage, the closing of the session and its
    log line.  It returns normally in every case. *)
Lemma main_after_connect faults host :
  (∀ e, head faults ≠ Some (Some e)) →
  let r := main (boot faults host) in
  let s := stages Client (connected (boot faults host)) in
  r.1 = Ok tt ∧
  trace r.2 = trace s.2 ++ [(SshClose, Returned)] ∧
  log r.2 = log s.2 ++
    match s.1 with
    | Ok _ => []
    | Raise e => [(ERROR, "❌ Deployment failed: " +:+ exn_str e)]
    end ++ [(INFO, "SSH connection closed.")] ∧
  remote r.2 = remote s.2.
Proof.
  intros Hf r s. subst r s.
  unfold Deploy.main, bind, modify, try_finally, try_except.
  rewrite (main_body_connected _ _ _ _ _ _ (boot faults host)) by done.
  pose proof (framed_stages DEPLOY_PATH home pace beyond cwd local_fs Client
                (connected (boot faults host))) as (_ & Hv & _).
  destruct (stages Client (connected (boot faults host))) as [[[]|e] w1];
    simpl in Hv |- *.
  - rewrite (main_finally_bound w1 Client) by done. done.
  - unfold logger_error, modify.
    rewrite (main_finally_bound _ Client) by done. simpl.
    by rewrite <- app_assoc.
Qed.

(** X9. [main] returns normally exactly when [ssh.connect] has
    returned. In that case, whatever the later stages did: an exception
    that escaped them is logged and goes no further, [ssh.close()] is the
    one call [main] adds after them, and the host's tree is as the stages
    left it. When [ssh.connect] raised, [main] ends with
    [UnboundLocalError]. *)
Theorem main_returns_iff_connected faults host :
  let r := main (boot faults host) in
  let s := stages Client (connected (boot faults host)) in
  match head faults with
  | Some (Some e) =>
      r.1 = Raise (Exn "UnboundLocalError"
              "cannot access local variable 'ssh' where it is not associated with a value")
  | _ =>
      r.1 = Ok tt ∧
      trace r.2 = trace s.2 ++ [(SshClose, Returned)] ∧
      log r.2 = log s.2 ++
        match s.1 with
        | Ok _ => []
        | Raise e => [(ERROR, "❌ Deployment failed: " +:+ exn_str e)]
        end ++ [(INFO, "SSH connection closed.")] ∧
      remote r.2 = remote s.2
  end.
Proof.
  intros r s. destruct faults as [|[e|] rest]; simpl.
  - by apply (main_after_connect []).
  - reflexivity.
  - by apply (main_after_connect (None :: rest)).
Qed.

End Script.

Lemma failed_transfer_leaves_staging_witness :
  let w := Scenario.online [None; Some Scenario.channel_closed] Scenario.host_plain in
  let w' := (transfer_files "/srv/app" [] Scenario.idle Scenario.no_other "/work"
               Scenario.local_site Client w).2 in
  last (log w') = Some (ERROR, "Failed to transfer files: Channel closed.") ∧
  ∃ evs, trace w' = trace w ++ evs ∧ Forall (λ ev, transfer_call ev.1) evs.
Proof.
  intros w w'.
  apply (failed_transfer_leaves_staging "/srv/app" [] Scenario.idle
           Scenario.no_other "/work" Scenario.local_site Client w
           Scenario.channel_closed w').
  vm_compute. reflexivity.
Defined.

Lemma restart_nginx_then_gunicorn_witness :
  let w := Scenario.online [None; Some Scenario.channel_closed] Scenario.host_plain in
  let r := restart_server_services [] Scenario.idle Scenario.no_other Client w in
  remote r.2 = remote w ∧ r.1 = Raise Scenario.channel_closed ∧
  trace r.2 = trace w ++
    [(ExecCommand "sudo systemctl restart nginx", Returned);
     (ExecCommand "sudo systemctl restart gunicorn",
      Raised Scenario.channel_closed)].
Proof.
  intros w r.
  destruct (restart_nginx_then_gunicorn [] Scenario.idle Scenario.no_other
              Client w) as (Hr & He & Ht & _).
  split_and!; [apply Hr; constructor|done..].
Defined.

Lemma stages_run_in_order_witness :
  let w := Scenario.online [] Scenario.host_plain in
  let r := stages "/srv/app" [] Scenario.at_once Scenario.no_other "/work"
             Scenario.local_site Client w in
  ∃ T S R,
    trace r.2 = trace w ++ T ++ S ++ R ∧
    Forall (λ ev, transfer_call ev.1 ∨ ev.1 = SftpClose) T ∧
    Forall (λ ev, swap_call "/srv/app" ev.1) S ∧
    Forall (λ ev, restart_call ev.1) R ∧
    (S ≠ [] → last T = Some (SftpClose, Returned)) ∧
    (R ≠ [] →
     S = [(ExecCommand (backup_cmd "/srv/app"), Returned);
          (ExecCommand (promote_cmd "/srv/app"), Returned);
          (ExecCommand (cleanup_cmd "/srv/app"), Returned)]).
Proof.
  intros w.
  exact (stages_run_in_order "/srv/app" [] Scenario.at_once Scenario.no_other
           "/work" Scenario.local_site Client w).
Defined.

End StageFacts.
(** ** The swap stage on hosts it was not written for *)

Module SwapEdges.
Import Deploy DeployFacts.

#[local] Arguments Remote.sh_exec : simpl never.
#[local] Arguments Remote.sh_run : simpl never.
#[local] Arguments Deploy.dispatched : simpl never.
#[local] Existing Instance ran_preorder.

#[local] Instance changed_within_preorder p names :
  PreOrder (Remote.changed_within p names).
Proof.
  split; [by left|].
  intros t1 t2 t3 [->|(es & es' & Hd & -> & Hk)]; [done|].
  intros [->|(fs & fs' & Hd' & -> & Hk')]; [right; by exists es, es'|].
  right. exists es, fs'.
  rewrite (RemoteFacts.fs_subst_lookup _ _ _ _ Hd) in Hd'. injection Hd' as <-.
  split; [done|]. split; [by erewrite RemoteFacts.fs_subst_twice|].
  intros k Hn. by rewrite Hk', Hk.
Qed.

Lemma mv_sibling_within p a b names t :
  a ∈ names → b ∈ names → a ≠ b →
  Remote.changed_within p names t
    (match Remote.fs_mv (p ++ [a]) (p ++ [b]) t with
     | Some t' => (0%Z, t')
     | None => (1%Z, t)
     end).2.
Proof.
  intros Ha Hb Hab.
  destruct (Remote.fs_lookup (p ++ [a]) t) as [x|] eqn:Hx;
    [|rewrite RemoteFacts.fs_mv_missing by done; by left].
  apply RemoteFacts.fs_lookup_child_inv in Hx as (es & Hd & Hx).
  destruct (Remote.fs_mv _ _ t) as [t'|] eqn:Hmv; [|by left]. simpl.
  destruct (RemoteFacts.fs_mv_sibling_inv _ _ _ _ _ _ _ Hd Hab Hx Hmv)
    as (es' & -> & _ & Hk).
  right. exists es, es'. split_and!; [done..|].
  intros k Hn. apply Hk; by intros ->.
Qed.

Lemma rm_rf_child_within p b names t :
  b ∈ names →
  Remote.changed_within p names t
    (match Remote.fs_rm_rf (p ++ [b]) t with
     | Some t' => (0%Z, t')
     | None => (1%Z, t)
     end).2.
Proof.
  intros Hb. destruct (Remote.fs_lookup p t) as [[d|es]|] eqn:Hd.
  - left. unfold Remote.fs_rm_rf. rewrite RemoteFacts.fs_lookup_app, Hd. simpl.
    by destruct (p ++ [b]).
  - rewrite (RemoteFacts.fs_rm_rf_child _ _ _ _ Hd). simpl.
    right. exists es, (delete b es). split_and!; [done..|].
    intros k Hn. rewrite lookup_delete_ne; [done|by intros ->].
  - left. unfold Remote.fs_rm_rf. rewrite RemoteFacts.fs_lookup_app, Hd. simpl.
    by destruct (p ++ [b]).
Qed.

Section Script.
Variable DEPLOY_PATH : string.
Variable home : list string.
Variable pace : tempo.
Variable beyond : string → Remote.node → Z * Remote.node.
Hypothesis path_fine : Remote.path_ok DEPLOY_PATH = true.

Local Abbreviation exec_command := (exec_command home pace beyond).
Local Abbreviation dispatched := (dispatched home pace beyond).
Local Abbreviation failed := (failed home pace beyond).
Local Abbreviation all_or_nothing := (all_or_nothing pace).
Local Abbreviation run_pending := (run_pending home beyond).
Local Abbreviation prompt := (prompt pace).
Local Abbreviation sh_run := (Remote.sh_run beyond home).
Local Abbreviation switch_to_new_version :=
  (switch_to_new_version DEPLOY_PATH home pace beyond).
Local Abbreviation switch_body := (switch_body DEPLOY_PATH home pace beyond).
Local Abbreviation backup_cmd := (backup_cmd DEPLOY_PATH).
Local Abbreviation promote_cmd := (promote_cmd DEPLOY_PATH).
Local Abbreviation cleanup_cmd := (cleanup_cmd DEPLOY_PATH).
Local Abbreviation rollback_cmd := (rollback_cmd DEPLOY_PATH).
Local Abbreviation temp_dir := (temp_dir DEPLOY_PATH).
Local Abbreviation backup_dir := (backup_dir DEPLOY_PATH).
Local Abbreviation dir := (Remote.parent_of home DEPLOY_PATH).
Local Abbreviation live := (Remote.leaf DEPLOY_PATH).
Local Abbreviation staging := (Remote.leaf DEPLOY_PATH +:+ "_temp").
Local Abbreviation backup := (Remote.leaf DEPLOY_PATH +:+ "_backup").

(** Nothing but commands of the swap is pending. *)
Local Abbreviation swap_only w :=
  (Forall (λ c, c ∈ [backup_cmd; promote_cmd; cleanup_cmd; rollback_cmd])
     (pending w)).

Local Abbreviation near w w' :=
  (swap_only w →
   swap_only w' ∧
   Remote.changed_within dir [live; staging; backup] (remote w) (remote w')).

Lemma swap_command_within cmd t :
  cmd ∈ [backup_cmd; promote_cmd; cleanup_cmd; rollback_cmd] →
  Remote.changed_within dir [live; staging; backup] t (sh_run cmd t).2.
Proof.
  destruct (RemoteFacts.swap_paths home _ path_fine) as (_ & _ & _ & N1 & N2 & N3).
  rewrite !elem_of_cons, elem_of_nil. intros [->|[->|[->|[->|[]]]]].
  - rewrite (exec_backup _ _ _ path_fine).
    apply mv_sibling_within; rewrite ?elem_of_cons; auto.
  - rewrite (exec_promote _ _ _ path_fine).
    apply mv_sibling_within; rewrite ?elem_of_cons; auto.
  - rewrite (exec_cleanup _ _ _ path_fine).
    apply rm_rf_child_within; rewrite ?elem_of_cons; auto.
  - rewrite (exec_rollback _ _ _ path_fine).
    apply mv_sibling_within; rewrite ?elem_of_cons; auto.
Qed.

#[local] Instance near_preorder : PreOrder (λ w w', near w w').
Proof.
  split; [intros w Hw; split; [done|by left]|].
  intros w1 w2 w3 H12 H23 H1. destruct (H12 H1) as [H2 C2].
  destruct (H23 H2) as [H3 C3]. split; [done|by etransitivity].
Qed.

Lemma near_same w w' :
  pending w' = pending w → remote w' = remote w → near w w'.
Proof. intros Hp Hr Hw. rewrite Hp, Hr. split; [done|by left]. Qed.

Lemma framed_near_exec ssh cmd :
  cmd ∈ [backup_cmd; promote_cmd; cleanup_cmd; rollback_cmd] →
  framed (λ w w', near w w') (exec_command ssh cmd).
Proof.
  intros Hc.
  apply (framed_exec_by home pace beyond (λ w w', near w w')).
  - intros; by apply near_same.
  - intros w0 H0. split; [|by left]. cbn [pending add_pending].
    apply Forall_app. split; [done|by constructor].
  - intros k w0 H0. unfold Deploy.run_pending.
    destruct (pending w0 !! k) as [c|] eqn:Hk; [|split; [done|by left]].
    cbn [pending remote]. split; [by apply Forall_delete|].
    apply swap_command_within, (Forall_lookup_1 _ _ _ _ H0 Hk).
  - intros; by apply near_same.
Qed.

(** X4. However the swap stage ends, whatever the transport does to its
    calls and whenever the host runs the commands: if nothing but
    commands of the swap is pending on the host when the stage starts,
    the host's tree afterwards differs from the tree before at most in
    three entries of one directory, the live, staging and backup names.
    Every other entry of that directory and everything outside it is as
    it was. What is still pending afterwards is again commands of the
    swap only. *)
Theorem swap_touches_three_names ssh w :
  Forall (λ c, c ∈ [backup_cmd; promote_cmd; cleanup_cmd; rollback_cmd])
    (pending w) →
  let w' := (switch_to_new_version ssh w).2 in
  Remote.changed_within dir [live; staging; backup] (remote w) (remote w') ∧
  Forall (λ c, c ∈ [backup_cmd; promote_cmd; cleanup_cmd; rollback_cmd])
    (pending w').
Proof.
  intros Hw w'. subst w'.
  assert (framed (λ w w', near w w') (switch_to_new_version ssh)) as H.
  2:{ destruct (H w Hw) as [H1 H2]. by split. }
  assert (∀ l msg, framed (λ w w', near w w') (modify (add_log l msg))) as Hlog.
  { intros l msg. apply framed_modify. intros w0. by apply near_same. }
  unfold Deploy.switch_to_new_version, Deploy.switch_body, Deploy.switch_handler,
    logger_info, logger_error.
  repeat lazymatch goal with
    | |- framed _ (try_except _ _) => apply framed_try_except; [apply _| |intros ?]
    | |- framed _ (Deploy.exec_command _ _ _ _ _) =>
        apply framed_near_exec; rewrite !elem_of_cons; auto
    | |- framed _ (bind _ _) => apply framed_bind; [apply _| |intros ?]
    | |- framed _ (modify (add_log _ _)) => apply Hlog
    | |- framed _ (raise _) => apply framed_raise, _
    end.
Qed.

(** X5. There is a live directory but neither a staging directory nor
    a backup, and the transport lets the three calls through. The swap
    stage then returns normally and logs success, and once the host has
    run the three commands in the order they were sent, the first has
    moved live to the backup name, the second has failed with exit
    status 1, the third has deleted the backup: nothing is left at the
    live path. A prompt host does run them in that order. *)
Theorem swap_without_staging_removes_live ssh w l :
  Remote.fs_lookup (Remote.resolve home DEPLOY_PATH) (remote w) = Some l →
  Remote.fs_lookup (Remote.resolve home temp_dir) (remote w) = None →
  Remote.fs_lookup (Remote.resolve home backup_dir) (remote w) = None →
  calm 3 w →
  ∃ w',
    switch_to_new_version ssh w = (Ok tt, w') ∧
    trace w' = trace w ++
      [(ExecCommand backup_cmd, Returned); (ExecCommand promote_cmd, Returned);
       (ExecCommand cleanup_cmd, Returned)] ∧
    last (log w') = Some (INFO, "Switched to the new version successfully.") ∧
    (∀ st1 st2 st3,
       finished w' = finished w ++
         [(backup_cmd, st1); (promote_cmd, st2); (cleanup_cmd, st3)] →
       st1 = 0%Z ∧ st2 = 1%Z ∧ st3 = 0%Z ∧
       Remote.fs_lookup (Remote.resolve home DEPLOY_PATH) (remote w') = None ∧
       Remote.fs_lookup (Remote.resolve home temp_dir) (remote w') = None ∧
       Remote.fs_lookup (Remote.resolve home backup_dir) (remote w') = None) ∧
    (prompt w →
     finished w' = finished w ++
       [(backup_cmd, 0%Z); (promote_cmd, 1%Z); (cleanup_cmd, 0%Z)]).
Proof.
  intros Hl Hs Hb Hc.
  destruct (RemoteFacts.swap_paths home _ path_fine) as (R1 & R2 & R3 & N1 & N2 & N3).
  unfold Deploy.temp_dir, Deploy.backup_dir in *. rewrite R1, R2, R3 in *.
  apply RemoteFacts.fs_lookup_child_inv in Hl as (es & Hd & Hel).
  rewrite (RemoteFacts.fs_lookup_child _ _ _ _ Hd) in Hs.
  rewrite (RemoteFacts.fs_lookup_child _ _ _ _ Hd) in Hb.
  set (es1 := <[backup := l]> (delete live es)).
  set (t1 := Remote.fs_subst dir (Remote.Dir es1) (remote w)).
  assert (Hd1 : Remote.fs_lookup dir t1 = Some (Remote.Dir es1))
    by (by eapply RemoteFacts.fs_subst_lookup).
  assert (E1 : sh_run backup_cmd (remote w) = (0%Z, t1)).
  { rewrite (exec_backup _ _ _ path_fine).
    by rewrite (RemoteFacts.fs_mv_sibling_fresh _ _ _ _ es l). }
  assert (E2 : sh_run promote_cmd t1 = (1%Z, t1)).
  { rewrite (exec_promote _ _ _ path_fine), RemoteFacts.fs_mv_missing; [done|].
    rewrite (RemoteFacts.fs_lookup_child _ _ _ _ Hd1). unfold es1.
    by rewrite lookup_insert_ne, lookup_delete_ne. }
  set (t3 := Remote.fs_subst dir (Remote.Dir (delete backup es1)) (remote w)).
  assert (E3 : sh_run cleanup_cmd t1 = (0%Z, t3)).
  { rewrite (exec_cleanup _ _ _ path_fine), (RemoteFacts.fs_rm_rf_child _ _ _ _ Hd1).
    unfold t1, t3. by erewrite RemoteFacts.fs_subst_twice. }
  pose proof (framed_ran_switch DEPLOY_PATH home pace beyond ssh w) as Hran.
  assert (switch_to_new_version ssh w =
          (Ok tt, add_log INFO "Switched to the new version successfully."
                    (dispatched cleanup_cmd
                       (dispatched promote_cmd
                          (dispatched backup_cmd (swap_started w)))))) as Hrun.
  { unfold Deploy.switch_to_new_version, try_except.
    by rewrite (switch_body_calm _ _ _ _ ssh w Hc). }
  rewrite Hrun in Hran. cbn [snd] in Hran.
  eexists. split; [exact Hrun|]. split_and!.
  - cbn [trace add_log]. rewrite !dispatched_trace. simpl.
    by rewrite <- !app_assoc.
  - cbn [log add_log]. by rewrite last_snoc.
  - intros st1 st2 st3 Hfin. destruct Hran as (news & Hf & Hr).
    rewrite Hfin in Hf. apply app_inv_head in Hf. subst news.
    cbn [replayed] in Hr. destruct Hr as (H1 & H2 & H3 & Hrem).
    rewrite E1 in *. cbn [fst snd] in *. rewrite E2 in *. cbn [fst snd] in *.
    rewrite E3 in *. cbn [fst snd] in *. rewrite Hrem.
    assert (Hd3 : Remote.fs_lookup dir t3 = Some (Remote.Dir (delete backup es1)))
      by (by eapply RemoteFacts.fs_subst_lookup).
    rewrite !(RemoteFacts.fs_lookup_child _ _ _ _ Hd3). unfold es1. split_and!.
    + done.
    + done.
    + done.
    + by rewrite lookup_delete_ne, lookup_insert_ne, lookup_delete_eq.
    + by rewrite lookup_delete_ne, lookup_insert_ne, lookup_delete_ne.
    + by rewrite lookup_delete_eq.
  - intros Hw.
    destruct (swap_dispatched_prompt DEPLOY_PATH home pace beyond w Hw)
      as (_ & -> & _).
    rewrite E1. cbn [fst snd]. rewrite E2. cbn [fst snd]. by rewrite E3.
Qed.

(** X6. A backup directory left by an earlier run defeats the rollback.
    The first call goes through, the second raises, the rollback call
    goes through. Once the host has run the first rename and, after it,
    the rollback command, the first has moved live into the old backup
    directory and the rollback has renamed that directory to the live
    name: the live path holds the old backup with the former live
    directory as one of its entries, not the content it held before the
    swap. A prompt host does run the two in that order, and nothing else,
    when the second rename was lost with the call that raised. *)
Theorem stale_backup_defeats_rollback ssh w l bs e rest :
  Remote.fs_lookup (Remote.resolve home DEPLOY_PATH) (remote w) = Some l →
  Remote.fs_lookup (Remote.resolve home backup_dir) (remote w)
    = Some (Remote.Dir bs) →
  bs !! live = None →
  env w = None :: Some e :: None :: rest →
  ∃ w',
    switch_to_new_version ssh w = (Raise e, w') ∧
    trace w' = trace w ++
      [(ExecCommand backup_cmd, Returned); (ExecCommand promote_cmd, Raised e);
       (ExecCommand rollback_cmd, Returned)] ∧
    (∀ st1 st2,
       finished w' = finished w ++ [(backup_cmd, st1); (rollback_cmd, st2)] →
       st1 = 0%Z ∧ st2 = 0%Z ∧
       Remote.fs_lookup (Remote.resolve home DEPLOY_PATH) (remote w')
         = Some (Remote.Dir (<[live := l]> bs)) ∧
       Remote.fs_lookup (Remote.resolve home backup_dir) (remote w') = None) ∧
    (prompt w → all_or_nothing w →
     finished w' = finished w ++ [(backup_cmd, 0%Z); (rollback_cmd, 0%Z)] ∧
     pending w' = []).
Proof.
  intros Hl Hb Hbs Henv.
  destruct (RemoteFacts.swap_paths home _ path_fine) as (R1 & R2 & R3 & N1 & N2 & N3).
  unfold Deploy.backup_dir in *. rewrite R1, R3 in *.
  apply RemoteFacts.fs_lookup_child_inv in Hl as (es & Hd & Hel).
  rewrite (RemoteFacts.fs_lookup_child _ _ _ _ Hd) in Hb.
  set (moved := Remote.Dir (<[live := l]> bs)).
  set (es1 := <[backup := moved]> (delete live es)).
  set (t1 := Remote.fs_subst dir (Remote.Dir es1) (remote w)).
  assert (Hd1 : Remote.fs_lookup dir t1 = Some (Remote.Dir es1))
    by (by eapply RemoteFacts.fs_subst_lookup).
  assert (E1 : sh_run backup_cmd (remote w) = (0%Z, t1)).
  { rewrite (exec_backup _ _ _ path_fine).
    rewrite (RemoteFacts.fs_mv_sibling _ _ _ _ es l) by done.
    rewrite Hb, Hbs. by destruct l. }
  set (es2 := <[live := moved]> (delete backup es1)).
  set (t2 := Remote.fs_subst dir (Remote.Dir es2) (remote w)).
  assert (E2 : sh_run rollback_cmd t1 = (0%Z, t2)).
  { rewrite (exec_rollback _ _ _ path_fine).
    rewrite (RemoteFacts.fs_mv_sibling_fresh _ _ _ _ es1 moved); unfold es1;
      [|done|done|by rewrite lookup_insert_eq
       |by rewrite lookup_insert_ne, lookup_delete_eq].
    unfold t1, t2. by erewrite RemoteFacts.fs_subst_twice. }
  pose proof (framed_ran_switch DEPLOY_PATH home pace beyond ssh w) as Hran.
  set (w0 := swap_started w).
  set (w1 := dispatched backup_cmd w0).
  set (w2 := rollback_started e (failed promote_cmd e w1)).
  assert (switch_to_new_version ssh w =
          (Raise e, add_log INFO "Rollback completed." (dispatched rollback_cmd w2)))
    as Hrun.
  { unfold Deploy.switch_to_new_version, try_except.
    rewrite switch_body_cases. cbv zeta. fold w0.
    change (env w0) with (env w). rewrite Henv. cbn [head]. fold w1.
    replace (head (env w1)) with (Some (Some e))
      by (unfold w1; rewrite dispatched_env; change (env w0) with (env w);
          by rewrite Henv).
    rewrite switch_handler_cases. cbv zeta. fold w2.
    replace (head (env w2)) with (Some (@None exn)); [done|].
    unfold w2, w1. cbn [env rollback_started add_log].
    rewrite failed_env, dispatched_env. change (env w0) with (env w).
    by rewrite Henv. }
  rewrite Hrun in Hran. cbn [snd] in Hran.
  eexists. split; [exact Hrun|]. split_and!.
  - cbn [trace add_log]. rewrite dispatched_trace. unfold w2.
    cbn [trace rollback_started add_log]. rewrite failed_trace.
    unfold w1. rewrite dispatched_trace. change (trace w0) with (trace w).
    by rewrite <- !app_assoc.
  - intros st1 st2 Hfin. destruct Hran as (news & Hf & Hr).
    rewrite Hfin in Hf. apply app_inv_head in Hf. subst news.
    cbn [replayed] in Hr. destruct Hr as (H1 & H2 & Hrem).
    rewrite E1 in *. cbn [fst snd] in *. rewrite E2 in *. cbn [fst snd] in *.
    rewrite Hrem.
    assert (Hd2 : Remote.fs_lookup dir t2 = Some (Remote.Dir es2))
      by (by eapply RemoteFacts.fs_subst_lookup).
    rewrite !(RemoteFacts.fs_lookup_child _ _ _ _ Hd2). unfold es2. split_and!.
    + done.
    + done.
    + by rewrite lookup_insert_eq.
    + by rewrite lookup_insert_ne, lookup_delete_eq.
  - intros Hw Hlost.
    assert (prompt w0) as P0 by (by apply prompt_log).
    pose proof (prompt_dispatched home pace beyond backup_cmd _ P0) as P1.
    fold w1 in P1.
    assert (failed promote_cmd e w1 = refused (ExecCommand promote_cmd) e w1)
      as Hf.
    { apply failed_lost, all_or_nothing_here. unfold w1.
      by apply all_or_nothing_dispatched, all_or_nothing_log. }
    assert (prompt w2) as P2
      by (unfold w2; rewrite Hf; by apply prompt_log, prompt_log, prompt_refused).
    cbn [finished pending add_log].
    rewrite (dispatched_prompt home pace beyond rollback_cmd _ P2).
    cbn [finished remote pending]. split; [|done]. unfold w2. rewrite Hf.
    cbn [finished remote rollback_started add_log refused add_trace set_env].
    unfold w1. rewrite (dispatched_prompt home pace beyond backup_cmd _ P0).
    cbn [finished remote]. change (remote w0) with (remote w).
    change (finished w0) with (finished w).
    rewrite E1. cbn [fst snd]. rewrite E2. cbn [fst snd].
    by rewrite <- !app_assoc.
Qed.

End Script.

Lemma swap_touches_three_names_witness :
  let w := Scenario.online [None; Some Scenario.channel_closed] Scenario.host_live in
  let w' := (switch_to_new_version "/srv/app" [] Scenario.second_first
               Scenario.no_other Client w).2 in
  Remote.changed_within (Remote.parent_of [] "/srv/app")
    [Remote.leaf "/srv/app"; Remote.leaf "/srv/app" +:+ "_temp";
     Remote.leaf "/srv/app" +:+ "_backup"]
    (remote w) (remote w') ∧
  Forall (λ c, c ∈ [backup_cmd "/srv/app"; promote_cmd "/srv/app";
                    cleanup_cmd "/srv/app"; rollback_cmd "/srv/app"])
    (pending w').
Proof.
  intros w.
  apply (swap_touches_three_names "/srv/app" [] Scenario.second_first
           Scenario.no_other eq_refl Client w).
  constructor.
Defined.

Lemma swap_without_staging_removes_live_witness :
  let w := Scenario.online [] Scenario.host_plain in
  ∃ w',
    switch_to_new_version "/srv/app" [] Scenario.at_once Scenario.no_other Client w
      = (Ok tt, w') ∧
    trace w' = trace w ++
      [(ExecCommand (backup_cmd "/srv/app"), Returned);
       (ExecCommand (promote_cmd "/srv/app"), Returned);
       (ExecCommand (cleanup_cmd "/srv/app"), Returned)] ∧
    last (log w') = Some (INFO, "Switched to the new version successfully.") ∧
    (∀ st1 st2 st3,
       finished w' = finished w ++
         [(backup_cmd "/srv/app", st1); (promote_cmd "/srv/app", st2);
          (cleanup_cmd "/srv/app", st3)] →
       st1 = 0%Z ∧ st2 = 1%Z ∧ st3 = 0%Z ∧
       Remote.fs_lookup (Remote.resolve [] "/srv/app") (remote w') = None ∧
       Remote.fs_lookup (Remote.resolve [] (temp_dir "/srv/app")) (remote w')
         = None ∧
       Remote.fs_lookup (Remote.resolve [] (backup_dir "/srv/app")) (remote w')
         = None) ∧
    (prompt Scenario.at_once w →
     finished w' = finished w ++
       [(backup_cmd "/srv/app", 0%Z); (promote_cmd "/srv/app", 1%Z);
        (cleanup_cmd "/srv/app", 0%Z)]).
Proof.
  intros w.
  apply (swap_without_staging_removes_live "/srv/app" [] Scenario.at_once
           Scenario.no_other eq_refl Client w
           (Remote.Dir {[ "index.html" := Remote.File Scenario.old_page ]}));
    [vm_compute; reflexivity..|constructor].
Defined.

Lemma stale_backup_defeats_rollback_witness :
  let w := Scenario.online [None; Some Scenario.channel_closed; None]
             Scenario.host_stale in
  let l := Remote.Dir {[ "index.html" := Remote.File Scenario.old_page ]} in
  ∃ w',
    switch_to_new_version "/srv/app" [] Scenario.at_once Scenario.no_other Client w
      = (Raise Scenario.channel_closed, w') ∧
    trace w' = trace w ++
      [(ExecCommand (backup_cmd "/srv/app"), Returned);
       (ExecCommand (promote_cmd "/srv/app"), Raised Scenario.channel_closed);
       (ExecCommand (rollback_cmd "/srv/app"), Returned)] ∧
    (∀ st1 st2,
       finished w' = finished w ++
         [(backup_cmd "/srv/app", st1); (rollback_cmd "/srv/app", st2)] →
       st1 = 0%Z ∧ st2 = 0%Z ∧
       Remote.fs_lookup (Remote.resolve [] "/srv/app") (remote w')
         = Some (Remote.Dir (<[Remote.leaf "/srv/app" := l]>
                               {[ "old.html" := Remote.File Scenario.stale_page ]})) ∧
       Remote.fs_lookup (Remote.resolve [] (backup_dir "/srv/app")) (remote w')
         = None) ∧
    (prompt Scenario.at_once w → all_or_nothing Scenario.at_once w →
     finished w' = finished w ++
       [(backup_cmd "/srv/app", 0%Z); (rollback_cmd "/srv/app", 0%Z)] ∧
     pending w' = []).
Proof.
  intros w l.
  apply (stale_backup_defeats_rollback "/srv/app" [] Scenario.at_once
           Scenario.no_other eq_refl Client w l
           {[ "old.html" := Remote.File Scenario.stale_page ]}
           Scenario.channel_closed []);
    vm_compute; reflexivity.
Defined.

End SwapEdges.
(** ** What the transfer stage leaves alone *)

Module TransferSafety.
Import Py PyFacts Deploy DeployFacts TransferFacts.

#[local] Arguments Remote.sh_exec : simpl never.
#[local] Arguments Remote.sh_run : simpl never.
#[local] Arguments Deploy.dispatched : simpl never.
#[local] Arguments Deploy.host_runs : simpl never.

#[local] Instance same_files_outside_preorder p : PreOrder (same_files_outside p).
Proof.
  split; [by intros w q d _|].
  intros w1 w2 w3 H12 H23 q d Hq. by rewrite (H23 q d Hq), (H12 q d Hq).
Qed.

Section Script.
Variable DEPLOY_PATH : string.
Variable home : list string.
Variable pace : tempo.
Variable beyond : string → Remote.node → Z * Remote.node.
Variable cwd : string.
Variable local_fs : Local.node.
Hypothesis build_fine : build_well_formed local_fs.

Local Abbreviation exec_command := (exec_command home pace beyond).
Local Abbreviation keeps_files := (keeps_files home beyond).
Local Abbreviation transfer_files :=
  (transfer_files DEPLOY_PATH home pace beyond cwd local_fs).
Local Abbreviation transfer_one :=
  (transfer_one DEPLOY_PATH home pace beyond cwd local_fs).
Local Abbreviation temp_dir := (temp_dir DEPLOY_PATH).
Local Abbreviation build_files := (build_files local_fs).
Local Abbreviation put_file := (put_file DEPLOY_PATH home pace beyond local_fs).
Local Abbreviation staging := (Remote.resolve home temp_dir).

Hypothesis path_plain : Remote.sh_plain DEPLOY_PATH = true.
Hypothesis dirs_plain :
  ∀ x, x ∈ build_files → Forall (λ n, Remote.sh_plain n = true) x.1.1.

(** While what is pending leaves the regular files alone, so does the
    stage outside staging, and what is pending afterwards again leaves
    them alone. *)
Local Abbreviation outside w w' :=
  (Forall keeps_files (pending w) →
   Forall keeps_files (pending w') ∧ same_files_outside staging w w').

#[local] Instance outside_preorder : PreOrder (λ w w', outside w w').
Proof.
  split; [intros w Hw; split; [done|reflexivity]|].
  intros w1 w2 w3 H12 H23 H1. destruct (H12 H1) as [H2 S2].
  destruct (H23 H2) as [H3 S3]. split; [done|by etransitivity].
Qed.

Lemma outside_same w w' :
  pending w' = pending w → remote w' = remote w → outside w w'.
Proof. intros Hp Hr Hw. rewrite Hp. split; [done|]. intros q d _. by rewrite Hr. Qed.

Lemma framed_outside_mkdir ssh a :
  Remote.sh_plain a = true →
  framed (λ w w', outside w w') (exec_command ssh ("mkdir -p " +:+ a)).
Proof.
  intros Ha w. rewrite exec_command_spec.
  destruct (head (env w)) as [[e|]|]; cbn [snd]; intros Hw;
    [destruct (failed_files home pace beyond ("mkdir -p " +:+ a) e w
                 (mkdir_keeps_files home beyond a Ha) Hw) as [H1 H2]
    |destruct (dispatched_files home pace beyond ("mkdir -p " +:+ a) w
                 (mkdir_keeps_files home beyond a Ha) Hw) as [H1 H2]..];
    (split; [done|]; intros q d _; apply H2).
Qed.

Lemma framed_outside_put sftp x :
  x ∈ build_files →
  framed (λ w w', outside w w')
    (sftp_put home pace beyond local_fs sftp (local_path_of x)
       (remote_path_of DEPLOY_PATH x)).
Proof.
  intros Hx w.
  rewrite (sftp_put_listed DEPLOY_PATH home pace beyond local_fs build_fine
             sftp x w Hx).
  cbv zeta.
  destruct (head (env w)) as [[e|]|]; cbn [snd]; [by apply outside_same|..];
    (intros Hw;
     destruct (host_runs_files home pace beyond (set_env (tail (env w)) w) Hw)
       as [H1 H2];
     destruct (Remote.fs_write _ _ _) as [t|] eqn:Hwr; cbn [snd];
     [destruct (RemoteFacts.fs_write_files _ _ _ _ Hwr) as [_ Hother];
      split; [done|]; intros q d Hq; cbn [remote add_trace set_remote];
      rewrite Hother by (intros ->; apply Hq; by apply prefix_app_r);
      apply H2
     |split; [done|]; intros q d _; apply H2]).
Qed.

Lemma framed_outside_info msg : framed (λ w w', outside w w') (logger_info msg).
Proof. apply framed_modify. intros w. by apply outside_same. Qed.

Lemma framed_outside_error msg : framed (λ w w', outside w w') (logger_error msg).
Proof. apply framed_modify. intros w. by apply outside_same. Qed.

Lemma framed_outside_put_file ssh sftp x :
  x ∈ build_files → framed (λ w w', outside w w') (put_file ssh sftp x).
Proof.
  intros Hx. unfold Deploy.put_file.
  apply framed_bind; [apply _| |intros _].
  { apply framed_outside_mkdir.
    by apply (file_dir DEPLOY_PATH local_fs build_fine path_plain dirs_plain). }
  apply framed_bind; [apply _|by apply framed_outside_put|intros _].
  apply framed_outside_info.
Qed.

Lemma framed_outside_walk ssh sftp :
  framed (λ w w', outside w w')
    (for_each (walk_build local_fs) (λ '(root, dirs, files),
       for_each files (transfer_one ssh sftp root))).
Proof.
  intros w.
  rewrite for_each_walk, (walk_build_items _ build_fine), for_each_fmap.
  rewrite (for_each_ext _ _ (put_file ssh sftp)).
  - apply (framed_for_each_in (λ w w', outside w w')). intros x Hx.
    by apply framed_outside_put_file.
  - intros x wx Hx. by apply transfer_one_listed.
Qed.

(** X3. The deploy path and the names of the directories of the build
    are plain words, and no command that could change a regular file is
    pending when the stage starts. However the transfer stage ends and
    whenever the host runs the [mkdir -p] commands, the stage creates,
    changes and removes no regular file of the host outside the staging
    directory: at every path that does not go through staging the host
    has the same regular file, with the same content, before and
    after. *)
Theorem transfer_keeps_files_outside_staging ssh w q d :
  Forall keeps_files (pending w) →
  ¬ Remote.resolve home temp_dir `prefix_of` q →
  Remote.fs_lookup q (remote (transfer_files ssh w).2) = Some (Remote.File d) ↔
  Remote.fs_lookup q (remote w) = Some (Remote.File d).
Proof.
  intros Hw. revert q d.
  assert (framed (λ w w', outside w w') (transfer_files ssh)) as H;
    [|by destruct (H w Hw)].
  unfold Deploy.transfer_files.
  apply framed_try_except; [apply _| |].
  - apply framed_bind; [apply _|apply framed_outside_info|intros _].
    apply framed_bind; [apply _| |intros sftp].
    { intros w0. destruct w0 as [[|[e|] rest] ss rem pd fin tr lg sv];
        by apply outside_same. }
    apply framed_bind; [apply _| |intros _].
    { apply framed_outside_mkdir. by apply temp_dir_plain. }
    apply framed_bind; [apply _|apply framed_outside_walk|intros _].
    apply framed_bind; [apply _| |intros _; apply framed_outside_info].
    apply framed_modify. intros w0. by apply outside_same.
  - intros e. apply framed_bind; [apply _|apply framed_outside_error|intros _].
    apply framed_raise, _.
Qed.

End Script.

Lemma transfer_keeps_files_outside_staging_witness :
  let w := Scenario.online [] Scenario.host_plain in
  let w' := (transfer_files "/srv/app" [] Scenario.idle Scenario.no_other "/work"
               Scenario.local_site Client w).2 in
  Remote.fs_lookup ["srv"; "app"; "index.html"] (remote w')
    = Some (Remote.File Scenario.old_page) ↔
  Remote.fs_lookup ["srv"; "app"; "index.html"] (remote w)
    = Some (Remote.File Scenario.old_page).
Proof.
  intros w w'.
  apply (transfer_keeps_files_outside_staging "/srv/app" [] Scenario.idle
           Scenario.no_other "/work" Scenario.local_site local_site_fine eq_refl
           local_site_dirs_plain Client w).
  - constructor.
  - intros [k Hk]. vm_compute in Hk. discriminate Hk.
Defined.

End TransferSafety.
(** ** A host that lags behind the script *)

Module HostLag.
Import Py PyFacts RemoteFacts Deploy DeployFacts TransferFacts.

#[local] Arguments Remote.sh_exec : simpl never.
#[local] Arguments Remote.sh_run : simpl never.
#[local] Arguments Deploy.dispatched : simpl never.
#[local] Arguments Deploy.host_runs : simpl never.

(** Nothing can be bound below a path that does not exist. *)
Lemma fs_set_below_missing a b v t :
  Remote.fs_lookup a t = None → b ≠ [] → Remote.fs_set (a ++ b) v t = None.
Proof.
  intros Ha Hb. revert t Ha. induction a as [|n a IH]; intros t Ha; [done|].
  change ((n :: a) ++ b) with (n :: (a ++ b)).
  destruct t as [d|es]; [by destruct (a ++ b)|]. simpl in Ha.
  destruct (a ++ b) as [|m q] eqn:Hq; [by destruct a|].
  rewrite RemoteFacts.fs_set_cons.
  destruct (es !! n) as [c|]; [|done]. by rewrite (IH c Ha).
Qed.

Lemma fs_write_below_missing a b data t :
  Remote.fs_lookup a t = None → b ≠ [] →
  Remote.fs_lookup (a ++ b) t = None ∧ Remote.fs_write (a ++ b) data t = None.
Proof.
  intros Ha Hb.
  assert (Remote.fs_lookup (a ++ b) t = None) as Hl
    by (by rewrite RemoteFacts.fs_lookup_app, Ha).
  split; [done|]. unfold Remote.fs_write. rewrite Hl.
  by apply fs_set_below_missing.
Qed.

Section Script.
Variable DEPLOY_PATH : string.
Variable home : list string.
Variable pace : tempo.
Variable beyond : string → Remote.node → Z * Remote.node.
Variable cwd : string.
Variable local_fs : Local.node.
Hypothesis build_fine : build_well_formed local_fs.

Local Abbreviation exec_command := (exec_command home pace beyond).
Local Abbreviation dispatched := (dispatched home pace beyond).
Local Abbreviation host_runs := (host_runs home pace beyond).
Local Abbreviation transfer_files :=
  (transfer_files DEPLOY_PATH home pace beyond cwd local_fs).
Local Abbreviation transfer_one :=
  (transfer_one DEPLOY_PATH home pace beyond cwd local_fs).
Local Abbreviation temp_dir := (temp_dir DEPLOY_PATH).
Local Abbreviation build_files := (build_files local_fs).
Local Abbreviation remote_path_of := (remote_path_of DEPLOY_PATH).
Local Abbreviation put_file := (put_file DEPLOY_PATH home pace beyond local_fs).
Local Abbreviation staging := (Remote.resolve home temp_dir).

(** A command handed to a host that runs nothing meanwhile is pending,
    and that is all. *)
Lemma dispatched_idle cmd w :
  runs pace (length (trace w)) = [] →
  dispatched cmd w =
  add_trace (ExecCommand cmd) Returned
    (add_pending cmd (set_env (tail (env w)) w)).
Proof.
  intros H. unfold Deploy.dispatched, Deploy.host_runs.
  cbn [trace add_pending set_env]. by rewrite H.
Qed.

Lemma host_runs_nothing w :
  runs pace (length (trace w)) = [] → host_runs w = w.
Proof. intros H. unfold Deploy.host_runs. by rewrite H. Qed.

Lemma open_sftp_calm ssh n w :
  calm (S n) w →
  let w' := add_trace OpenSftp Returned (set_env (tail (env w)) w) in
  open_sftp ssh w = (Ok Sftp, w') ∧ calm n w'.
Proof.
  intros Hc w'. subst w'.
  destruct (calm_step n w (add_trace OpenSftp Returned (set_env (tail (env w)) w))
              Hc eq_refl) as [Hh Hc'].
  split; [|done].
  unfold open_sftp, external, bind, next_fault, try_except, modify, ret.
  destruct w as [[|[e|] rest] ss rem pd fin tr lg sv]; simpl in *;
    [done|by destruct Hh|done].
Qed.

(** X17. The transfer stage does not wait for the host. There is no
    staging directory yet, the build has a file, the transport lets the
    first four calls of the stage through, and the host runs nothing
    while they are made. Then the first [put] finds no directory to
    write into: the stage logs and raises [FileNotFoundError], after the
    calls [open_sftp], [mkdir -p] for staging, [mkdir -p] for the
    directory of the first file and the [put] that raised. The host's
    tree is as it was, and the two [mkdir -p] are still waiting to be
    run. *)
Theorem transfer_fails_on_lagging_host ssh w x rest :
  build_files = x :: rest →
  calm 4 w →
  (∀ k, k < 4 → runs pace (length (trace w) + k) = []) →
  Remote.fs_lookup (Remote.resolve home temp_dir) (remote w) = None →
  let gone := Exn "FileNotFoundError" "[Errno 2] No such file" in
  let make_staging := "mkdir -p " +:+ temp_dir in
  let make_dir := "mkdir -p " +:+ Py.dirname (remote_path_of x) in
  ∃ w',
    transfer_files ssh w = (Raise gone, w') ∧
    trace w' = trace w ++
      [(OpenSftp, Returned); (ExecCommand make_staging, Returned);
       (ExecCommand make_dir, Returned);
       (SftpPut (local_path_of x) (remote_path_of x), Raised gone)] ∧
    remote w' = remote w ∧
    pending w' = pending w ++ [make_staging; make_dir] ∧
    last (log w') = Some (ERROR, "Failed to transfer files: " +:+ exn_str gone).
Proof.
  intros Hfiles Hc Hidle Hst gone make_staging make_dir.
  assert (x ∈ build_files) as Hx by (rewrite Hfiles; by left).
  set (w0 := add_log INFO "Transferring files to the server..." w).
  destruct (open_sftp_calm ssh 3 w0 Hc) as [Ho Hc1]. cbv zeta in Ho, Hc1.
  set (w1 := add_trace OpenSftp Returned (set_env (tail (env w0)) w0)) in *.
  destruct (exec_command_calm home pace beyond ssh make_staging 2 w1 Hc1)
    as [He1 Hc2].
  assert (length (trace w1) = length (trace w) + 1) as L1
    by (unfold w1; cbn [trace add_trace set_env]; rewrite length_app; done).
  rewrite dispatched_idle in He1, Hc2 by (rewrite L1; apply Hidle; lia).
  set (w2 := add_trace (ExecCommand make_staging) Returned
               (add_pending make_staging (set_env (tail (env w1)) w1))) in *.
  destruct (exec_command_calm home pace beyond ssh make_dir 1 w2 Hc2)
    as [He2 Hc3].
  assert (length (trace w2) = length (trace w) + 2) as L2
    by (unfold w2; cbn [trace add_trace add_pending set_env];
        rewrite length_app, L1; simpl; lia).
  rewrite dispatched_idle in He2, Hc3 by (rewrite L2; apply Hidle; lia).
  set (w3 := add_trace (ExecCommand make_dir) Returned
               (add_pending make_dir (set_env (tail (env w2)) w2))) in *.
  assert (length (trace w3) = length (trace w) + 3) as L3
    by (unfold w3; cbn [trace add_trace add_pending set_env];
        rewrite length_app, L2; simpl; lia).
  destruct (calm_step 0 w3 (set_env (tail (env w3)) w3) Hc3 eq_refl) as [Hh _].
  destruct (fs_write_below_missing staging (Local.rel_path x) x.2 (remote w) Hst)
    as [Hl Hw]; [unfold Local.rel_path; by destruct (x.1.1)|].
  set (w4 := add_trace (SftpPut (local_path_of x) (remote_path_of x)) (Raised gone)
               (set_env (tail (env w3)) w3)).
  assert (sftp_put home pace beyond local_fs Sftp (local_path_of x)
            (remote_path_of x) w3 = (Raise gone, w4)) as Hput.
  { rewrite (sftp_put_listed DEPLOY_PATH home pace beyond local_fs build_fine
               Sftp x w3 Hx). cbv zeta.
    rewrite host_runs_nothing
      by (cbn [trace set_env]; rewrite L3; apply Hidle; lia).
    change (remote (set_env (tail (env w3)) w3)) with (remote w).
    rewrite Hw. unfold put_refused. rewrite Hl. fold gone. fold w4.
    by destruct Hh as [-> | ->]. }
  exists (add_log ERROR ("Failed to transfer files: " +:+ exn_str gone) w4).
  split_and!; [|unfold w4, w3, w2, w1; cbn; by rewrite <- !app_assoc
               |done
               |unfold w4, w3, w2, w1; cbn; by rewrite <- !app_assoc
               |cbn [log add_log]; by rewrite last_snoc].
  unfold Deploy.transfer_files, try_except.
  rewrite (bind_run (logger_info _)). unfold logger_info at 1, modify.
  cbv beta iota. fold w0.
  rewrite (bind_run (open_sftp ssh)), Ho. cbv beta iota.
  rewrite (bind_run (exec_command ssh _)). fold make_staging.
  rewrite He1. cbv beta iota.
  rewrite (bind_run (for_each _ _)).
  rewrite for_each_walk, (walk_build_items _ build_fine), for_each_fmap.
  rewrite (for_each_ext _ _ (put_file ssh Sftp))
    by (intros y wy Hy; by apply transfer_one_listed).
  rewrite Hfiles. cbn [for_each]. rewrite (bind_run (put_file ssh Sftp x)).
  unfold Deploy.put_file at 1. fold make_dir.
  rewrite (bind_run (exec_command ssh _)), He2. cbv beta iota.
  rewrite (bind_run (sftp_put _ _ _ _ _ _ _)), Hput. cbv beta iota.
  reflexivity.
Qed.

End Script.

Lemma transfer_fails_on_lagging_host_witness :
  let w := Scenario.online [] Scenario.host_plain in
  let gone := Exn "FileNotFoundError" "[Errno 2] No such file" in
  ∃ w',
    transfer_files "/srv/app" [] Scenario.idle Scenario.no_other "/work"
      Scenario.local_site Client w = (Raise gone, w') ∧
    trace w' = trace w ++
      [(OpenSftp, Returned);
       (ExecCommand ("mkdir -p " +:+ temp_dir "/srv/app"), Returned);
       (ExecCommand
          ("mkdir -p " +:+
           Py.dirname (remote_path_of "/srv/app" ([], "index.html", Scenario.index_html))),
        Returned);
       (SftpPut (local_path_of ([], "index.html", Scenario.index_html))
          (remote_path_of "/srv/app" ([], "index.html", Scenario.index_html)),
        Raised gone)] ∧
    remote w' = remote w ∧
    pending w' = pending w ++
      ["mkdir -p " +:+ temp_dir "/srv/app";
       "mkdir -p " +:+
       Py.dirname (remote_path_of "/srv/app" ([], "index.html", Scenario.index_html))] ∧
    last (log w') = Some (ERROR, "Failed to transfer files: " +:+ exn_str gone).
Proof.
  intros w gone.
  apply (transfer_fails_on_lagging_host "/srv/app" [] Scenario.idle
           Scenario.no_other "/work" Scenario.local_site local_site_fine Client w
           ([], "index.html", Scenario.index_html)
           (tail (build_files Scenario.local_site)));
    [vm_compute; reflexivity|constructor|reflexivity|vm_compute; reflexivity].
Defined.

End HostLag.
(** ** The first script: a whole run *)

Module EndToEnd.
Import Py PyFacts RemoteFacts Deploy DeployFacts TransferFacts.

#[local] Arguments Remote.sh_exec : simpl never.
#[local] Arguments Remote.sh_run : simpl never.
#[local] Arguments Deploy.dispatched : simpl never.
#[local] Arguments Deploy.host_runs : simpl never.

Lemma quiet_head w : quiet w → ∀ e, head (env w) ≠ Some (Some e).
Proof.
  unfold quiet. destruct (env w) as [|f rest]; [done|].
  intros [-> _]%Forall_cons. done.
Qed.

Lemma quiet_tail w w' : quiet w → env w' = tail (env w) → quiet w'.
Proof.
  unfold quiet. intros Hq ->. destruct (env w); [done|].
  by apply Forall_cons in Hq as [_ ?].
Qed.

Lemma quiet_calm n w : quiet w → calm n w.
Proof. unfold quiet, calm. intros Hq. by apply Forall_take. Qed.

Section Script.
Variable DEPLOY_PATH : string.
Variable home : list string.
Variable pace : tempo.
Variable beyond : string → Remote.node → Z * Remote.node.
Variable cwd : string.
Variable local_fs : Local.node.
Hypothesis path_fine : Remote.path_ok DEPLOY_PATH = true.

Local Abbreviation exec_command := (exec_command home pace beyond).
Local Abbreviation dispatched := (dispatched home pace beyond).
Local Abbreviation failed := (failed home pace beyond).
Local Abbreviation prompt := (prompt pace).
Local Abbreviation sh_run := (Remote.sh_run beyond home).
Local Abbreviation switch_to_new_version :=
  (switch_to_new_version DEPLOY_PATH home pace beyond).
Local Abbreviation transfer_files :=
  (transfer_files DEPLOY_PATH home pace beyond cwd local_fs).
Local Abbreviation transfer_one :=
  (transfer_one DEPLOY_PATH home pace beyond cwd local_fs).
Local Abbreviation restart_server_services :=
  (restart_server_services home pace beyond).
Local Abbreviation main := (main DEPLOY_PATH home pace beyond cwd local_fs).
Local Abbreviation stages := (stages DEPLOY_PATH home pace beyond cwd local_fs).
Local Abbreviation temp_dir := (temp_dir DEPLOY_PATH).
Local Abbreviation backup_dir := (backup_dir DEPLOY_PATH).
Local Abbreviation build_files := (build_files local_fs).
Local Abbreviation remote_path_of := (remote_path_of DEPLOY_PATH).
Local Abbreviation put_file := (put_file DEPLOY_PATH home pace beyond local_fs).
Local Abbreviation dir := (Remote.parent_of home DEPLOY_PATH).
Local Abbreviation live := (Remote.leaf DEPLOY_PATH).
Local Abbreviation staging := (Remote.leaf DEPLOY_PATH +:+ "_temp").
Local Abbreviation backup := (Remote.leaf DEPLOY_PATH +:+ "_backup").

(** The transport lets every call through, and the host runs each
    command it is handed before the call returns. *)
Local Abbreviation steady w := (quiet w ∧ prompt w).

Lemma exec_steady ssh cmd w :
  steady w →
  exec_command ssh cmd w = (Ok tt, dispatched cmd w) ∧
  steady (dispatched cmd w) ∧
  remote (dispatched cmd w) = (sh_run cmd (remote w)).2.
Proof.
  intros [Hq Hp]. rewrite exec_command_spec. pose proof (quiet_head w Hq) as Hh.
  split_and!.
  - destruct (head (env w)) as [[e|]|]; [by destruct (Hh e)|done..].
  - apply (quiet_tail w); [done|apply dispatched_env].
  - by apply prompt_dispatched.
  - by rewrite (dispatched_prompt home pace beyond cmd w Hp).
Qed.

(** Making the staging directory on a host that has none. *)
Lemma make_staging t es :
  Remote.fs_lookup dir t = Some (Remote.Dir es) → es !! staging = None →
  sh_run ("mkdir -p " +:+ temp_dir) t =
  (0%Z, Remote.fs_subst dir (Remote.Dir (<[staging := Remote.Dir ∅]> es)) t).
Proof.
  intros Hd Hs.
  destruct (deploy_path_plain DEPLOY_PATH path_fine) as (_ & Hp & _).
  destruct (RemoteFacts.swap_paths home _ path_fine) as (_ & R2 & _).
  rewrite RemoteFacts.sh_run_known by (by apply RemoteFacts.sh_known_mkdir_p).
  rewrite sh_exec_mkdir_p by done. unfold Deploy.temp_dir. rewrite R2.
  rewrite (fs_mkdir_p_below dir [staging] t (Remote.Dir es)
             (Remote.Dir (<[staging := Remote.Dir ∅]> es))); [done|done|].
  simpl. by rewrite Hs.
Qed.

Lemma open_sftp_quiet ssh w :
  quiet w →
  open_sftp ssh w =
  (Ok Sftp, add_trace OpenSftp Returned (set_env (tail (env w)) w)).
Proof.
  intros Hq. pose proof (quiet_head w Hq) as Hh.
  unfold open_sftp, external, bind, next_fault, try_except, modify, ret.
  destruct w as [[|[e|] rest] ss rem pd fin tr lg sv]; simpl in *;
    [done|by destruct (Hh e)|done].
Qed.

(** The transfer stage over a transport that lets every call through. *)
Lemma transfer_files_steady ssh w :
  steady w →
  let w1 := add_trace OpenSftp Returned
              (set_env (tail (env w))
                 (add_log INFO "Transferring files to the server..." w)) in
  let w2 := dispatched ("mkdir -p " +:+ temp_dir) w1 in
  steady w2 ∧
  remote w2 = (sh_run ("mkdir -p " +:+ temp_dir) (remote w)).2 ∧
  transfer_files ssh w =
  match for_each (walk_build local_fs) (λ '(root, dirs, files),
          for_each files (transfer_one ssh Sftp root)) w2 with
  | (Ok _, w3) =>
      (Ok tt, add_log INFO "File transfer completed."
                (add_trace SftpClose Returned w3))
  | (Raise e, w3) =>
      (Raise e, add_log ERROR ("Failed to transfer files: " +:+ exn_str e) w3)
  end.
Proof.
  intros [Hq Hp] w1 w2.
  assert (steady w1) as Hq1.
  { split; [by apply (quiet_tail w)|].
    by apply prompt_trace, prompt_env, prompt_log. }
  destruct (exec_steady ssh ("mkdir -p " +:+ temp_dir) w1 Hq1) as (He & Hq2 & Hr2).
  split_and!; [apply Hq2..|done|].
  unfold Deploy.transfer_files, try_except.
  rewrite (bind_run (logger_info _)). unfold logger_info at 1, modify.
  cbv beta iota.
  rewrite (bind_run (open_sftp ssh)), open_sftp_quiet by done.
  cbv beta iota.
  change (add_trace OpenSftp Returned
            (set_env (tail (env (add_log INFO "Transferring files to the server..." w)))
               (add_log INFO "Transferring files to the server..." w))) with w1.
  rewrite (bind_run (exec_command ssh _)), He. cbv beta iota. fold w2.
  rewrite (bind_run (for_each _ _)).
  destruct (for_each _ _ w2) as [[[]|e] w3]; reflexivity.
Qed.

Lemma restart_steady ssh w :
  steady w →
  ∃ w', restart_server_services ssh w = (Ok tt, w') ∧ remote w' = remote w.
Proof.
  intros [Hq Hp]. rewrite StageFacts.restart_cases. cbv zeta.
  set (w0 := add_log INFO "Restarting server services..." w).
  assert (steady w0) as Hq0 by (split; [done|by apply prompt_log]).
  pose proof (quiet_head w0 (proj1 Hq0)) as H0.
  destruct (exec_steady ssh "sudo systemctl restart nginx" w0 Hq0)
    as (_ & Hq1 & Hr1).
  set (w1 := dispatched "sudo systemctl restart nginx" w0) in *.
  pose proof (quiet_head w1 (proj1 Hq1)) as H1.
  destruct (exec_steady ssh "sudo systemctl restart gunicorn" w1 Hq1)
    as (_ & _ & Hr2).
  assert (remote (dispatched "sudo systemctl restart gunicorn" w1) = remote w)
    as Hr.
  { rewrite Hr2, (StageFacts.restart_still home beyond "gunicorn" eq_refl).
    by rewrite Hr1, (StageFacts.restart_still home beyond "nginx" eq_refl). }
  destruct (head (env w0)) as [[e|]|]; [by destruct (H0 e)|..];
    (destruct (head (env w1)) as [[e|]|]; [by destruct (H1 e)|..]);
    eexists; (split; [reflexivity|]); exact Hr.
Qed.

Lemma connected_steady faults host :
  Forall (λ f, f = None) faults → prompt (boot faults host) →
  steady (connected (boot faults host)).
Proof.
  intros Hf Hp. split; [by apply (quiet_tail (boot faults host))|].
  revert Hp. apply prompt_same; [done|]. by eexists.
Qed.

(** A run of the stages in which the transfer put [S] at the staging
    path of a host that has a live directory and no backup. *)
Lemma stages_deploy w w1 es l S :
  Remote.fs_lookup dir (remote w) = Some (Remote.Dir es) →
  es !! live = Some l → es !! staging = None → es !! backup = None →
  transfer_files Client w = (Ok tt, w1) → steady w1 →
  remote w1 = Remote.fs_subst dir (Remote.Dir (<[staging := S]> es)) (remote w) →
  ∃ w',
    stages Client w = (Ok tt, w') ∧
    remote w' = Remote.fs_subst (Remote.resolve home DEPLOY_PATH) S (remote w) ∧
    last (log w') = Some (INFO, "✅ Deployment completed successfully.").
Proof.
  intros Hd Hl Hs Hb Ht [Hq1 Hp1] Hr1.
  destruct (RemoteFacts.swap_paths home _ path_fine) as (R1 & R2 & R3 & N1 & N2 & N3).
  set (es1 := <[staging := S]> es).
  assert (Hd1 : Remote.fs_lookup dir (remote w1) = Some (Remote.Dir es1))
    by (rewrite Hr1; by eapply RemoteFacts.fs_subst_lookup).
  assert (Remote.fs_lookup (Remote.resolve home DEPLOY_PATH) (remote w1) = Some l)
    as L1.
  { rewrite R1, (RemoteFacts.fs_lookup_child _ _ _ _ Hd1). unfold es1.
    by rewrite lookup_insert_ne. }
  assert (Remote.fs_lookup (Remote.resolve home temp_dir) (remote w1) = Some S) as L2.
  { unfold Deploy.temp_dir. rewrite R2, (RemoteFacts.fs_lookup_child _ _ _ _ Hd1).
    unfold es1. by rewrite lookup_insert_eq. }
  assert (Remote.fs_lookup (Remote.resolve home backup_dir) (remote w1) = None) as L3.
  { unfold Deploy.backup_dir. rewrite R3, (RemoteFacts.fs_lookup_child _ _ _ _ Hd1).
    unfold es1. by rewrite lookup_insert_ne. }
  destruct (swap_clean_run DEPLOY_PATH home pace beyond path_fine Client w1 l S
              L1 L2 L3 (quiet_calm 3 w1 Hq1) Hp1) as (w2 & Hsw & Htr).
  destruct (swap_success_tree DEPLOY_PATH home pace beyond path_fine Client w1 w2
              l S L1 L2 Hsw Htr) as (es1' & Hd1' & Hr2).
  rewrite Hd1 in Hd1'. injection Hd1' as <-.
  assert (steady w2) as Hq2.
  { apply switch_ok_inv, switch_body_ok_inv in Hsw. subst w2. split.
    - apply (quiet_tail (dispatched (promote_cmd DEPLOY_PATH)
               (dispatched (backup_cmd DEPLOY_PATH) (swap_started w1))));
        [|apply dispatched_env].
      apply (quiet_tail (dispatched (backup_cmd DEPLOY_PATH) (swap_started w1)));
        [|apply dispatched_env].
      apply (quiet_tail (swap_started w1)); [done|apply dispatched_env].
    - by apply (swap_dispatched_prompt DEPLOY_PATH home pace beyond w1). }
  destruct (restart_steady Client w2 Hq2) as (w3 & Hre & Hr3).
  eexists. unfold Deploy.stages.
  rewrite (bind_run (transfer_files _)), Ht. cbv beta iota.
  rewrite (bind_run (switch_to_new_version _)), Hsw. cbv beta iota.
  rewrite (bind_run (restart_server_services _)), Hre. cbv beta iota.
  split; [reflexivity|]. simpl. split; [|by rewrite last_snoc].
  rewrite Hr3, Hr2, Hr1. erewrite RemoteFacts.fs_subst_twice by done.
  rewrite R1, (RemoteFacts.fs_subst_child _ _ _ _ es l) by done.
  do 2 f_equal. unfold es1. apply map_eq. intros k.
  destruct (decide (k = live)) as [->|Hkl]; [by rewrite !lookup_insert_eq|].
  rewrite !(lookup_insert_ne _ live) by done.
  destruct (decide (k = staging)) as [->|Hks]; [by rewrite lookup_delete_eq|].
  rewrite lookup_delete_ne by done.
  destruct (decide (k = backup)) as [->|Hkb]; [by rewrite lookup_delete_eq|].
  by rewrite lookup_delete_ne, lookup_insert_ne.
Qed.

(** The whole run, from a host with a live directory and neither
    staging nor backup, when the transfer puts [S] at the staging path. *)
Lemma main_deploy faults host es l S w1 :
  Forall (λ f, f = None) faults →
  Remote.fs_lookup dir host = Some (Remote.Dir es) →
  es !! live = Some l → es !! staging = None → es !! backup = None →
  transfer_files Client (connected (boot faults host)) = (Ok tt, w1) →
  steady w1 →
  remote w1 = Remote.fs_subst dir (Remote.Dir (<[staging := S]> es)) host →
  ∃ w',
    main (boot faults host) = (Ok tt, w') ∧
    remote w' = Remote.fs_subst (Remote.resolve home DEPLOY_PATH) S host ∧
    (INFO, "✅ Deployment completed successfully.") ∈ log w'.
Proof.
  intros Hf Hd Hel Hs Hb Ht Hq1 Hr1.
  set (w0 := connected (boot faults host)).
  destruct (stages_deploy w0 w1 es l S Hd Hel Hs Hb Ht Hq1 Hr1)
    as (w2 & Hst & Hr2 & Hlog).
  destruct (StageFacts.main_after_connect DEPLOY_PATH home pace beyond cwd local_fs
              faults host) as (Hok & _ & Hlg & Hrem).
  { by apply (quiet_head (boot faults host)). }
  fold w0 in Hlg, Hrem. rewrite Hst in Hlg, Hrem. simpl in Hlg, Hrem.
  destruct (main (boot faults host)) as [r w'] eqn:Hm. simpl in *. subst r.
  exists w'. split; [done|]. split; [by rewrite Hrem, Hr2|].
  rewrite Hlg, elem_of_app. left.
  destruct (log w2) as [|x lg] using rev_ind; [done|].
  rewrite last_snoc in Hlog. injection Hlog as ->.
  rewrite elem_of_app, list_elem_of_singleton. by right.
Qed.

(** The live directory with its parent, when staging and backup are
    missing. *)
Lemma clean_host host l :
  Remote.fs_lookup (Remote.resolve home DEPLOY_PATH) host = Some l →
  Remote.fs_lookup (Remote.resolve home temp_dir) host = None →
  Remote.fs_lookup (Remote.resolve home backup_dir) host = None →
  ∃ es, Remote.fs_lookup dir host = Some (Remote.Dir es) ∧
        es !! live = Some l ∧ es !! staging = None ∧ es !! backup = None.
Proof.
  intros Hl Hs Hb.
  destruct (RemoteFacts.swap_paths home _ path_fine) as (R1 & R2 & R3 & _).
  unfold Deploy.temp_dir, Deploy.backup_dir in Hs, Hb. rewrite R1 in Hl.
  rewrite R2 in Hs. rewrite R3 in Hb.
  apply RemoteFacts.fs_lookup_child_inv in Hl as (es & Hd & Hel).
  rewrite (RemoteFacts.fs_lookup_child _ _ _ _ Hd) in Hs.
  rewrite (RemoteFacts.fs_lookup_child _ _ _ _ Hd) in Hb.
  by exists es.
Qed.

(** X10. When the walk of [build] yields no file (there is no such
    directory, or it is a regular file, or it holds directories only), a
    run over a healthy connection, against a host that runs each command
    it is handed before the next call of the script, still goes through
    all the stages and logs success: the host's tree is the one before
    the run with an empty directory in place of the live directory. *)
Theorem missing_build_empties_live faults host l :
  Local.walk_items (walk_build local_fs) = [] →
  Forall (λ f, f = None) faults →
  prompt (boot faults host) →
  Remote.fs_lookup (Remote.resolve home DEPLOY_PATH) host = Some l →
  Remote.fs_lookup (Remote.resolve home temp_dir) host = None →
  Remote.fs_lookup (Remote.resolve home backup_dir) host = None →
  ∃ w',
    main (boot faults host) = (Ok tt, w') ∧
    remote w' =
      Remote.fs_subst (Remote.resolve home DEPLOY_PATH) (Remote.Dir ∅) host ∧
    (INFO, "✅ Deployment completed successfully.") ∈ log w'.
Proof.
  intros Hwalk Hf Hp Hl Hs Hb.
  destruct (clean_host host l Hl Hs Hb) as (es & Hd & Hel & Hes & Heb).
  set (w0 := connected (boot faults host)).
  pose proof (connected_steady faults host Hf Hp) as Hq0. fold w0 in Hq0.
  destruct (transfer_files_steady Client w0 Hq0) as (Hq2 & Hr2 & Ht).
  cbv zeta in Hq2, Hr2, Ht.
  rewrite for_each_walk, Hwalk in Ht. cbn [for_each Local.walk_items] in Ht.
  eapply (main_deploy faults host es l); [done..|exact Ht| |].
  - split; [apply Hq2|]. apply prompt_log, prompt_trace, Hq2.
  - cbn [remote add_log add_trace]. rewrite Hr2.
    change (remote w0) with host. by rewrite (make_staging host es).
Qed.

Section Build.
Hypothesis build_fine : build_well_formed local_fs.
Hypothesis dirs_plain :
  ∀ x, x ∈ build_files → Forall (λ n, Remote.sh_plain n = true) x.1.1.

Local Abbreviation sp := (dir ++ [staging]).

Local Abbreviation mirrors := (mirrors local_fs).

Lemma build_file_apart x y :
  x ∈ build_files → y ∈ build_files → ¬ Local.rel_path y `prefix_of` x.1.1.
Proof.
  unfold Deploy.build_files. pose proof build_fine as Hwf.
  unfold build_well_formed in Hwf.
  destruct (Local.at_path LOCAL_BUILD_PATH local_fs) as [t|];
    [by apply LocalFacts.file_is_no_directory|by intros ?%elem_of_nil].
Qed.

Lemma path_plain : Remote.sh_plain DEPLOY_PATH = true.
Proof. apply (deploy_path_plain DEPLOY_PATH path_fine). Qed.

(** The [mkdir -p] sent for a listed file names the directory of its
    mirrored path. *)
Lemma mkdir_for_file x t :
  x ∈ build_files →
  sh_run ("mkdir -p " +:+ Py.dirname (remote_path_of x)) t =
  match Remote.fs_mkdir_p (sp ++ x.1.1) t with
  | Some t' => (0%Z, t')
  | None => (1%Z, t)
  end.
Proof.
  intros Hx. pose proof (build_file_names _ build_fine x Hx) as Hn.
  destruct (file_dir DEPLOY_PATH local_fs build_fine path_plain dirs_plain x Hx)
    as [Hdn Hpl].
  destruct (RemoteFacts.swap_paths home _ path_fine) as (_ & R2 & _).
  rewrite RemoteFacts.sh_run_known by (by apply RemoteFacts.sh_known_mkdir_p).
  rewrite sh_exec_mkdir_p by done. rewrite Hdn. unfold Local.rel_path in Hn.
  destruct (x.1.1) as [|d ds].
  - unfold Deploy.temp_dir. by rewrite R2, app_nil_r.
  - apply Forall_app in Hn as [Hn _].
    rewrite resolve_below; [|by destruct DEPLOY_PATH|done|done].
    unfold Deploy.temp_dir. by rewrite R2.
Qed.

(** On a staging tree that mirrors the build, the directory of a listed
    file can be made and the file can be written, and the tree mirrors the
    build afterwards. *)
Lemma mirror_one x S :
  x ∈ build_files → mirrors S →
  ∃ S1 S2,
    Remote.fs_mkdir_p x.1.1 S = Some S1 ∧
    Remote.fs_write (Local.rel_path x) x.2 S1 = Some S2 ∧
    mirrors S2.
Proof.
  intros Hx [Hfiles Hdirs].
  destruct (fs_mkdir_p_runs x.1.1 S) as (S1 & es1 & Hmk & Hes1).
  { intros q d Hq Hlook. destruct (Hfiles q d Hlook) as (y & Hy & ->).
    by apply (build_file_apart x y). }
  assert (∀ q es, Remote.fs_lookup q S1 = Some (Remote.Dir es) →
                  q = [] ∨ ∃ y, y ∈ build_files ∧ q `prefix_of` y.1.1)
    as Hdirs1.
  { intros q es Hq.
    destruct (fs_mkdir_p_dirs _ _ _ _ _ Hmk Hq) as [(es0 & Hq0)|Hpre]; [eauto|].
    right. by exists x. }
  assert (∀ sub, es1 !! x.1.2 ≠ Some (Remote.Dir sub)) as Hfree.
  { intros sub Hsub.
    assert (Remote.fs_lookup (Local.rel_path x) S1 = Some (Remote.Dir sub)) as Hl
      by (unfold Local.rel_path; by rewrite (RemoteFacts.fs_lookup_child _ _ _ _ Hes1)).
    destruct (Hdirs1 _ _ Hl) as [Hnil|(y & Hy & Hpre)].
    - unfold Local.rel_path in Hnil. by destruct (x.1.1).
    - by apply (build_file_apart y x). }
  set (S2 := Remote.fs_subst x.1.1
               (Remote.Dir (<[x.1.2 := Remote.File x.2]> es1)) S1).
  assert (Remote.fs_write (Local.rel_path x) x.2 S1 = Some S2) as Hw.
  { unfold Remote.fs_write, Local.rel_path.
    rewrite (RemoteFacts.fs_lookup_child _ _ _ _ Hes1).
    rewrite (RemoteFacts.fs_set_child _ _ _ _ _ Hes1). simpl.
    destruct (es1 !! x.1.2) as [[d|sub]|] eqn:E; [done| |done].
    by destruct (Hfree sub). }
  exists S1, S2. split_and!; [done..|]. split.
  - intros q d Hq. destruct (decide (q = Local.rel_path x)) as [->|Hne]; [eauto|].
    destruct (RemoteFacts.fs_write_files _ _ _ _ Hw) as [_ Hother].
    apply Hother in Hq; [|done].
    apply (RemoteFacts.fs_mkdir_p_files _ _ _ _ _ Hmk) in Hq. eauto.
  - intros q es Hq. unfold S2 in Hq.
    destruct (fs_subst_dirs _ _ _ _ _ _ Hes1 Hq) as [(fs0 & Hq0)|(r & -> & Hr & Hlook)];
      [eauto|].
    destruct r as [|m r]; [done|]. rewrite RemoteFacts.fs_lookup_cons in Hlook.
    destruct (decide (m = x.1.2)) as [->|Hm].
    + rewrite lookup_insert_eq in Hlook. by destruct r.
    + rewrite lookup_insert_ne in Hlook by done.
      apply (Hdirs1 _ es). rewrite RemoteFacts.fs_lookup_app, Hes1. simpl.
      by destruct (es1 !! m).
Qed.

(** One pass through the loop body over a quiet transport to a prompt
    host. *)
Lemma put_file_runs x w S :
  x ∈ build_files → steady w →
  Remote.fs_lookup sp (remote w) = Some S → mirrors S →
  ∃ w' S',
    put_file Client Sftp x w = (Ok tt, w') ∧ steady w' ∧
    remote w' = Remote.fs_subst sp S' (remote w) ∧ mirrors S'.
Proof.
  intros Hx Hq Hsp Hm.
  destruct (mirror_one x S Hx Hm) as (S1 & S2 & Hmk & Hw & Hm2).
  destruct (RemoteFacts.swap_paths home _ path_fine) as (_ & R2 & _).
  set (mk := "mkdir -p " +:+ Py.dirname (remote_path_of x)).
  destruct (exec_steady Client mk w Hq) as (He & [Hq1 Hp1] & Hrem).
  assert (remote (dispatched mk w) = Remote.fs_subst sp S1 (remote w)) as Hr1.
  { rewrite Hrem. unfold mk. rewrite (mkdir_for_file x _ Hx).
    by rewrite (fs_mkdir_p_below sp x.1.1 (remote w) S S1). }
  assert (Remote.fs_lookup sp (remote (dispatched mk w)) = Some S1) as Hsp1
    by (rewrite Hr1; by eapply RemoteFacts.fs_subst_lookup).
  assert (Remote.fs_write (Remote.resolve home temp_dir ++ Local.rel_path x) x.2
            (remote (dispatched mk w))
          = Some (Remote.fs_subst sp S2 (remote w))) as Hwrite.
  { unfold Deploy.temp_dir. rewrite R2.
    rewrite (fs_write_below sp (Local.rel_path x) x.2 _ S1 S2);
      [|done|unfold Local.rel_path; by destruct (x.1.1)|done].
    rewrite Hr1. by erewrite RemoteFacts.fs_subst_twice. }
  set (w1 := dispatched mk w) in *.
  assert (prompt (set_env (tail (env w1)) w1)) as Hp2 by (by apply prompt_env).
  exists (add_log INFO
            ("Transferred " +:+ local_path_of x +:+ " to " +:+ remote_path_of x)
            (add_trace (SftpPut (local_path_of x) (remote_path_of x)) Returned
               (set_remote (Remote.fs_subst sp S2 (remote w))
                  (set_env (tail (env w1)) w1)))), S2.
  split_and!; [|by apply (quiet_tail w1)
               |by apply prompt_log, prompt_trace, prompt_remote|done|done].
  unfold Deploy.put_file. fold mk.
  rewrite (bind_run (exec_command _ _)), He. cbv beta iota.
  rewrite (bind_run (sftp_put _ _ _ _ _ _ _)).
  rewrite (sftp_put_listed DEPLOY_PATH home pace beyond local_fs build_fine
             Sftp x _ Hx).
  cbv zeta. rewrite (host_runs_idle home pace beyond _ Hp2).
  change (remote (set_env (tail (env w1)) w1)) with (remote w1). rewrite Hwrite.
  pose proof (quiet_head _ Hq1) as Hh.
  destruct (head (env w1)) as [[e|]|]; [by destruct (Hh e)|done..].
Qed.

Lemma put_files_run l :
  ∀ w S,
    (∀ x, x ∈ l → x ∈ build_files) → steady w →
    Remote.fs_lookup sp (remote w) = Some S → mirrors S →
    ∃ w' S',
      for_each l (put_file Client Sftp) w = (Ok tt, w') ∧ steady w' ∧
      remote w' = Remote.fs_subst sp S' (remote w) ∧ mirrors S'.
Proof.
  induction l as [|x l IH]; intros w S Hl Hq Hsp Hm.
  { exists w, S. split; [done|]. split; [done|]. split; [|done].
    by rewrite RemoteFacts.fs_subst_same. }
  destruct (put_file_runs x w S) as (w1 & S1 & Hrun & Hq1 & Hr1 & Hm1);
    [apply Hl; by left|done..|].
  destruct (IH w1 S1) as (w2 & S2 & Hrun2 & Hq2 & Hr2 & Hm2); [|done| |done|].
  { intros y Hy. apply Hl. by right. }
  { rewrite Hr1. by eapply RemoteFacts.fs_subst_lookup. }
  exists w2, S2. simpl. rewrite (bind_run (put_file _ _ x)), Hrun.
  split; [done|]. split; [done|]. split; [|done]. rewrite Hr2, Hr1.
  by erewrite RemoteFacts.fs_subst_twice.
Qed.

Lemma walk_is_put_files ssh sftp w :
  for_each (walk_build local_fs) (λ '(root, dirs, files),
    for_each files (transfer_one ssh sftp root)) w =
  for_each build_files (put_file ssh sftp) w.
Proof.
  rewrite for_each_walk, (walk_build_items _ build_fine), for_each_fmap.
  apply for_each_ext. intros x wx Hx. by apply transfer_one_listed.
Qed.

(** X11. A whole run over a healthy connection, against a host that
    runs each command it is handed before the next call of the script and
    that has a live directory and neither staging nor backup, for a
    well-formed build tree whose directory names are plain shell words:
    [main] returns normally and logs success, and the host's tree is the
    one before the run with [S] in place of the live directory, where the
    regular files of [S] are exactly the files of the build, each at its
    relative path with its bytes, and every directory of [S] is on the
    way to one of them (a directory of the build without files below it
    is not deployed). The script itself does nothing to make the host
    keep that pace. *)
Theorem deploy_replaces_live_with_build faults host l :
  Forall (λ f, f = None) faults →
  prompt (boot faults host) →
  Remote.fs_lookup (Remote.resolve home DEPLOY_PATH) host = Some l →
  Remote.fs_lookup (Remote.resolve home temp_dir) host = None →
  Remote.fs_lookup (Remote.resolve home backup_dir) host = None →
  ∃ w' S,
    main (boot faults host) = (Ok tt, w') ∧
    remote w' = Remote.fs_subst (Remote.resolve home DEPLOY_PATH) S host ∧
    (∀ x, x ∈ build_files →
          Remote.fs_lookup (Local.rel_path x) S = Some (Remote.File x.2)) ∧
    (∀ q d, Remote.fs_lookup q S = Some (Remote.File d) →
            ∃ x, x ∈ build_files ∧ q = Local.rel_path x ∧ d = x.2) ∧
    (∀ q es, Remote.fs_lookup q S = Some (Remote.Dir es) →
             q = [] ∨ ∃ x, x ∈ build_files ∧ q `prefix_of` x.1.1) ∧
    (INFO, "✅ Deployment completed successfully.") ∈ log w'.
Proof.
  intros Hf Hp Hl Hs Hb.
  destruct (clean_host host l Hl Hs Hb) as (es & Hd & Hel & Hes & Heb).
  destruct (RemoteFacts.swap_paths home _ path_fine) as (_ & R2 & _).
  set (w0 := connected (boot faults host)).
  pose proof (connected_steady faults host Hf Hp) as Hq0. fold w0 in Hq0.
  destruct (transfer_files_steady Client w0 Hq0) as (Hq2 & Hrem2 & Ht).
  cbv zeta in Hq2, Hrem2, Ht.
  rewrite walk_is_put_files in Ht.
  match type of Hrem2 with remote ?w = _ => set (w2 := w) in * end.
  set (es0 := <[staging := Remote.Dir ∅]> es).
  assert (remote w2 = Remote.fs_subst dir (Remote.Dir es0) host) as Hr2.
  { rewrite Hrem2. change (remote w0) with host.
    by rewrite (make_staging host es). }
  assert (Remote.fs_lookup dir (remote w2) = Some (Remote.Dir es0)) as Hd2
    by (rewrite Hr2; by eapply RemoteFacts.fs_subst_lookup).
  assert (Remote.fs_lookup sp (remote w2) = Some (Remote.Dir ∅)) as Hsp2.
  { rewrite (RemoteFacts.fs_lookup_child _ _ _ _ Hd2). unfold es0.
    by rewrite lookup_insert_eq. }
  destruct (put_files_run build_files w2 (Remote.Dir ∅))
    as (w3 & S & Hrun & Hq3 & Hr3 & Hmir); [done|done|done| |].
  { split.
    - intros [|n q] d; simpl; [done|]. by rewrite lookup_empty.
    - intros [|n q] fs; simpl; [by left|]. by rewrite lookup_empty. }
  rewrite Hrun in Ht.
  assert (Remote.fs_lookup sp (remote w3) = Some S) as Hsp3
    by (rewrite Hr3; by eapply RemoteFacts.fs_subst_lookup).
  assert (Forall (keeps_files home beyond) (pending w2)) as Hnone
    by (destruct Hq2 as [_ [-> _]]; constructor).
  destruct (put_files_effect DEPLOY_PATH home pace beyond local_fs build_fine
              path_plain dirs_plain Client Sftp build_files w2 w3 (λ x Hx, Hx)
              Hnone Hrun) as (_ & _ & _ & Hall & Hnew).
  unfold Deploy.temp_dir in Hall, Hnew. rewrite R2 in Hall, Hnew.
  edestruct (main_deploy faults host es l S) as (w' & Hmain & Hrem & Hlog);
    [done..|exact Ht| | |].
  { destruct Hq3 as [Hq3 Hp3]. split; [done|].
    by apply prompt_log, prompt_trace. }
  { cbn [remote add_log add_trace]. rewrite Hr3, Hr2.
    rewrite (RemoteFacts.fs_subst_child dir staging S _ es0 (Remote.Dir ∅));
      [|by eapply RemoteFacts.fs_subst_lookup|by unfold es0; rewrite lookup_insert_eq].
    erewrite RemoteFacts.fs_subst_twice by done.
    unfold es0. by rewrite insert_insert_eq. }
  exists w', S. split_and!; [done..| | |apply Hmir|done].
  - intros x Hx. specialize (Hall x Hx).
    by rewrite RemoteFacts.fs_lookup_app, Hsp3 in Hall.
  - intros q d Hq.
    destruct (Hnew (sp ++ q) d) as [Hold|(x & Hx & Heq & ->)].
    + by rewrite RemoteFacts.fs_lookup_app, Hsp3.
    + rewrite RemoteFacts.fs_lookup_app, Hsp2 in Hold. simpl in Hold.
      destruct q; simpl in Hold; [done|]. by rewrite lookup_empty in Hold.
    + apply app_inv_head in Heq. by exists x.
Qed.

End Build.

End Script.

Lemma missing_build_empties_live_witness :
  ∃ w',
    main "/srv/app" [] Scenario.at_once Scenario.no_other "/work"
      Scenario.local_unbuilt (boot [] Scenario.host_plain)
      = (Ok tt, w') ∧
    remote w' =
      Remote.fs_subst (Remote.resolve [] "/srv/app") (Remote.Dir ∅)
        Scenario.host_plain ∧
    (INFO, "✅ Deployment completed successfully.") ∈ log w'.
Proof.
  apply (missing_build_empties_live "/srv/app" [] Scenario.at_once
           Scenario.no_other "/work" Scenario.local_unbuilt eq_refl []
           Scenario.host_plain
           (Remote.Dir {[ "index.html" := Remote.File Scenario.old_page ]}));
    [reflexivity|constructor|by split|vm_compute; reflexivity..].
Defined.

Lemma deploy_replaces_live_with_build_witness :
  let files := build_files Scenario.local_site in
  ∃ w' S,
    main "/srv/app" [] Scenario.at_once Scenario.no_other "/work"
      Scenario.local_site (boot [] Scenario.host_plain)
      = (Ok tt, w') ∧
    remote w' = Remote.fs_subst (Remote.resolve [] "/srv/app") S Scenario.host_plain ∧
    (∀ x, x ∈ files →
          Remote.fs_lookup (Local.rel_path x) S = Some (Remote.File x.2)) ∧
    (∀ q d, Remote.fs_lookup q S = Some (Remote.File d) →
            ∃ x, x ∈ files ∧ q = Local.rel_path x ∧ d = x.2) ∧
    (∀ q es, Remote.fs_lookup q S = Some (Remote.Dir es) →
             q = [] ∨ ∃ x, x ∈ files ∧ q `prefix_of` x.1.1) ∧
    (INFO, "✅ Deployment completed successfully.") ∈ log w'.
Proof.
  intros files.
  apply (deploy_replaces_live_with_build "/srv/app" [] Scenario.at_once
           Scenario.no_other "/work" Scenario.local_site eq_refl local_site_fine
           local_site_dirs_plain [] Scenario.host_plain
           (Remote.Dir {[ "index.html" := Remote.File Scenario.old_page ]}));
    [constructor|by split|vm_compute; reflexivity..].
Defined.

End EndToEnd.

(** ** The second script *)

Module PipelineFacts.
Import Pipeline.

Lemma external_cases c w :
  (∃ e, external c w = (Raise e, called c w)) ∨
  (∃ r, external c w = (Ok r, called c w)).
Proof.
  unfold external, called. destruct (env w) as [|[] rest]; simpl; eauto.
Qed.

Lemma external_listing c w entries rest :
  env w = Listing entries :: rest →
  external c w = (Ok (Listing entries), called c w).
Proof. intros Hw. unfold external, called. by rewrite Hw. Qed.

Lemma matching_dirs_spec entries repo_name d :
  d ∈ matching_dirs entries repo_name ↔
  d ∈ entries ∧ is_dir d = true ∧ Py.startswith (name d) repo_name = true.
Proof.
  unfold matching_dirs. rewrite list_elem_of_filter, andb_true_iff. tauto.
Qed.

Lemma list_truth_true {A} (l : list A) x : x ∈ l → list_truth l = true.
Proof. by destruct 1. Qed.

Lemma list_truth_false {A} (l : list A) : (∀ x, x ∉ l) → list_truth l = false.
Proof. destruct l as [|x l]; [done|]. intros H. destruct (H x). by left. Qed.

Section Script.
Variables username app_password release_version cwd : string.

Local Abbreviation clone_or_pull_frontend_repo :=
  (clone_or_pull_frontend_repo username app_password cwd).
Local Abbreviation main_body :=
  (main_body username app_password release_version cwd).
Local Abbreviation main := (main username app_password release_version cwd).

Lemma check_with_listing repo_name w entries rest :
  env w = Listing entries :: rest →
  check_code_already_exists repo_name w =
  (Ok (list_truth (matching_dirs entries repo_name)), called Iterdir w).
Proof.
  intros Hw. unfold check_code_already_exists, bind.
  by rewrite (external_listing _ _ _ _ Hw).
Qed.

(** C10. Only directories count for the existence check: entries that
    are not directories can be dropped from the listing without changing
    its answer, and when every entry whose name starts with the
    repository name is a non-directory (a regular file named [frontend],
    say) the check answers false and the stage clones instead of
    pulling. *)
Theorem non_directories_do_not_count :
  (∀ entries repo_name,
     matching_dirs entries repo_name =
     matching_dirs (filter (λ d, is_dir d = true) entries) repo_name) ∧
  (∀ w entries rest repo_name,
     env w = Listing entries :: rest →
     (∀ d, d ∈ entries → Py.startswith (name d) repo_name = true →
           is_dir d = false) →
     (check_code_already_exists repo_name w).1 = Ok false) ∧
  (∀ w entries rest,
     env w = Listing entries :: rest →
     (∀ d, d ∈ entries → Py.startswith (name d) "frontend" = true →
           is_dir d = false) →
     trace (clone_or_pull_frontend_repo w).2 =
       trace w ++
       [Iterdir; CloneFrom (frontend_repo_url username app_password) "frontend"]).
Proof.
  assert (∀ entries repo_name,
    (∀ d, d ∈ entries → Py.startswith (name d) repo_name = true →
          is_dir d = false) →
    list_truth (matching_dirs entries repo_name) = false) as Hfalse.
  { intros entries repo_name Hnd. apply list_truth_false.
    intros d (Hd & Hdir & Hpre)%matching_dirs_spec.
    rewrite (Hnd d Hd Hpre) in Hdir. done. }
  split_and!.
  - intros entries repo_name. unfold matching_dirs.
    induction entries as [|d entries IH]; [done|].
    destruct (is_dir d) eqn:Hd.
    + rewrite (filter_cons_True (λ d, is_dir d = true)) by done.
      rewrite !filter_cons, Hd, IH. done.
    + rewrite (filter_cons_False (λ d, is_dir d = true)) by (by rewrite Hd).
      rewrite filter_cons_False by (by rewrite Hd). done.
  - intros w entries rest repo_name Hw Hnd.
    rewrite (check_with_listing _ _ _ _ Hw). simpl. f_equal. by apply Hfalse.
  - intros w entries rest Hw Hnd.
    unfold Pipeline.clone_or_pull_frontend_repo, bind, log_step, log_completion,
      logger_info.
    rewrite (check_with_listing "frontend" _ entries rest) by done.
    rewrite Hfalse by done.
    match goal with
    | |- context [external ?c ?w1] =>
        destruct (external_cases c w1) as [[e ->]|[r ->]]
    end; simpl; by rewrite <- app_assoc.
Qed.

(** The part of C6 about the second script: its [main] logs an exception
    that escapes a stage and raises it again. *)
Lemma pipeline_main_reraises w e w1 :
  main_body w = (Raise e, w1) →
  main w =
  (Raise e,
   World (env w1) (trace w1)
     (log w1 ++ [(ERROR, "❌ An error occurred: " +:+ exn_str e)])).
Proof.
  intros Hb. unfold Pipeline.main, try_except. by rewrite Hb.
Qed.

Lemma pipeline_main_returns w w1 :
  main_body w = (Ok tt, w1) → main w = (Ok tt, w1).
Proof. intros Hb. unfold Pipeline.main, try_except. by rewrite Hb. Qed.

End Script.

Lemma non_directories_do_not_count_witness :
  let w := boot [Listing [DirEntry "frontend" false; DirEntry "docs" true]] in
  (check_code_already_exists "frontend" w).1 = Ok false ∧
  trace (clone_or_pull_frontend_repo "user" "secret" "/work" w).2 =
    [] ++ [Iterdir; CloneFrom (frontend_repo_url "user" "secret") "frontend"].
Proof.
  intros w.
  destruct (non_directories_do_not_count "user" "secret" "/work") as (_ & H2 & H3).
  assert (∀ d, d ∈ [DirEntry "frontend" false; DirEntry "docs" true] →
               Py.startswith (name d) "frontend" = true → is_dir d = false) as Hnd.
  { intros d Hd%list_elem_of_In. simpl in Hd.
    destruct Hd as [<-|[<-|[]]]; [reflexivity|discriminate]. }
  split.
  - exact (H2 w _ [] "frontend" eq_refl Hnd).
  - exact (H3 w _ [] eq_refl Hnd).
Defined.

End PipelineFacts.

(** ** The second script: the calls of a run *)

Module PipelineRuns.
Import Pipeline PipelineFacts.

Lemma answer_at_drop answers n i :
  answer_at (drop n answers) i = answer_at answers (n + i).
Proof. unfold answer_at. by rewrite lookup_drop. Qed.

Lemma clean_nil answers : clean answers [].
Proof. intros i c H. by rewrite lookup_nil in H. Qed.

Lemma clean_app answers calls1 calls2 :
  clean answers calls1 → clean (drop (length calls1) answers) calls2 →
  clean answers (calls1 ++ calls2).
Proof.
  intros H1 H2 i c Hi. destruct (decide (i < length calls1)) as [Hlt|Hge].
  - rewrite lookup_app_l in Hi by done. by apply H1.
  - rewrite lookup_app_r in Hi by lia. apply H2 in Hi.
    rewrite answer_at_drop in Hi.
    by replace (length calls1 + (i - length calls1)) with i in Hi by lia.
Qed.

Lemma orderly_ret {A} (a : A) : orderly (ret a).
Proof.
  intros w. exists []. simpl. rewrite app_nil_r. split_and!; [done..|apply clean_nil].
Qed.

Lemma orderly_logger_info msg : orderly (logger_info msg).
Proof.
  intros w. exists []. simpl. rewrite app_nil_r. split_and!; [done..|apply clean_nil].
Qed.

Lemma orderly_bind {A B} (m : M world A) (k : A → M world B) :
  orderly m → (∀ a, orderly (k a)) → orderly (bind m k).
Proof.
  intros Hm Hk w. destruct (Hm w) as (calls1 & Ht1 & He1 & Hs1).
  unfold bind. destruct (m w) as [[a|e] w1]; simpl in *; [|by exists calls1].
  destruct (Hk a w1) as (calls2 & Ht2 & He2 & Hs2).
  exists (calls1 ++ calls2).
  rewrite Ht2, Ht1, He2, He1, drop_drop, length_app, app_assoc.
  split_and!; [done..|].
  rewrite He1 in Hs2. destruct ((k a w1).1) as [b|e]; simpl in *.
  - by apply clean_app.
  - destruct Hs2 as (before & c & -> & Hc & Hf). exists (calls1 ++ before), c.
    rewrite app_assoc, length_app. split_and!; [done|by apply clean_app|].
    by rewrite answer_at_drop in Hf.
Qed.

Lemma orderly_for_each {A} (l : list A) (body : A → M world unit) :
  (∀ x, orderly (body x)) → orderly (for_each l body).
Proof.
  intros Hb. induction l as [|x l IH]; simpl; [apply orderly_ret|].
  apply orderly_bind; [apply Hb|by intros _].
Qed.

(** A call other than running a command fails only by raising. *)
Lemma orderly_external c :
  (∀ command dir, c ≠ SubprocessRun command dir) → orderly (external c).
Proof.
  intros Hc w. exists [c]. unfold external, stops_at_failure, clean, answer_at.
  destruct w as [[|r rest] tr lg]; simpl.
  - split_and!; [done..|]. intros [|i] c' Hi; simplify_eq/=. by destruct c'.
  - destruct r; simpl; (split_and!; [done|by rewrite drop_0|]);
      try (intros [|i] c' Hi; simplify_eq/=; by destruct c').
    + exists [], c. split_and!; [done|apply clean_nil|done].
    + intros [|i] c' Hi; simplify_eq/=. destruct c'; try done.
      by destruct (Hc command cwd).
Qed.

Section Script.
Variables username app_password release_version cwd : string.

Local Abbreviation main_body :=
  (main_body username app_password release_version cwd).
Local Abbreviation main := (main username app_password release_version cwd).

Lemma orderly_run_command command dir : orderly (run_command command dir).
Proof.
  intros w. exists [SubprocessRun command dir].
  unfold run_command, bind, logger_info, logger_error, external, raise,
    stops_at_failure, clean, answer_at.
  destruct w as [[|r rest] tr lg]; simpl.
  { split_and!; [done..|]. by intros [|i] c' Hi; simplify_eq/=. }
  destruct r as [|e|l|b|rc out err]; simpl;
    try (split_and!; [done|by rewrite drop_0|];
         by intros [|i] c' Hi; simplify_eq/=).
  - split_and!; [done|by rewrite drop_0|]. exists [], (SubprocessRun command dir).
    split_and!; [done|apply clean_nil|done].
  - destruct (Z.eqb rc 0) eqn:Hrc; simpl; (split_and!; [done|by rewrite drop_0|]).
    + intros [|i] c' Hi; simplify_eq/=. by rewrite Hrc.
    + exists [], (SubprocessRun command dir).
      split_and!; [done|apply clean_nil|]. simpl. by rewrite Hrc.
Qed.

Ltac orderly_step :=
  lazymatch goal with
  | |- orderly (bind _ _) => apply orderly_bind; [|intros ?]
  | |- orderly (ret _) => apply orderly_ret
  | |- orderly (logger_info _) => apply orderly_logger_info
  | |- orderly (external _) => apply orderly_external; done
  | |- orderly (run_command _ _) => apply orderly_run_command
  | |- orderly (for_each _ _) => apply orderly_for_each; intros ?
  | |- orderly (if ?b then _ else _) => destruct b
  end.

Lemma orderly_main_body : orderly main_body.
Proof.
  unfold Pipeline.main_body, clone_or_pull_frontend_repo, build_frontend,
    clone_or_pull_backend_repo, clone_or_pull_jupiter_main_repo,
    update_static_and_files, commit_and_push_changes, pull_branch,
    check_code_already_exists, log_step, log_completion.
  cbv zeta. repeat orderly_step.
Qed.

Lemma orderly_update_static_and_files : orderly (update_static_and_files cwd).
Proof.
  unfold update_static_and_files, log_step, log_completion.
  cbv zeta. repeat orderly_step.
Qed.

Lemma orderly_commit_and_push_changes :
  orderly (commit_and_push_changes release_version cwd).
Proof.
  unfold commit_and_push_changes, log_step, log_completion.
  cbv zeta. repeat orderly_step.
Qed.

(** The calls a run made are the ones [orderly] speaks of. *)
Lemma orderly_calls {A} (m : M world A) w calls :
  orderly m → trace (m w).2 = trace w ++ calls →
  stops_at_failure (env w) calls (m w).1.
Proof.
  intros Hm Ht. destruct (Hm w) as (calls' & Ht' & _ & Hs).
  rewrite Ht' in Ht. apply app_inv_head in Ht. by subst.
Qed.

Lemma main_body_last_log w w' :
  main_body w = (Ok tt, w') →
  last (log w') = Some (INFO, "✅ All tasks completed successfully.").
Proof.
  unfold Pipeline.main_body. intros H.
  repeat (apply TransferFacts.bind_ok_inv in H as (? & ? & _ & H)).
  injection H as <-. simpl. by rewrite last_snoc.
Qed.

(** X16. The second script makes its calls one after the other and
    stops at the first one that fails, a call failing when it raises or,
    for a shell command, when its return code is not 0. [main] returns
    normally exactly when no call failed, and then its last log line is
    the one that announces success; otherwise it raises the exception of
    the call that failed, which is the last call made, after logging
    it. *)
Theorem pipeline_stops_at_first_failure answers :
  let r := main (boot answers) in
  stops_at_failure answers (trace r.2) r.1 ∧
  last (log r.2) =
    Some (match r.1 with
          | Ok _ => (INFO, "✅ All tasks completed successfully.")
          | Raise e => (ERROR, "❌ An error occurred: " +:+ exn_str e)
          end).
Proof.
  destruct (orderly_main_body (boot answers)) as (calls & Ht & _ & Hs).
  pose proof (main_body_last_log (boot answers)) as Hl.
  unfold Pipeline.main, try_except, bind, logger_error, raise. simpl in *.
  destruct (main_body (boot answers)) as [[[]|e] w1]; simpl in *; subst.
  - split; [done|]. by apply Hl.
  - split; [done|]. by rewrite last_snoc.
Qed.

#[local] Arguments Py.path_join : simpl never.

Ltac step_external :=
  match goal with
  | |- context [external ?c ?w] =>
      destruct (external_cases c w) as [[? ->]|[? ->]]
  end.

(** X12. The build stage lists the current directory once. If some
    directory there has a name that starts with [jupiter], the install
    command is skipped and only [npm run build] is run; otherwise
    [npm i --force] is run first, and [npm run build] only if the install
    did not fail. Both run in the [frontend] directory, and a command that
    ends with a return code other than 0 makes the stage raise
    [Exception] with the text [Command failed: ] followed by the
    command. *)
Theorem build_after_install entries r1 r2 rest tr lg :
  let w := World (Listing entries :: r1 :: r2 :: rest) tr lg in
  let dir := Some (Py.path_join cwd "frontend") in
  let install := SubprocessRun "npm i --force" dir in
  let build := SubprocessRun "npm run build" dir in
  let r := build_frontend cwd w in
  if list_truth (matching_dirs entries "jupiter") then
    trace r.2 = tr ++ [Iterdir; build] ∧
    r.1 = match failure build r1 with Some e => Raise e | None => Ok tt end
  else
    match failure install r1 with
    | Some e => trace r.2 = tr ++ [Iterdir; install] ∧ r.1 = Raise e
    | None =>
        trace r.2 = tr ++ [Iterdir; install; build] ∧
        r.1 = match failure build r2 with Some e => Raise e | None => Ok tt end
    end.
Proof.
  intros w dir install build r. subst w r install build dir.
  unfold build_frontend, run_command, check_code_already_exists, bind, external,
    log_step, log_completion, logger_info, logger_error, raise, ret.
  cbn [env trace log fst snd].
  destruct (list_truth (matching_dirs entries "jupiter")); cbn [negb].
  - destruct r1 as [|e|l|b|rc out err]; cbn; rewrite <- ?app_assoc; try done.
    destruct (Z.eqb rc 0); cbn; rewrite <- ?app_assoc; done.
  - destruct r1 as [|e|l|b|rc out err]; cbn; rewrite <- ?app_assoc; try done;
      try (destruct r2 as [|e2|l2|b2|rc2 out2 err2]; cbn; rewrite <- ?app_assoc;
           try done; destruct (Z.eqb rc2 0); cbn; rewrite <- ?app_assoc; done).
    destruct (Z.eqb rc 0); cbn; rewrite <- ?app_assoc; try done.
    destruct r2 as [|e2|l2|b2|rc2 out2 err2]; cbn; rewrite <- ?app_assoc;
           try done; destruct (Z.eqb rc2 0); cbn; rewrite <- ?app_assoc; done.
Qed.

Lemma logger_info_run msg w :
  logger_info msg w = (Ok tt, World (env w) (trace w) (log w ++ [(INFO, msg)])).
Proof. reflexivity. Qed.

Lemma commit_calls w :
  let repo := RepoAt (Py.path_join cwd "main_repo") in
  let script :=
    [RepoOpen (Py.path_join cwd "main_repo"); RepoRemote repo "origin";
     OriginPull repo; GitAddAll repo;
     IndexCommit repo ("Release version " +:+ release_version);
     OriginPush repo] in
  let r := commit_and_push_changes release_version cwd w in
  ∃ calls,
    trace r.2 = trace w ++ calls ∧ calls `prefix_of` script ∧ calls ≠ [] ∧
    (r.1 = Ok tt → calls = script).
Proof.
  intros repo script r. subst r script.
  unfold commit_and_push_changes, bind, log_step, log_completion, logger_info.
  fold repo.
  repeat step_external;
    (eexists; split; [simpl; rewrite <- ?app_assoc; reflexivity|]);
    (split; [by eexists|]); done.
Qed.

(** X15. The last stage opens the repository in [main_repo], looks up
    [origin], pulls, stages everything, commits with the message
    [Release version ] followed by the release version, and pushes, in
    this order and stopping at the first call that raises: the calls made
    are a beginning of this list, all of it when the stage returns
    normally, and no call but the last one made has raised. So nothing is
    pushed unless the pull, the staging and the commit have returned. *)
Theorem push_only_after_commit w :
  let repo := RepoAt (Py.path_join cwd "main_repo") in
  let script :=
    [RepoOpen (Py.path_join cwd "main_repo"); RepoRemote repo "origin";
     OriginPull repo; GitAddAll repo;
     IndexCommit repo ("Release version " +:+ release_version);
     OriginPush repo] in
  let r := commit_and_push_changes release_version cwd w in
  ∃ calls,
    trace r.2 = trace w ++ calls ∧ calls `prefix_of` script ∧ calls ≠ [] ∧
    (r.1 = Ok tt → calls = script) ∧
    stops_at_failure (env w) calls r.1.
Proof.
  intros repo script r.
  destruct (commit_calls w) as (calls & Ht & Hp & Hn & Hf).
  exists calls. split_and!; [done..|].
  by apply orderly_calls; [apply orderly_commit_and_push_changes|].
Qed.

Lemma merge_calls w :
  let main_repo := Py.path_join cwd "main_repo" in
  let static := Py.path_join main_repo "static" in
  let apps := Py.path_join main_repo "apps" in
  let jupiter := Py.path_join main_repo "jupiter" in
  let templates := Py.path_join main_repo "templates" in
  let dests := [static; apps; jupiter; templates] in
  let copies :=
    [Copytree (Py.path_join (Py.path_join cwd "jupiter") "static") static;
     Copytree (Py.path_join (Py.path_join cwd "backend") "apps") apps;
     Copytree (Py.path_join (Py.path_join cwd "backend") "jupiter") jupiter;
     Copytree (Py.path_join (Py.path_join cwd "backend") "templates") templates] in
  let r := update_static_and_files cwd w in
  ∃ removals copied,
    trace r.2 = trace w ++ removals ++ copied ∧
    Forall (λ c, ∃ p, p ∈ dests ∧
                      c ∈ [PathExists p; PathIsdir p; Rmtree p; OsRemove p])
      removals ∧
    copied `prefix_of` copies ∧
    (r.1 = Ok tt → copied = copies).
Proof.
  intros main_repo static apps jupiter templates dests copies r.
  set (removal := λ c, ∃ p, p ∈ dests ∧
                      c ∈ [PathExists p; PathIsdir p; Rmtree p; OsRemove p]).
  assert (∀ p, p ∈ dests → ∀ w0,
    ∃ removals,
      trace ((there <- external (PathExists p) ;;
              if reply_bool there then
                logger_info ("Removing old files from " +:+ p) ;;
                isdir <- external (PathIsdir p) ;;
                (if reply_bool isdir then external (Rmtree p)
                 else external (OsRemove p)) ;;
                ret tt
              else ret tt) w0).2 = trace w0 ++ removals ∧
      Forall removal removals) as Hone.
  { intros p Hp w0. unfold bind, logger_info, ret.
    assert (∀ c, c ∈ [PathExists p; PathIsdir p; Rmtree p; OsRemove p] →
                 removal c) as Hr by (intros c Hc; by exists p).
    step_external; [|destruct (reply_bool _)]; cbn [fst snd]; [| |].
    - exists [PathExists p]. split; [done|]. repeat constructor.
      apply Hr; rewrite !elem_of_cons; auto.
    - step_external; [|destruct (reply_bool _); step_external];
        cbn [fst snd trace called]; rewrite <- ?app_assoc; eexists;
        (split; [reflexivity|]); repeat constructor; apply Hr;
        rewrite !elem_of_cons; auto.
    - exists [PathExists p]. split; [done|]. repeat constructor.
      apply Hr; rewrite !elem_of_cons; auto. }
  assert (∀ l, (∀ p, p ∈ l → p ∈ dests) → ∀ w0,
    ∃ removals,
      trace (for_each l (λ path,
              there <- external (PathExists path) ;;
              if reply_bool there then
                logger_info ("Removing old files from " +:+ path) ;;
                isdir <- external (PathIsdir path) ;;
                (if reply_bool isdir then external (Rmtree path)
                 else external (OsRemove path)) ;;
                ret tt
              else ret tt) w0).2 = trace w0 ++ removals ∧
      Forall removal removals) as Hloop.
  { induction l as [|p l IH]; intros Hl w0.
    { exists []. by rewrite app_nil_r. }
    destruct (Hone p (Hl p ltac:(by left)) w0) as (rem1 & Ht1 & Hf1).
    cbn [for_each]. unfold bind at 1.
    match type of Ht1 with trace (?m w0).2 = _ => destruct (m w0) as [[[]|e] w1] end.
    - destruct (IH (λ q Hq, Hl q ltac:(by right)) w1) as (rem2 & Ht2 & Hf2).
      exists (rem1 ++ rem2). simpl in Ht1. rewrite Ht2, Ht1, app_assoc.
      split; [done|]. by apply Forall_app.
    - by exists rem1. }
  subst r. unfold update_static_and_files, log_step, log_completion.
  cbv zeta. fold main_repo. fold static apps jupiter templates.
  rewrite !(bind_run (logger_info _)), !logger_info_run. cbv beta iota.
  match goal with |- context [World ?e ?t ?l] => set (w0 := World e t l) end.
  destruct (Hloop [static; apps; jupiter; templates] (λ p Hp, Hp) w0)
    as (removals & Ht & Hf).
  change (trace w0) with (trace w) in Ht.
  rewrite !(bind_run (for_each _ _)).
  match type of Ht with trace (?m w0).2 = _ => destruct (m w0) as [[[]|e] w1] end;
    simpl in Ht; [|exists removals, []; rewrite app_nil_r; split_and!;
                   [done|done|apply prefix_nil|done]].
  exists removals. unfold bind, logger_info.
  repeat step_external; cbn [fst snd trace called]; rewrite Ht; rewrite <- ?app_assoc;
    eexists; (split; [reflexivity|]); (split; [done|]);
    (split; [by eexists|done]).
Qed.

(** X14. Whatever the outside world answers, the merge stage removes
    nothing but the four destinations [static], [apps], [jupiter] and
    [templates] inside [main_repo]: every call it makes before copying is
    an existence test, a directory test, an [rmtree] or a [remove] on one
    of these four paths. All the removing is over before the first of the
    four [copytree] calls, which are made in a fixed order, each from
    its fixed source. The stage stops at the first call that raises, a
    removal as well as a copy. *)
Theorem merge_removes_before_copying w :
  let main_repo := Py.path_join cwd "main_repo" in
  let static := Py.path_join main_repo "static" in
  let apps := Py.path_join main_repo "apps" in
  let jupiter := Py.path_join main_repo "jupiter" in
  let templates := Py.path_join main_repo "templates" in
  let dests := [static; apps; jupiter; templates] in
  let copies :=
    [Copytree (Py.path_join (Py.path_join cwd "jupiter") "static") static;
     Copytree (Py.path_join (Py.path_join cwd "backend") "apps") apps;
     Copytree (Py.path_join (Py.path_join cwd "backend") "jupiter") jupiter;
     Copytree (Py.path_join (Py.path_join cwd "backend") "templates") templates] in
  let r := update_static_and_files cwd w in
  ∃ removals copied,
    trace r.2 = trace w ++ removals ++ copied ∧
    Forall (λ c, ∃ p, p ∈ dests ∧
                      c ∈ [PathExists p; PathIsdir p; Rmtree p; OsRemove p])
      removals ∧
    copied `prefix_of` copies ∧
    (r.1 = Ok tt → copied = copies) ∧
    stops_at_failure (env w) (removals ++ copied) r.1.
Proof.
  intros main_repo static apps jupiter templates dests copies r.
  destruct (merge_calls w) as (removals & copied & Ht & Hr & Hp & Hf).
  exists removals, copied. split_and!; [done..|].
  by apply orderly_calls; [apply orderly_update_static_and_files|].
Qed.

Lemma orderly_clone_or_pull_frontend_repo :
  orderly (clone_or_pull_frontend_repo username app_password cwd).
Proof.
  unfold clone_or_pull_frontend_repo, pull_branch, check_code_already_exists,
    log_step, log_completion.
  cbv zeta. repeat orderly_step.
Qed.

Lemma orderly_clone_or_pull_backend_repo :
  orderly (clone_or_pull_backend_repo username app_password cwd).
Proof.
  unfold clone_or_pull_backend_repo, pull_branch, check_code_already_exists,
    log_step, log_completion.
  cbv zeta. repeat orderly_step.
Qed.

Lemma orderly_clone_or_pull_jupiter_main_repo :
  orderly (clone_or_pull_jupiter_main_repo username app_password cwd).
Proof.
  unfold clone_or_pull_jupiter_main_repo, pull_branch, check_code_already_exists,
    log_step, log_completion.
  cbv zeta. repeat orderly_step.
Qed.

(** The calls of a stage that clones or pulls, after the listing. *)
Ltac clone_or_pull_calls :=
  unfold clone_or_pull_frontend_repo, clone_or_pull_backend_repo,
    clone_or_pull_jupiter_main_repo, pull_branch;
  rewrite !(bind_run (log_step _)); unfold log_step;
  rewrite !logger_info_run; cbv beta iota;
  rewrite !(bind_run (check_code_already_exists _));
  erewrite check_with_listing by reflexivity; cbv beta iota;
  destruct (list_truth _); unfold log_completion, bind, logger_info, ret;
  repeat step_external; cbn [fst snd trace called env];
  rewrite <- ?app_assoc;
  eexists; (split; [reflexivity|]); try done;
  (split; [done|]); (split; [by eexists|done]).

Lemma frontend_calls entries rest tr lg :
  let w := World (Listing entries :: rest) tr lg in
  let repo := RepoAt (Py.path_join cwd "frontend") in
  let script :=
    [RepoOpen (Py.path_join cwd "frontend"); RepoRemote repo "origin";
     GitCheckout repo "main"; OriginPull repo] in
  let r := clone_or_pull_frontend_repo username app_password cwd w in
  ∃ calls,
    trace r.2 = tr ++ Iterdir :: calls ∧
    if list_truth (matching_dirs entries "frontend") then
      calls ≠ [] ∧ calls `prefix_of` script ∧ (r.1 = Ok tt → calls = script)
    else calls = [CloneFrom (frontend_repo_url username app_password) "frontend"].
Proof. intros w repo script r. subst w r script. fold repo. clone_or_pull_calls. Qed.

Lemma backend_calls entries rest tr lg :
  let w := World (Listing entries :: rest) tr lg in
  let repo := RepoAt (Py.path_join cwd "backend") in
  let script :=
    [RepoOpen (Py.path_join cwd "backend"); RepoRemote repo "origin";
     GitCheckout repo "master"; OriginPull repo] in
  let r := clone_or_pull_backend_repo username app_password cwd w in
  ∃ calls,
    trace r.2 = tr ++ Iterdir :: calls ∧
    if list_truth (matching_dirs entries "backend") then
      calls ≠ [] ∧ calls `prefix_of` script ∧ (r.1 = Ok tt → calls = script)
    else calls = [CloneFrom (backend_repo_url username app_password) "backend"].
Proof. intros w repo script r. subst w r script. fold repo. clone_or_pull_calls. Qed.

Lemma main_repo_calls entries rest tr lg :
  let w := World (Listing entries :: rest) tr lg in
  let repo := RepoAt (Py.path_join cwd "main_repo") in
  let script :=
    [RepoOpen (Py.path_join cwd "main_repo"); RepoRemote repo "origin";
     GitCheckout repo "master"; OriginPull repo] in
  let r := clone_or_pull_jupiter_main_repo username app_password cwd w in
  ∃ calls,
    trace r.2 = tr ++ Iterdir :: calls ∧
    if list_truth (matching_dirs entries "main_repo") then
      calls ≠ [] ∧ calls `prefix_of` script ∧ (r.1 = Ok tt → calls = script)
    else
      calls = [CloneFrom (jupiter_main_repo_url username app_password) "main_repo"].
Proof. intros w repo script r. subst w r script. fold repo. clone_or_pull_calls. Qed.

(** C9, as the code has it. The existence check is a prefix match on
    the names of directories: over a listing of the current working
    directory it answers true exactly when some directory there has a
    name that starts with the repository name. In particular, with a
    directory [frontend-v2] listed, the frontend stage takes the branch
    that pulls and never clones. That branch opens the repository in the
    directory named exactly [frontend], not in the directory that
    matched, then looks up [origin], checks out [main] and pulls,
    stopping at the first of these calls that raises: the pull happens
    only when the three calls before it have returned, and the stage
    returns normally only when all four have. *)
Theorem prefix_match_counts_as_present :
  (∀ w entries rest repo_name,
     env w = Listing entries :: rest →
     (check_code_already_exists repo_name w).1 = Ok true ↔
     ∃ d, d ∈ entries ∧ is_dir d = true ∧
          Py.startswith (name d) repo_name = true) ∧
  (∀ w entries rest d,
     env w = Listing entries :: rest →
     d ∈ entries → is_dir d = true → Py.startswith (name d) "frontend" = true →
     let repo := RepoAt (Py.path_join cwd "frontend") in
     let script :=
       [RepoOpen (Py.path_join cwd "frontend"); RepoRemote repo "origin";
        GitCheckout repo "main"; OriginPull repo] in
     let r := clone_or_pull_frontend_repo username app_password cwd w in
     ∃ calls,
       trace r.2 = trace w ++ Iterdir :: calls ∧
       calls ≠ [] ∧ calls `prefix_of` script ∧
       (r.1 = Ok tt → calls = script) ∧
       stops_at_failure (env w) (Iterdir :: calls) r.1).
Proof.
  split.
  - intros w entries rest repo_name Hw.
    rewrite (check_with_listing _ _ _ _ Hw). cbn [fst]. split.
    + intros [= Ht]. destruct (matching_dirs entries repo_name) as [|d l] eqn:E;
        [done|].
      exists d. apply matching_dirs_spec. rewrite E. by left.
    + intros (d & Hd). f_equal. by apply (list_truth_true _ d), matching_dirs_spec.
  - intros [answers tr lg] entries rest d Hw Hd Hdir Hpre repo script r.
    cbn [env trace] in *. subst answers.
    destruct (frontend_calls entries rest tr lg) as (calls & Ht & Hc).
    rewrite (list_truth_true _ d) in Hc by (by apply matching_dirs_spec).
    destruct Hc as (Hne & Hp & Hok).
    exists calls. split_and!; [done..|].
    by apply orderly_calls; [apply orderly_clone_or_pull_frontend_repo|].
Qed.

(** X13. The stages for the backend and for the main repository behave
    like the one for the frontend, with their own names. When a directory
    whose name starts with [backend] (with [main_repo]) is listed, the
    stage never clones: it opens the repository in the directory of
    exactly that name, looks up [origin], checks out [master] and pulls,
    in this order and stopping at the first call that raises, so that the
    pull happens only when the three calls before it have returned and
    the stage returns normally only when all four have. Otherwise it
    clones from the URL that embeds the credentials into the directory of
    that name, and makes no other call. In both cases no call but the
    last one made has raised. *)
Theorem other_repositories_pull_master entries rest tr lg :
  let w := World (Listing entries :: rest) tr lg in
  (let repo := RepoAt (Py.path_join cwd "backend") in
   let script :=
     [RepoOpen (Py.path_join cwd "backend"); RepoRemote repo "origin";
      GitCheckout repo "master"; OriginPull repo] in
   let r := clone_or_pull_backend_repo username app_password cwd w in
   ∃ calls,
     trace r.2 = tr ++ Iterdir :: calls ∧
     stops_at_failure (env w) (Iterdir :: calls) r.1 ∧
     if list_truth (matching_dirs entries "backend") then
       calls ≠ [] ∧ calls `prefix_of` script ∧ (r.1 = Ok tt → calls = script)
     else calls = [CloneFrom (backend_repo_url username app_password) "backend"]) ∧
  (let repo := RepoAt (Py.path_join cwd "main_repo") in
   let script :=
     [RepoOpen (Py.path_join cwd "main_repo"); RepoRemote repo "origin";
      GitCheckout repo "master"; OriginPull repo] in
   let r := clone_or_pull_jupiter_main_repo username app_password cwd w in
   ∃ calls,
     trace r.2 = tr ++ Iterdir :: calls ∧
     stops_at_failure (env w) (Iterdir :: calls) r.1 ∧
     if list_truth (matching_dirs entries "main_repo") then
       calls ≠ [] ∧ calls `prefix_of` script ∧ (r.1 = Ok tt → calls = script)
     else
       calls = [CloneFrom (jupiter_main_repo_url username app_password) "main_repo"]).
Proof.
  intros w. split; intros repo script r.
  - destruct (backend_calls entries rest tr lg) as (calls & Ht & Hc).
    exists calls. split_and!; [done| |done].
    by apply orderly_calls; [apply orderly_clone_or_pull_backend_repo|].
  - destruct (main_repo_calls entries rest tr lg) as (calls & Ht & Hc).
    exists calls. split_and!; [done| |done].
    by apply orderly_calls; [apply orderly_clone_or_pull_jupiter_main_repo|].
Qed.

End Script.

(** With [frontend-v2] the only directory listed, GitPython finds no
    directory [frontend] to open: the check has answered true, and the
    stage ends with [NoSuchPathError] after neither a pull nor a
    clone. *)
Lemma prefix_match_need_not_pull :
  let gone := Exn "NoSuchPathError" "/work/frontend" in
  let w := boot [Listing [DirEntry "frontend-v2" true]; Raises gone] in
  let r := clone_or_pull_frontend_repo "user" "secret" "/work" w in
  (check_code_already_exists "frontend" w).1 = Ok true ∧
  r.1 = Raise gone ∧
  trace r.2 = [Iterdir; RepoOpen "/work/frontend"].
Proof. by vm_compute. Qed.

Lemma prefix_match_counts_as_present_witness :
  let w := boot [Listing [DirEntry "docs" true; DirEntry "frontend-v2" true]] in
  let repo := RepoAt (Py.path_join "/work" "frontend") in
  let script :=
    [RepoOpen (Py.path_join "/work" "frontend"); RepoRemote repo "origin";
     GitCheckout repo "main"; OriginPull repo] in
  let r := clone_or_pull_frontend_repo "user" "secret" "/work" w in
  ((check_code_already_exists "frontend" w).1 = Ok true ↔
   ∃ d, d ∈ [DirEntry "docs" true; DirEntry "frontend-v2" true] ∧
        is_dir d = true ∧ Py.startswith (name d) "frontend" = true) ∧
  ∃ calls,
    trace r.2 = [] ++ Iterdir :: calls ∧
    calls ≠ [] ∧ calls `prefix_of` script ∧
    (r.1 = Ok tt → calls = script) ∧
    stops_at_failure (env w) (Iterdir :: calls) r.1.
Proof.
  intros w repo script r.
  destruct (prefix_match_counts_as_present "user" "secret" "/work") as [H1 H2].
  split.
  - exact (H1 w _ [] "frontend" eq_refl).
  - apply (H2 w _ [] (DirEntry "frontend-v2" true) eq_refl); [|reflexivity..].
    apply list_elem_of_In. simpl. auto.
Defined.

End PipelineRuns.
